(** * PluginManager: a shallow embedding of the plugin lifecycle orchestrator

    The development follows the class [PluginManager] (module [plugins]) and
    the [Logger] it writes to (module [logging]).  JavaScript [Map] and [Set]
    iterate in insertion order, so both are modelled as insertion-ordered
    lists.  Asynchronous methods are run to completion one after the other,
    and a plugin call is described by the way its promise settles against
    the timer it is raced with.  Initialization is followed twice: by
    itself, with the clock standing still, and with the clock running, where
    the retry waits and the timeouts take their time and the monitor fires
    whenever it falls due in between.

    Beside the manager the development covers the code it rests on: the
    error classes and utilities of module [errors] (module [Errors]), the
    logger with its configuration, filters, formatters and transports
    (module [Logging]), and the plugin base class with the Solana plugin
    (module [Plugins]). *)

From Stdlib Require Import String List ZArith Lia Bool Relations DecimalString.
Import ListNotations.
Local Open Scope string_scope.
Local Open Scope list_scope.
Local Open Scope Z_scope.
Local Set Warnings "-register-all".

(** ** JavaScript [Map<string, V>] and [Set<string>] *)

Module JsMap.

Definition t (V : Type) := list (string * V).

Fixpoint get {V} (m : t V) (k : string) : option V :=
  match m with
  | [] => None
  | (k', v) :: rest => if String.eqb k' k then Some v else get rest k
  end.

Definition has {V} (m : t V) (k : string) : bool :=
  match get m k with Some _ => true | None => false end.

(** [set] keeps the position of a key that is already present and appends a
    new key at the end. *)
Fixpoint set {V} (m : t V) (k : string) (v : V) : t V :=
  match m with
  | [] => [(k, v)]
  | (k', v') :: rest =>
      if String.eqb k' k then (k, v) :: rest else (k', v') :: set rest k v
  end.

Fixpoint delete {V} (m : t V) (k : string) : t V :=
  match m with
  | [] => []
  | (k', v') :: rest =>
      if String.eqb k' k then delete rest k else (k', v') :: delete rest k
  end.

Definition keys {V} (m : t V) : list string := List.map fst m.

End JsMap.

Module JsSet.

Definition t := list string.

Definition has (s : t) (x : string) : bool := existsb (String.eqb x) s.

Definition add (s : t) (x : string) : t := if has s x then s else s ++ [x].

Definition delete (s : t) (x : string) : t :=
  filter (fun y => negb (String.eqb x y)) s.

(** [new Set(array)] *)
Definition from_list (l : list string) : t := fold_left add l [].

End JsSet.

(** ** Errors and completions *)

Inductive ErrorCode := PLUGIN_ERROR | CONFIGURATION_ERROR.

Inductive ErrorContext :=
| NoContext
| CycleContext (cycle : string)
| AttemptsContext (attempts : Z).

(** A thrown JavaScript value: an [Error] instance, a value that is not an
    [Error] (kept through its [String(...)] rendering), or an [ElizaError].
    The class [ElizaError] lives in the module [errors]; the manager only
    constructs it, with a message, a code and optionally a cause and a
    context, and that is what is recorded here. *)
Inductive Thrown :=
| PlainError (message : string)
| NonError (rendering : string)
| ElizaError (message : string) (code : ErrorCode)
             (cause : option Thrown) (context : ErrorContext).

Definition instanceofError (e : Thrown) : bool :=
  match e with NonError _ => false | _ => true end.

(** How a call ends.  [OutOfFuel] is an artefact of the embedding of loops
    and of the recursive graph walk; it is shown never to be produced. *)
Inductive Completion (A : Type) :=
| Returns (a : A)
| Throws (e : Thrown)
| OutOfFuel.
Arguments Returns {A} a.
Arguments Throws {A} e.
Arguments OutOfFuel {A}.

(** ** Data model *)

Inductive RecoveryStrategy := restart | failover | terminate.

Record ErrorHandling := mkErrorHandling {
  retryAttempts : Z;
  timeoutMs : Z;
  recoveryStrategy : RecoveryStrategy
}.

Record PartialErrorHandling := mkPartialErrorHandling {
  retryAttempts_opt : option Z;
  timeoutMs_opt : option Z;
  recoveryStrategy_opt : option RecoveryStrategy
}.

Record PluginMetadata := mkMetadata {
  version : string;
  description : option string
}.

Definition Options := list (string * string).

(** [PluginConfig]: every field is optional. *)
Record PluginConfig := mkPluginConfig {
  cfg_metadata : option PluginMetadata;
  cfg_dependencies : option (list string);
  cfg_options : option Options;
  cfg_errorHandling : option PartialErrorHandling
}.

(** [Required<PluginConfig>] *)
Record NormalizedConfig := mkNormalizedConfig {
  metadata : PluginMetadata;
  dependencies_of_config : list string;
  options : Options;
  errorHandling : ErrorHandling
}.

(** How the promise of [plugin.initialize] fares in the race against the
    [timeoutMs] timer. *)
Inductive InitSettlement :=
| InitResolves
| InitRejects (reason : Thrown)
| InitPending.

Inductive DestroySettlement :=
| DestroyResolves
| DestroyRejects (reason : Thrown).

(** A plugin is an external object.  Its behaviour is given call by call: the
    [k]-th call of [initialize] settles as [initialize_behaviour k], and the
    object counts the calls it has received.  [destroy] is optional. *)
Record Plugin := mkPlugin {
  initialize_behaviour : nat -> InitSettlement;
  destroy_behaviour : option (nat -> DestroySettlement);
  initialize_calls : nat;
  destroy_calls : nat
}.

Record Metrics := mkMetrics {
  lastHeartbeat : Z;
  errorCount : Z;
  warningCount : Z
}.

Record PluginEntry := mkEntry {
  plugin : Plugin;
  config : NormalizedConfig;
  isInitialized : bool;
  metrics : Metrics
}.

(** ** Logger (module [logging]) and observable events *)

Inductive LogLevel := DEBUG | INFO | WARN | ERROR.

Definition level_value (l : LogLevel) : Z :=
  match l with DEBUG => 0 | INFO => 1 | WARN => 2 | ERROR => 3 end.

(** What the manager does to the outside world, in order: log entries handed
    to the transports, calls into plugins, and timer waits between retries. *)
Inductive Event :=
| Logged (level : LogLevel) (message : string) (error : option Thrown)
| CalledInitialize (name : string)
| CalledDestroy (name : string)
| Waited (ms : Z).

(** The manager state: the two private maps, the clock read by [Date.now()],
    the due time of the monitor's interval timer, and the events so far. *)
Record Manager := mkManager {
  plugins : JsMap.t PluginEntry;
  dependencies : JsMap.t JsSet.t;
  now : Z;
  nextTick : Z;
  events : list Event
}.

Definition emit (ev : Event) (m : Manager) : Manager :=
  mkManager (plugins m) (dependencies m) (now m) (nextTick m) (events m ++ [ev]).

Definition with_plugins (p : JsMap.t PluginEntry) (m : Manager) : Manager :=
  mkManager p (dependencies m) (now m) (nextTick m) (events m).

Definition with_dependencies (d : JsMap.t JsSet.t) (m : Manager) : Manager :=
  mkManager (plugins m) d (now m) (nextTick m) (events m).

(** [new Logger()]: [minLevel] is [INFO], the console transport is enabled
    and there are no filters. *)
Definition minLevel : LogLevel := INFO.

(** [Logger.log] *)
Definition log (level : LogLevel) (message : string) (error : option Thrown)
    (m : Manager) : Manager :=
  if level_value level <? level_value minLevel then m
  else emit (Logged level message error) m.

Definition logger_info (message : string) := log INFO message None.
Definition logger_warn (message : string) := log WARN message None.
Definition logger_error (message : string) (error : Thrown) :=
  log ERROR message (Some error).

(** ** Dependency resolution *)

(** The three pieces of mutable state of [resolveInitializationOrder]: the
    recursion path handed down to [visit], the [visited] set and the
    [initOrder] array. *)
Record Walk := mkWalk {
  path : JsSet.t;
  visited : JsSet.t;
  initOrder : list string
}.

Definition circularDependency (path : JsSet.t) (name : string) : Thrown :=
  ElizaError "Circular dependency detected" CONFIGURATION_ERROR None
    (CycleContext (String.concat " -> " (path ++ [name]))).

Definition missingDependency (dep name : string) : Thrown :=
  ElizaError ("Missing dependency: " ++ dep ++ " for plugin " ++ name)%string
    CONFIGURATION_ERROR None NoContext.

(** The [for (const dep of dependencies)] loop inside [visit]. *)
Fixpoint visit_dependencies (registered : string -> bool)
    (visit : string -> Walk -> Completion Walk) (name : string)
    (deps : list string) (w : Walk) : Completion Walk :=
  match deps with
  | [] => Returns w
  | dep :: rest =>
      if negb (registered dep) then Throws (missingDependency dep name)
      else
        match visit dep w with
        | Returns w' => visit_dependencies registered visit name rest w'
        | Throws e => Throws e
        | OutOfFuel => OutOfFuel
        end
  end.

(** The closure [visit].  [fuel] bounds the recursion depth. *)
Fixpoint visit (fuel : nat) (m : Manager) (name : string) (w : Walk)
    : Completion Walk :=
  match fuel with
  | O => OutOfFuel
  | S fuel' =>
      if JsSet.has (path w) name then
        Throws (circularDependency (path w) name)
      else if JsSet.has (visited w) name then Returns w
      else
        let w1 := mkWalk (JsSet.add (path w) name) (visited w) (initOrder w) in
        let after_deps :=
          match JsMap.get (dependencies m) name with
          | Some deps =>
              visit_dependencies (JsMap.has (plugins m)) (visit fuel' m)
                name deps w1
          | None => Returns w1
          end in
        match after_deps with
        | Returns w2 =>
            Returns (mkWalk (JsSet.delete (path w2) name)
                            (JsSet.add (visited w2) name)
                            (initOrder w2 ++ [name]))
        | Throws e => Throws e
        | OutOfFuel => OutOfFuel
        end
  end.

(** The [for (const name of this.plugins.keys())] loop; every iteration hands
    a fresh, empty path to [visit]. *)
Fixpoint visit_all (fuel : nat) (m : Manager) (names : list string) (w : Walk)
    : Completion Walk :=
  match names with
  | [] => Returns w
  | name :: rest =>
      match visit fuel m name (mkWalk [] (visited w) (initOrder w)) with
      | Returns w' => visit_all fuel m rest w'
      | Throws e => Throws e
      | OutOfFuel => OutOfFuel
      end
  end.

Definition resolveInitializationOrder (m : Manager) : Completion (list string) :=
  match visit_all (S (length (plugins m))) m (JsMap.keys (plugins m))
          (mkWalk [] [] []) with
  | Returns w => Returns (initOrder w)
  | Throws e => Throws e
  | OutOfFuel => OutOfFuel
  end.

(** ** Registration *)

(** Rendering of a number inside a template literal. *)
Definition string_of_Z (z : Z) : string := NilZero.string_of_int (Z.to_int z).

(** [!dep] on a string. *)
Definition falsy (dep : string) : bool := String.eqb dep "".

Definition duplicateRegistration (name : string) : Thrown :=
  ElizaError ("Plugin already registered: " ++ name)%string
    CONFIGURATION_ERROR None NoContext.

Definition invalidDependencies (name : string) : Thrown :=
  ElizaError ("Invalid dependencies configuration for plugin: " ++ name)%string
    CONFIGURATION_ERROR None NoContext.

Definition validatePluginConfig (name : string) (cfg : PluginConfig)
    (m : Manager) : Completion unit :=
  if JsMap.has (plugins m) name then Throws (duplicateRegistration name)
  else if match cfg_dependencies cfg with
          | Some deps => existsb falsy deps
          | None => false
          end
       then Throws (invalidDependencies name)
       else Returns tt.

Definition default_metadata : PluginMetadata :=
  mkMetadata "1.0.0" (Some "No description provided").

Definition or_default {A} (o : option A) (d : A) : A :=
  match o with Some a => a | None => d end.

(** The spread of [config.errorHandling] over the three defaults.  A
    [PartialErrorHandling] here is an object in which a key is either absent
    or holds a value of its type, an integer for the two numbers; an object
    that carries a key with the value [undefined], which the spread would
    store over the default, is not a value of this type. *)
Definition normalizeErrorHandling (o : option PartialErrorHandling)
    : ErrorHandling :=
  match o with
  | None => mkErrorHandling 3 5000 restart
  | Some p =>
      mkErrorHandling (or_default (retryAttempts_opt p) 3)
                      (or_default (timeoutMs_opt p) 5000)
                      (or_default (recoveryStrategy_opt p) restart)
  end.

Definition normalizeConfig (cfg : PluginConfig) : NormalizedConfig :=
  mkNormalizedConfig
    (or_default (cfg_metadata cfg) default_metadata)
    (or_default (cfg_dependencies cfg) [])
    (or_default (cfg_options cfg) [])
    (normalizeErrorHandling (cfg_errorHandling cfg)).

Definition registerPlugin (name : string) (p : Plugin) (cfg : PluginConfig)
    (m : Manager) : Completion unit * Manager :=
  match validatePluginConfig name cfg m with
  | Throws e => (Throws e, m)
  | OutOfFuel => (OutOfFuel, m)
  | Returns _ =>
      let normalizedConfig := normalizeConfig cfg in
      let m1 :=
        with_plugins
          (JsMap.set (plugins m) name
             (mkEntry p normalizedConfig false (mkMetrics (now m) 0 0))) m in
      let m2 :=
        match dependencies_of_config normalizedConfig with
        | [] => m1
        | deps =>
            with_dependencies
              (JsMap.set (dependencies m1) name (JsSet.from_list deps)) m1
        end in
      (Returns tt, logger_info ("Registered plugin: " ++ name)%string m2)
  end.

(** ** Initialization *)

(** Mutations of the entry object reach the map through the shared
    reference: the entry held by the running method is written back under
    its name after every change. *)
Definition write_entry (name : string) (e : PluginEntry) (m : Manager)
    : Manager :=
  with_plugins (JsMap.set (plugins m) name e) m.

Definition called_initialize (p : Plugin) : Plugin :=
  mkPlugin (initialize_behaviour p) (destroy_behaviour p)
           (S (initialize_calls p)) (destroy_calls p).

Definition called_destroy (p : Plugin) : Plugin :=
  mkPlugin (initialize_behaviour p) (destroy_behaviour p)
           (initialize_calls p) (S (destroy_calls p)).

Definition set_plugin (p : Plugin) (e : PluginEntry) : PluginEntry :=
  mkEntry p (config e) (isInitialized e) (metrics e).

Definition set_isInitialized (b : bool) (e : PluginEntry) : PluginEntry :=
  mkEntry (plugin e) (config e) b (metrics e).

Definition increment_errorCount (e : PluginEntry) : PluginEntry :=
  mkEntry (plugin e) (config e) (isInitialized e)
    (mkMetrics (lastHeartbeat (metrics e)) (errorCount (metrics e) + 1)
               (warningCount (metrics e))).

(** [Promise.race] of the plugin's promise against the timeout timer:
    [None] when the race is won by a fulfilled [initialize], otherwise the
    value the [catch] clause receives. *)
Definition race (s : InitSettlement) : option Thrown :=
  match s with
  | InitResolves => None
  | InitRejects reason => Some reason
  | InitPending => Some (PlainError "Initialization timeout")
  end.

(** [error instanceof Error ? error : new Error(String(error))] *)
Definition as_error (error : Thrown) : Thrown :=
  match error with
  | NonError rendering => PlainError rendering
  | _ => error
  end.

Definition pluginNotFound (name : string) : Thrown :=
  ElizaError ("Plugin not found: " ++ name)%string PLUGIN_ERROR None NoContext.

Definition initializationFailed (name : string) (error : Thrown)
    (attempts : Z) : Thrown :=
  ElizaError ("Failed to initialize plugin: " ++ name)%string PLUGIN_ERROR
    (if instanceofError error then Some error else None)
    (AttemptsContext attempts).

Definition attemptFailedMessage (attempts retries : Z) (name : string)
    : string :=
  ("Plugin initialization failed (attempt " ++ string_of_Z attempts ++ "/"
     ++ string_of_Z retries ++ "): " ++ name)%string.

(** The [while (attempts < retryAttempts)] loop of [initializePlugin],
    followed by itself: a wait is recorded as an event and the clock stands
    still ([initializeAttempts_timed] below lets the clock run).  [fuel]
    bounds the number of evaluations of the loop condition. *)
Fixpoint initializeAttempts (fuel : nat) (name : string) (retries : Z)
    (attempts : Z) (entry : PluginEntry) (m : Manager)
    : Completion unit * Manager :=
  match fuel with
  | O => (OutOfFuel, m)
  | S fuel' =>
      if attempts <? retries then
        let p := plugin entry in
        let settlement := initialize_behaviour p (initialize_calls p) in
        let entry1 := set_plugin (called_initialize p) entry in
        let m1 := emit (CalledInitialize name) (write_entry name entry1 m) in
        match race settlement with
        | None =>
            let entry2 := set_isInitialized true entry1 in
            (Returns tt,
             logger_info ("Initialized plugin: " ++ name)%string
               (write_entry name entry2 m1))
        | Some error =>
            let attempts' := attempts + 1 in
            let entry2 := increment_errorCount entry1 in
            let m2 :=
              logger_error (attemptFailedMessage attempts' retries name)
                (as_error error) (write_entry name entry2 m1) in
            if attempts' =? retries then
              (Throws (initializationFailed name error attempts'), m2)
            else
              initializeAttempts fuel' name retries attempts' entry2
                (emit (Waited (1000 * attempts')) m2)
        end
      else (Returns tt, m)
  end.

Definition initializePlugin (name : string) (m : Manager)
    : Completion unit * Manager :=
  match JsMap.get (plugins m) name with
  | None => (Throws (pluginNotFound name), m)
  | Some entry =>
      let retries := retryAttempts (errorHandling (config entry)) in
      initializeAttempts (S (Z.to_nat retries)) name retries 0 entry m
  end.

(** The [for (const pluginName of initOrder)] loop of [initializePlugins]. *)
Fixpoint initializeInOrder (initOrder : list string) (m : Manager)
    : Completion unit * Manager :=
  match initOrder with
  | [] => (Returns tt, m)
  | pluginName :: rest =>
      match initializePlugin pluginName m with
      | (Returns _, m') => initializeInOrder rest m'
      | (Throws e, m') => (Throws e, m')
      | (OutOfFuel, m') => (OutOfFuel, m')
      end
  end.

Definition initializePlugins (m : Manager) : Completion unit * Manager :=
  match resolveInitializationOrder m with
  | Returns initOrder => initializeInOrder initOrder m
  | Throws e => (Throws e, m)
  | OutOfFuel => (OutOfFuel, m)
  end.

(** ** Recovery *)

(** [await entry.plugin.destroy?.()]: [None] when the call is skipped or its
    promise is fulfilled, otherwise the rejection reason. *)
Definition attempt_destroy (name : string) (entry : PluginEntry) (m : Manager)
    : option Thrown * PluginEntry * Manager :=
  match destroy_behaviour (plugin entry) with
  | None => (None, entry, m)
  | Some behaviour =>
      let entry1 := set_plugin (called_destroy (plugin entry)) entry in
      let m1 := emit (CalledDestroy name) (write_entry name entry1 m) in
      match behaviour (destroy_calls (plugin entry)) with
      | DestroyResolves => (None, entry1, m1)
      | DestroyRejects reason => (Some reason, entry1, m1)
      end
  end.

(** Reading a property of [undefined], which is what [this.plugins.get(name)!]
    yields for a name that is not registered.  The read stands inside the
    [try] block of both recovery actions, so the error is caught and
    logged there. *)
Definition undefinedEntry : Thrown :=
  PlainError "TypeError: Cannot read properties of undefined (reading 'plugin')".

Definition restartPlugin (name : string) (m : Manager)
    : Completion unit * Manager :=
  let m1 := logger_info ("Restarting plugin: " ++ name)%string m in
  match JsMap.get (plugins m1) name with
  | None =>
      (Returns tt,
       logger_error ("Plugin restart failed: " ++ name)%string undefinedEntry
         m1)
  | Some entry =>
      match attempt_destroy name entry m1 with
      | (Some error, _, m2) =>
          (Returns tt,
           logger_error ("Plugin restart failed: " ++ name)%string error m2)
      | (None, entry1, m2) =>
          let m3 := write_entry name (set_isInitialized false entry1) m2 in
          match initializePlugin name m3 with
          | (Returns _, m4) => (Returns tt, m4)
          | (Throws error, m4) =>
              (Returns tt,
               logger_error ("Plugin restart failed: " ++ name)%string error m4)
          | (OutOfFuel, m4) => (OutOfFuel, m4)
          end
      end
  end.

Definition failoverPlugin (name : string) (m : Manager)
    : Completion unit * Manager :=
  (Returns tt, logger_info ("Failover initiated for plugin: " ++ name)%string m).

Definition terminatePlugin (name : string) (m : Manager)
    : Completion unit * Manager :=
  let m1 := logger_info ("Terminating plugin: " ++ name)%string m in
  match JsMap.get (plugins m1) name with
  | None =>
      (Returns tt,
       logger_error ("Plugin termination failed: " ++ name)%string
         undefinedEntry m1)
  | Some entry =>
      match attempt_destroy name entry m1 with
      | (None, _, m2) =>
          (Returns tt,
           with_dependencies (JsMap.delete (dependencies m2) name)
             (with_plugins (JsMap.delete (plugins m2) name) m2))
      | (Some error, _, m2) =>
          (Returns tt,
           logger_error ("Plugin termination failed: " ++ name)%string error m2)
      end
  end.

Definition handlePluginFailure (name : string) (entry : PluginEntry)
    (m : Manager) : Completion unit * Manager :=
  match recoveryStrategy (errorHandling (config entry)) with
  | restart => restartPlugin name m
  | failover => failoverPlugin name m
  | terminate => terminatePlugin name m
  end.

(** ** Health monitoring *)

(** The first half of the body of the monitor's loop. *)
Definition heartbeat_check (name : string) (entry : PluginEntry) (m : Manager)
    : Manager :=
  let elapsed := now m - lastHeartbeat (metrics entry) in
  if elapsed >? 30000
  then logger_warn ("Plugin heartbeat timeout: " ++ name)%string m
  else m.

(** The loop [for (const [name, entry] of this.plugins)] of the interval
    callback.  A recovery action touches no entry other than the one it is
    dispatched for, so the live iteration of the map is the iteration of the
    keys present when the tick starts, skipping a key that is gone.  The
    promise of [handlePluginFailure] is dropped by the callback; here a
    recovery action is run to its end where it is dispatched, where the
    running system goes on with the loop at the first [await] of the
    action.  A tick that dispatches no recovery action is not concerned. *)
Fixpoint monitor_entries (names : list string) (m : Manager) : Manager :=
  match names with
  | [] => m
  | name :: rest =>
      match JsMap.get (plugins m) name with
      | None => monitor_entries rest m
      | Some entry =>
          let m1 := heartbeat_check name entry m in
          if errorCount (metrics entry) >? 10
          then monitor_entries rest (snd (handlePluginFailure name entry m1))
          else monitor_entries rest m1
      end
  end.

(** One run of the callback that [initializeHealthMonitoring] installs. *)
Definition tick (m : Manager) : Manager :=
  monitor_entries (JsMap.keys (plugins m)) m.

(** ** Construction and the timer *)

Definition monitor_period : Z := 10000.

(** [new PluginManager(context)] at clock value [t]: empty maps, and the
    interval timer first due one period later. *)
Definition construct (t : Z) : Manager :=
  mkManager [] [] t (t + monitor_period) [].

(** The interval timer fires: the clock stands at the due time, the callback
    runs, and the timer is due again one period later. *)
Definition fire (m : Manager) : Manager :=
  let m1 := mkManager (plugins m) (dependencies m) (nextTick m)
                      (nextTick m + monitor_period) (events m) in
  tick m1.

Fixpoint run_due (fuel : nat) (target : Z) (m : Manager) : Manager :=
  match fuel with
  | O => m
  | S fuel' =>
      if nextTick m <=? target then run_due fuel' target (fire m) else m
  end.

(** The clock moves forward by [ms] milliseconds; every firing of the
    interval timer that falls due on the way runs at its due time. *)
Definition advanceTimersByTime (ms : Z) (m : Manager) : Manager :=
  let target := now m + ms in
  let m' := run_due (S (Z.to_nat (ms / monitor_period))) target m in
  mkManager (plugins m') (dependencies m') target (nextTick m') (events m').

(** ** Initialization while the timers run

    [initializeAttempts] above follows one call of [initializePlugin] by
    itself: a wait is an event and the clock stands still.  In the running
    system the waits are timers like the monitor's: while [initializePlugin]
    sits in a backoff, or in the race against a plugin that does not answer,
    time passes and the monitor fires whenever it falls due.  The
    definitions below follow the same code with the clock running.  As in
    [tick], a recovery action that a firing dispatches is run to completion
    within the firing. *)

(** [await] on a timer of [ms] milliseconds: the clock moves on and the
    monitor fires when due; a delay that is not positive counts as 0. *)
Definition sleep (ms : Z) (m : Manager) : Manager :=
  advanceTimersByTime (Z.max 0 ms) m.

(** The entry object the running method holds.  While the name is
    registered it is the object in the map, which a recovery action may
    have written to in the meantime; once the entry has been deleted from
    the map the method goes on with the object as it last saw it. *)
Definition held (name : string) (seen : PluginEntry) (m : Manager)
    : PluginEntry :=
  match JsMap.get (plugins m) name with
  | Some e => e
  | None => seen
  end.

(** A write to the held object reaches the map only while the object is
    still in it. *)
Definition write_held (name : string) (e : PluginEntry) (m : Manager)
    : Manager :=
  if JsMap.has (plugins m) name then write_entry name e m else m.

(** The time the race of one attempt takes: a promise of [initialize] that
    settles does so at once, otherwise the race ends when the timeout timer
    fires. *)
Definition race_timed (s : InitSettlement) (timeoutMs : Z) (m : Manager)
    : Manager :=
  match s with
  | InitPending => sleep timeoutMs m
  | _ => m
  end.

(** The loop of [initializePlugin] with the clock running. *)
Fixpoint initializeAttempts_timed (fuel : nat) (name : string)
    (retries timeoutMs : Z) (attempts : Z) (seen : PluginEntry) (m : Manager)
    : Completion unit * Manager :=
  match fuel with
  | O => (OutOfFuel, m)
  | S fuel' =>
      if attempts <? retries then
        let entry := held name seen m in
        let p := plugin entry in
        let settlement := initialize_behaviour p (initialize_calls p) in
        let entry1 := set_plugin (called_initialize p) entry in
        let m1 := emit (CalledInitialize name) (write_held name entry1 m) in
        match race settlement with
        | None =>
            let entry2 := set_isInitialized true entry1 in
            (Returns tt,
             logger_info ("Initialized plugin: " ++ name)%string
               (write_held name entry2 m1))
        | Some error =>
            let m1' := race_timed settlement timeoutMs m1 in
            let attempts' := attempts + 1 in
            let entry2 := increment_errorCount (held name entry1 m1') in
            let m2 :=
              logger_error (attemptFailedMessage attempts' retries name)
                (as_error error) (write_held name entry2 m1') in
            if attempts' =? retries then
              (Throws (initializationFailed name error attempts'), m2)
            else
              initializeAttempts_timed fuel' name retries timeoutMs attempts'
                entry2 (sleep (1000 * attempts') m2)
        end
      else (Returns tt, m)
  end.

Definition initializePlugin_timed (name : string) (m : Manager)
    : Completion unit * Manager :=
  match JsMap.get (plugins m) name with
  | None => (Throws (pluginNotFound name), m)
  | Some entry =>
      let retries := retryAttempts (errorHandling (config entry)) in
      initializeAttempts_timed (S (Z.to_nat retries)) name retries
        (timeoutMs (errorHandling (config entry))) 0 entry m
  end.

Fixpoint initializeInOrder_timed (initOrder : list string) (m : Manager)
    : Completion unit * Manager :=
  match initOrder with
  | [] => (Returns tt, m)
  | pluginName :: rest =>
      match initializePlugin_timed pluginName m with
      | (Returns _, m') => initializeInOrder_timed rest m'
      | (Throws e, m') => (Throws e, m')
      | (OutOfFuel, m') => (OutOfFuel, m')
      end
  end.

Definition initializePlugins_timed (m : Manager) : Completion unit * Manager :=
  match resolveInitializationOrder m with
  | Returns initOrder => initializeInOrder_timed initOrder m
  | Throws e => (Throws e, m)
  | OutOfFuel => (OutOfFuel, m)
  end.

(** * Vocabulary of the statements *)

(** ** The dependency graph of a registry *)

Definition registered (m : Manager) (x : string) : Prop :=
  In x (JsMap.keys (plugins m)).

(** The ids the walk iterates over when it processes [x]. *)
Definition deps_of (m : Manager) (x : string) : list string :=
  match JsMap.get (dependencies m) x with
  | Some deps => deps
  | None => []
  end.

(** [depends m a b]: plugin [a] declares the dependency [b]. *)
Definition depends (m : Manager) (a b : string) : Prop := In b (deps_of m a).

(** The dependency relation restricted to registered ids. *)
Definition dep_edge (m : Manager) (a b : string) : Prop :=
  registered m a /\ registered m b /\ depends m a b.

Definition acyclic (m : Manager) : Prop :=
  forall x, ~ clos_trans string (dep_edge m) x x.

Definition cyclic (m : Manager) : Prop :=
  exists x, clos_trans string (dep_edge m) x x.

(** Every dependency declared by a registered plugin is registered. *)
Definition closed (m : Manager) : Prop :=
  forall a b, registered m a -> depends m a b -> registered m b.

(** Each element of the list is related to the next one. *)
Fixpoint chain (R : string -> string -> Prop) (l : list string) : Prop :=
  match l with
  | a :: ((b :: _) as tl) => R a b /\ chain R tl
  | _ => True
  end.

(** [b] occurs in [l] at an earlier position than [a]. *)
Definition before (b a : string) (l : list string) : Prop :=
  exists l1 l2 l3, l = l1 ++ b :: l2 ++ a :: l3.

(** Whatever stands in [order] has all its dependencies to its left. *)
Definition sorted (m : Manager) (order : list string) : Prop :=
  forall l1 x l2, order = l1 ++ x :: l2 ->
  forall d, depends m x d -> In d l1.

(** The invariant of the walk. *)
Record walk_ok (m : Manager) (w : Walk) : Prop := mk_walk_ok {
  ok_path_nodup : NoDup (path w);
  ok_path_reg : forall x, In x (path w) -> registered m x;
  ok_disjoint : forall x, In x (path w) -> ~ In x (visited w);
  ok_visited : forall x, In x (visited w) <-> In x (initOrder w);
  ok_nodup : NoDup (initOrder w);
  ok_reg : forall x, In x (initOrder w) -> registered m x;
  ok_sorted : sorted m (initOrder w)
}.

(** The circular-dependency error, raised for a recursion path that runs
    along dependency edges through registered ids and comes back to [x]. *)
Definition cycle_report (m : Manager) (e : Thrown) : Prop :=
  exists pre x mid,
    e = circularDependency (pre ++ x :: mid) x /\
    chain (dep_edge m) (pre ++ x :: mid ++ [x]).

(** The missing-dependency error, raised for a registered plugin [n] and an
    id [d] it declares that is not registered. *)
Definition missing_report (m : Manager) (e : Thrown) : Prop :=
  exists n d,
    e = missingDependency d n /\
    registered m n /\ depends m n d /\ ~ registered m d.

(** What a call of [visit], or of one of the loops around it, is allowed
    to do. *)
Definition walk_result (m : Manager) (w : Walk) (targets : list string)
    (r : Completion Walk) : Prop :=
  match r with
  | Returns w' =>
      walk_ok m w' /\ path w' = path w /\
      (forall d, In d targets -> In d (visited w')) /\
      incl (visited w) (visited w')
  | Throws e => cycle_report m e \/ missing_report m e
  | OutOfFuel => False
  end.

(** The claims speak of a cycle through at least two ids. *)
Definition cycle_of_length_at_least_2 (m : Manager) : Prop :=
  exists a b, a <> b /\
    clos_trans string (dep_edge m) a b /\ clos_trans string (dep_edge m) b a.

(** Some registered plugin declares an id that is not registered. *)
Definition dangling (m : Manager) : Prop :=
  exists n d, registered m n /\ depends m n d /\ ~ registered m d.

(** ** Plugin behaviour seen from the manager *)

(** How the next call of [destroy] on this entry's plugin ends: [None] when
    there is no [destroy] or its promise is fulfilled, otherwise the
    rejection reason. *)
Definition destroy_outcome (e : PluginEntry) : option Thrown :=
  match destroy_behaviour (plugin e) with
  | None => None
  | Some behaviour =>
      match behaviour (destroy_calls (plugin e)) with
      | DestroyResolves => None
      | DestroyRejects reason => Some reason
      end
  end.

(** Two entries that differ at most in the internal state of the plugin
    object they hold. *)
Definition same_registration (e e' : PluginEntry) : Prop :=
  config e' = config e /\ isInitialized e' = isInitialized e /\
  metrics e' = metrics e.


(** The entry [e] after [calls] further calls of [initialize], of which
    [failures] failed, with the initialization flag [flag]. *)
Definition entry_after (calls failures : nat) (flag : bool) (e : PluginEntry)
    : PluginEntry :=
  mkEntry
    (mkPlugin (initialize_behaviour (plugin e)) (destroy_behaviour (plugin e))
              (initialize_calls (plugin e) + calls) (destroy_calls (plugin e)))
    (config e) flag
    (mkMetrics (lastHeartbeat (metrics e))
               (errorCount (metrics e) + Z.of_nat failures)
               (warningCount (metrics e))).


(** The manager [m] with the entry of [name] replaced and further events. *)
Definition manager_after (name : string) (e : PluginEntry) (evs : list Event)
    (m : Manager) : Manager :=
  mkManager (JsMap.set (plugins m) name e) (dependencies m) (now m)
            (nextTick m) (events m ++ evs).


(** ** What operations may change *)

(** The entry [e'] is a later state of the entry [e]: same configuration,
    same heartbeat and warning count, and an error count that is not
    smaller. *)
Definition entry_grows (e e' : PluginEntry) : Prop :=
  config e' = config e /\
  lastHeartbeat (metrics e') = lastHeartbeat (metrics e) /\
  warningCount (metrics e') = warningCount (metrics e) /\
  errorCount (metrics e) <= errorCount (metrics e').

(** The log entry written after a successful [initialize]. *)
Definition success_log (name : string) : Event :=
  Logged INFO ("Initialized plugin: " ++ name)%string None.

Definition is_call (x : string) (ev : Event) : bool :=
  match ev with
  | CalledInitialize y => String.eqb y x
  | _ => false
  end.

Definition is_success (x : string) (ev : Event) : bool :=
  match ev with
  | Logged INFO message None =>
      String.eqb message ("Initialized plugin: " ++ x)%string
  | _ => false
  end.

(** The number of failed initialization attempts of [x] recorded in [evs]:
    the calls of its [initialize] that are not followed by the success
    log. *)
Definition failures_of (x : string) (evs : list Event) : Z :=
  Z.of_nat (length (filter (is_call x) evs))
  - Z.of_nat (length (filter (is_success x) evs)).

(** The events [initializePlugin] can produce for [name]. *)
Definition init_event (name : string) (ev : Event) : Prop :=
  match ev with
  | CalledInitialize x => x = name
  | Logged INFO message error => ev = success_log name
  | Logged ERROR _ _ => True
  | Logged _ _ _ => False
  | Waited _ => True
  | CalledDestroy _ => False
  end.

(** The effect of initialization attempts for [name], whose entry goes from
    [e] to [e']: nothing but that entry and the events changes, the success
    log is written only when the entry ends initialized, and the error count
    has grown by the number of failed attempts. *)
Record init_effect (name : string) (e e' : PluginEntry) (m m' : Manager)
    : Prop := mk_init_effect {
  ie_dependencies : dependencies m' = dependencies m;
  ie_now : now m' = now m;
  ie_nextTick : nextTick m' = nextTick m;
  ie_plugins : plugins m' = JsMap.set (plugins m) name e';
  ie_grows : entry_grows e e';
  ie_flag : isInitialized e = true -> isInitialized e' = true;
  ie_events : exists evs,
      events m' = events m ++ evs /\ Forall (init_event name) evs /\
      (In (success_log name) evs -> isInitialized e' = true) /\
      errorCount (metrics e') = errorCount (metrics e) + failures_of name evs
}.

(** The effect of initializing the plugins [names] one after the other:
    no entry appears or disappears, entries outside [names] are untouched,
    no entry loses its initialization flag, [initialize] is called for
    members of [names] only, a plugin whose success was logged is
    registered and initialized at the end, and every error count has grown
    by the number of failed attempts of its plugin. *)
Record init_run (names : list string) (m m' : Manager) : Prop := mk_init_run {
  ir_dependencies : dependencies m' = dependencies m;
  ir_now : now m' = now m;
  ir_nextTick : nextTick m' = nextTick m;
  ir_keys : JsMap.keys (plugins m') = JsMap.keys (plugins m);
  ir_frame : forall x, ~ In x names ->
      JsMap.get (plugins m') x = JsMap.get (plugins m) x;
  ir_keeps : forall x e, JsMap.get (plugins m) x = Some e ->
      exists e', JsMap.get (plugins m') x = Some e' /\ entry_grows e e' /\
                 (isInitialized e = true -> isInitialized e' = true);
  ir_events : exists evs,
      events m' = events m ++ evs /\
      (forall x, In (CalledInitialize x) evs -> In x names) /\
      (forall x, In (success_log x) evs ->
         exists e', JsMap.get (plugins m') x = Some e' /\
                    isInitialized e' = true) /\
      (forall x e e', JsMap.get (plugins m) x = Some e ->
         JsMap.get (plugins m') x = Some e' ->
         errorCount (metrics e') = errorCount (metrics e) + failures_of x evs)
}.

(** ** Recovery and the error count *)

(** [m'] has the events of [m] and some more; every entry of [m'] is a
    later state of the entry [m] has under the same id, and its error count
    has grown by the number of failed initialization attempts of its plugin
    among the new events. *)
Definition accounted (m m' : Manager) : Prop :=
  exists evs,
    events m' = events m ++ evs /\
    forall x e', JsMap.get (plugins m') x = Some e' ->
      exists e, JsMap.get (plugins m) x = Some e /\ entry_grows e e' /\
                errorCount (metrics e') =
                errorCount (metrics e) + failures_of x evs.

(** The first thing each recovery action does is to log its start. *)
Definition recovery_log (s : RecoveryStrategy) (name : string) : Event :=
  match s with
  | restart => Logged INFO ("Restarting plugin: " ++ name)%string None
  | failover => Logged INFO ("Failover initiated for plugin: " ++ name)%string None
  | terminate => Logged INFO ("Terminating plugin: " ++ name)%string None
  end.

(** A recovery action for [name] starts by logging [first]; it touches no
    other entry and makes no initialization attempt for another plugin; the
    entry of [name], if still there, is a later state of the one before,
    with the failed attempts of the action added to its error count. *)
Record recovery_effect (name : string) (first : Event) (m m' : Manager)
    : Prop := mk_recovery_effect {
  re_frame : forall k, k <> name ->
      JsMap.get (plugins m') k = JsMap.get (plugins m) k;
  re_events : exists evs,
      events m' = events m ++ first :: evs /\
      (forall k, k <> name -> failures_of k (first :: evs) = 0) /\
      (forall e', JsMap.get (plugins m') name = Some e' ->
         exists e, JsMap.get (plugins m) name = Some e /\ entry_grows e e' /\
                   errorCount (metrics e') =
                   errorCount (metrics e) + failures_of name (first :: evs))
}.

(** The operations of the manager: the public methods, the passing of time
    with the monitor firing on the way, and the recovery actions (private,
    reached from the monitor and from the test suite). *)
Inductive Operation :=
| Register (name : string) (p : Plugin) (cfg : PluginConfig)
| InitializeAll
| InitializeOne (name : string)
| Fire
| Advance (ms : Z)
| Restart (name : string)
| Failover (name : string)
| Terminate (name : string).

Definition run (op : Operation) (m : Manager) : Manager :=
  match op with
  | Register name p cfg => snd (registerPlugin name p cfg m)
  | InitializeAll => snd (initializePlugins m)
  | InitializeOne name => snd (initializePlugin name m)
  | Fire => fire m
  | Advance ms => advanceTimersByTime ms m
  | Restart name => snd (restartPlugin name m)
  | Failover name => snd (failoverPlugin name m)
  | Terminate name => snd (terminatePlugin name m)
  end.

Definition run_all (ops : list Operation) (m : Manager) : Manager :=
  fold_left (fun m op => run op m) ops m.

(** [x] is registered after each of the operations [ops], run from [m]. *)
Fixpoint registered_along (x : string) (ops : list Operation) (m : Manager)
    : Prop :=
  match ops with
  | [] => True
  | op :: rest => registered (run op m) x /\ registered_along x rest (run op m)
  end.

Fixpoint registered_along_check (x : string) (ops : list Operation)
    (m : Manager) : bool :=
  match ops with
  | [] => true
  | op :: rest =>
      JsMap.has (plugins (run op m)) x && registered_along_check x rest (run op m)
  end.

(** ** Executable checks on a registry *)

Definition closed_check (m : Manager) : bool :=
  forallb (fun a => forallb (JsMap.has (plugins m)) (deps_of m a))
    (JsMap.keys (plugins m)).

Definition dangling_check (m : Manager) : bool :=
  existsb (fun a => existsb (fun b => negb (JsMap.has (plugins m) b))
                      (deps_of m a))
    (JsMap.keys (plugins m)).

(** Every edge between registered ids goes down in [rank]. *)
Definition ranked_check (rank : string -> nat) (m : Manager) : bool :=
  forallb (fun a =>
             forallb (fun b => negb (JsMap.has (plugins m) b)
                               || Nat.ltb (rank b) (rank a))
               (deps_of m a))
    (JsMap.keys (plugins m)).

Definition edge_check (m : Manager) (a b : string) : bool :=
  JsMap.has (plugins m) a && JsMap.has (plugins m) b
  && JsSet.has (deps_of m a) b.

(** ** Heartbeat warnings *)

Definition heartbeat_warning (name : string) : Event :=
  Logged WARN ("Plugin heartbeat timeout: " ++ name)%string None.

Definition is_heartbeat_warning (name : string) (ev : Event) : bool :=
  match ev with
  | Logged WARN message None =>
      String.eqb message ("Plugin heartbeat timeout: " ++ name)%string
  | _ => false
  end.

(** The number of heartbeat warnings for [name] among [evs]. *)
Definition warnings_for (name : string) (evs : list Event) : nat :=
  length (filter (is_heartbeat_warning name) evs).

(** The warnings a tick at clock value [t] writes for [names]. *)
Definition due_warnings (t : Z) (ps : JsMap.t PluginEntry)
    (names : list string) : list Event :=
  flat_map (fun name =>
              match JsMap.get ps name with
              | Some e =>
                  if t - lastHeartbeat (metrics e) >? 30000
                  then [heartbeat_warning name] else []
              | None => []
              end) names.

(** Every entry has its heartbeat at [h] and at most 10 errors. *)
Definition quiet_since (h : Z) (ps : JsMap.t PluginEntry) : Prop :=
  forall x e, JsMap.get ps x = Some e ->
    lastHeartbeat (metrics e) = h /\ errorCount (metrics e) <= 10.

Definition quiet_since_check (h : Z) (ps : JsMap.t PluginEntry) : bool :=
  forallb (fun xe => (lastHeartbeat (metrics (snd xe)) =? h)
                     && (errorCount (metrics (snd xe)) <=? 10)) ps.

Fixpoint distinct (l : list string) : bool :=
  match l with
  | [] => true
  | x :: rest => negb (existsb (String.eqb x) rest) && distinct rest
  end.

(** ** Sample plugins and registries *)

Definition steady_plugin : Plugin :=
  mkPlugin (fun _ => InitResolves) (Some (fun _ => DestroyResolves)) 0 0.

Definition requiring (deps : list string) : PluginConfig :=
  mkPluginConfig None (Some deps) None None.

Definition register_in (name : string) (p : Plugin) (cfg : PluginConfig)
    (m : Manager) : Manager :=
  snd (registerPlugin name p cfg m).

(** The chain of the test suite: a needs b, b needs c. *)
Definition chain_registry : Manager :=
  register_in "plugin-a" steady_plugin (requiring ["plugin-b"])
    (register_in "plugin-b" steady_plugin (requiring ["plugin-c"])
       (register_in "plugin-c" steady_plugin (requiring []) (construct 0))).

(** x needs the unregistered z and is registered first; a and b need each
    other. *)
Definition dangling_then_cycle_registry : Manager :=
  register_in "b" steady_plugin (requiring ["a"])
    (register_in "a" steady_plugin (requiring ["b"])
       (register_in "x" steady_plugin (requiring ["z"]) (construct 0))).

(** a and b need each other; b also needs the unregistered z. *)
Definition cycle_then_dangling_registry : Manager :=
  register_in "b" steady_plugin (requiring ["a"; "z"])
    (register_in "a" steady_plugin (requiring ["b"]) (construct 0)).

(** a and b need each other, nothing is missing. *)
Definition cycle_registry : Manager :=
  register_in "b" steady_plugin (requiring ["a"])
    (register_in "a" steady_plugin (requiring ["b"]) (construct 0)).

(** a needs the unregistered z, nothing is circular. *)
Definition dangling_registry : Manager :=
  register_in "b" steady_plugin (requiring [])
    (register_in "a" steady_plugin (requiring ["b"; "z"]) (construct 0)).


Definition no_config : PluginConfig := mkPluginConfig None None None None.






(** The plugin of the cleanup test: [destroy] always rejects. *)
Definition stubborn_plugin : Plugin :=
  mkPlugin (fun _ => InitResolves)
           (Some (fun _ => DestroyRejects (PlainError "Cleanup failed"))) 0 0.

Definition stubborn_registry : Manager :=
  snd (initializePlugins
         (register_in "failing-plugin" stubborn_plugin no_config (construct 0))).

Definition stubborn_entry : PluginEntry :=
  mkEntry (called_initialize stubborn_plugin) (normalizeConfig no_config) true
          (mkMetrics 0 0 0).

(** A plugin whose [initialize] always rejects. *)
Definition failing_plugin : Plugin :=
  mkPlugin (fun _ => InitRejects (PlainError "Critical failure"))
           (Some (fun _ => DestroyResolves)) 0 0.

(** The chain a needs b needs c again, with a plugin b that cannot be
    initialized. *)
Definition broken_chain_registry : Manager :=
  register_in "plugin-a" steady_plugin (requiring ["plugin-b"])
    (register_in "plugin-b" failing_plugin (requiring ["plugin-c"])
       (register_in "plugin-c" steady_plugin (requiring []) (construct 0))).

(** A plugin registered 9500 ms after the manager was constructed. *)
Definition late_registry : Manager :=
  register_in "test-plugin" steady_plugin no_config
    (advanceTimersByTime 9500 (construct 0)).

(** The registry of the health test: a plugin registered right after the
    manager was constructed, and initialized. *)
Definition health_test_registry : Manager :=
  snd (initializePlugins
         (register_in "test-plugin" steady_plugin no_config (construct 0))).

(** A plugin that cannot be initialized, allowed twelve attempts: after
    [initializePlugins] its error count stands at 12. *)
Definition worn_config : PluginConfig :=
  mkPluginConfig None None None
    (Some (mkPartialErrorHandling (Some 12) None None)).

Definition worn_registry : Manager :=
  snd (initializePlugins
         (register_in "p" failing_plugin worn_config (construct 0))).

Definition worn_entry : PluginEntry :=
  entry_after 12 12 false
    (mkEntry failing_plugin (normalizeConfig worn_config) false
             (mkMetrics 0 0 0)).

(** * Further vocabulary *)

(** ** Well-formed managers *)

(** What holds of the two maps, of the metrics and of the timer in every
    state the manager can be in. *)
Record well_formed (m : Manager) : Prop := mk_well_formed {
  wf_plugin_ids : NoDup (JsMap.keys (plugins m));
  wf_dependency_ids : NoDup (JsMap.keys (dependencies m));
  wf_owner : forall x, In x (JsMap.keys (dependencies m)) -> registered m x;
  wf_sets : forall x s, JsMap.get (dependencies m) x = Some s ->
      s <> [] /\ NoDup s /\ ~ In "" s;
  wf_declared : forall x e, JsMap.get (plugins m) x = Some e ->
      deps_of m x = JsSet.from_list (dependencies_of_config (config e));
  wf_metrics : forall x e, JsMap.get (plugins m) x = Some e ->
      warningCount (metrics e) = 0 /\ 0 <= errorCount (metrics e) /\
      lastHeartbeat (metrics e) <= now m;
  wf_timer : now m < nextTick m <= now m + monitor_period
}.

(** [m'] has the clock and the timer of [m], and is well formed if [m] is. *)
Definition keeps (m m' : Manager) : Prop :=
  now m' = now m /\ nextTick m' = nextTick m /\
  (well_formed m -> well_formed m').

(** The states of a manager: it is constructed, plugins are registered, all
    plugins are initialized, time passes; the test suite also calls the two
    recovery actions on registered plugins directly. *)
Inductive reachable : Manager -> Prop :=
| reach_construct (t : Z) : reachable (construct t)
| reach_register (name : string) (p : Plugin) (cfg : PluginConfig)
    (m : Manager) :
    reachable m -> reachable (snd (registerPlugin name p cfg m))
| reach_initialize (m : Manager) :
    reachable m -> reachable (snd (initializePlugins m))
| reach_advance (ms : Z) (m : Manager) :
    0 <= ms -> reachable m -> reachable (advanceTimersByTime ms m)
| reach_restart (name : string) (m : Manager) :
    reachable m -> registered m name ->
    reachable (snd (restartPlugin name m))
| reach_terminate (name : string) (m : Manager) :
    reachable m -> registered m name ->
    reachable (snd (terminatePlugin name m)).

(** ** Initialization traces *)

(** [segs] lists, plugin by plugin, events that only the initialization of
    that plugin produces. *)
Definition init_segments (names : list string) (segs : list (list Event))
    : Prop :=
  Forall2 (fun name seg => Forall (init_event name) seg) names segs.

(** ** The monitor during an initialization *)

(** No recovery action is due: every error count is at most 10. *)
Definition calm (m : Manager) : Prop :=
  forall x e, JsMap.get (plugins m) x = Some e ->
    errorCount (metrics e) <= 10.

(** No error count can exceed 10 while the plugins are initialized: a
    plugin has at most [retryAttempts] failed attempts ahead of it. *)
Definition within_budget (m : Manager) : Prop :=
  forall x e, JsMap.get (plugins m) x = Some e ->
    errorCount (metrics e)
    + Z.max 0 (retryAttempts (errorHandling (config e))) <= 10.

Definition within_budget_check (m : Manager) : bool :=
  forallb (fun kv =>
             errorCount (metrics (snd kv))
             + Z.max 0 (retryAttempts (errorHandling (config (snd kv))))
             <=? 10)
          (plugins m).

(** The events that only tell that time has passed: the wait marker of a
    run followed by itself, and a warning of the monitor. *)
Definition is_passage (ev : Event) : bool :=
  match ev with
  | Waited _ => true
  | Logged WARN _ _ => true
  | _ => false
  end.

Definition without_passage (evs : list Event) : list Event :=
  filter (fun ev => negb (is_passage ev)) evs.

(** [mt], a state of a run with the clock running, matches [mu], a state
    of the same run followed by itself: the same maps, and the same events
    apart from those of the passage of time. *)
Definition agree (mu mt : Manager) : Prop :=
  plugins mt = plugins mu /\ dependencies mt = dependencies mu /\
  without_passage (events mt) = without_passage (events mu).

(** ** Further sample registries *)

(** b needs a; a is set to be terminated by the monitor. *)
Definition terminate_config : PluginConfig :=
  mkPluginConfig None None None
    (Some (mkPartialErrorHandling None None (Some terminate))).

Definition dependent_registry : Manager :=
  register_in "b" steady_plugin (requiring ["a"])
    (register_in "a" steady_plugin terminate_config (construct 0)).

Definition dependent_entry_a : PluginEntry :=
  mkEntry steady_plugin (normalizeConfig terminate_config) false
          (mkMetrics 0 0 0).

(** A plugin registered at construction and left alone for 45 seconds. *)
Definition stale_registry : Manager :=
  advanceTimersByTime 45000
    (register_in "test-plugin" steady_plugin no_config (construct 0)).

Definition stale_entry : PluginEntry :=
  mkEntry steady_plugin (normalizeConfig no_config) false (mkMetrics 0 0 0).

(** A plugin that cannot be initialized, allowed twelve attempts and set
    to be terminated: after [initializePlugins] its error count stands at
    12. *)
Definition doomed_config : PluginConfig :=
  mkPluginConfig None None None
    (Some (mkPartialErrorHandling (Some 12) None (Some terminate))).

Definition doomed_registry : Manager :=
  snd (initializePlugins
         (register_in "p" failing_plugin doomed_config (construct 0))).

Definition doomed_entry : PluginEntry :=
  entry_after 12 12 false
    (mkEntry failing_plugin (normalizeConfig doomed_config) false
             (mkMetrics 0 0 0)).

(** The broken chain with the clock running. *)
Definition broken_chain_clocked_c : Manager :=
  snd (initializeInOrder_timed ["plugin-c"] broken_chain_registry).

Definition broken_chain_clocked_b : Manager :=
  snd (initializePlugin_timed "plugin-b" broken_chain_clocked_c).

(** A plugin that may try once, is to be terminated when it wears out, and
    answers its twelfth call of [initialize]. *)
Definition late_plugin : Plugin :=
  mkPlugin (fun k => if Nat.ltb k 11
                     then InitRejects (PlainError "Not ready")
                     else InitResolves)
           (Some (fun _ => DestroyResolves)) 0 0.

Definition late_config : PluginConfig :=
  mkPluginConfig None None None
    (Some (mkPartialErrorHandling (Some 1) None (Some terminate))).

(** plugin-b, which never comes up, needs plugin-c, which is [late_plugin];
    eight seconds after construction [initializePlugins] has been called
    eleven times, each call failing at once on plugin-c. *)
Definition worn_chain_registry : Manager :=
  Nat.iter 11 (fun m => snd (initializePlugins_timed m))
    (advanceTimersByTime 8000
       (register_in "plugin-b" failing_plugin (requiring ["plugin-c"])
          (register_in "plugin-c" late_plugin late_config (construct 0)))).

(** A plugin that answers its first eleven calls of [initialize] and none
    after. *)
Definition fading_plugin : Plugin :=
  mkPlugin (fun k => if Nat.ltb k 11
                     then InitResolves
                     else InitRejects (PlainError "Critical failure"))
           (Some (fun _ => DestroyResolves)) 0 0.

(** One attempt, and the default strategy, which is to restart. *)
Definition after_b_config : PluginConfig :=
  mkPluginConfig None (Some ["plugin-b"]) None
    (Some (mkPartialErrorHandling (Some 1) None None)).

(** plugin-d, which never comes up, needs plugin-b, which is
    [fading_plugin]; eight seconds after construction [initializePlugins]
    has been called eleven times, each call initializing plugin-b and
    failing at once on plugin-d. *)
Definition worn_tail_registry : Manager :=
  Nat.iter 11 (fun m => snd (initializePlugins_timed m))
    (advanceTimersByTime 8000
       (register_in "plugin-d" failing_plugin after_b_config
          (register_in "plugin-b" fading_plugin no_config (construct 0)))).

(** The first half of the circular-dependency test: plugin-a is registered
    with a dependency on plugin-b, which is not there yet. *)
Definition half_cycle_registry : Manager :=
  register_in "plugin-a" steady_plugin (requiring ["plugin-b"]) (construct 0).

(** ** Registration order *)

(** Executable form of [sorted]: [done] holds what stands to the left. *)
Fixpoint sorted_from (m : Manager) (done rest : list string) : bool :=
  match rest with
  | [] => true
  | x :: tl =>
      forallb (JsSet.has done) (deps_of m x) && sorted_from m (done ++ [x]) tl
  end.

Definition sorted_check (m : Manager) (order : list string) : bool :=
  sorted_from m [] order.

(** * The error classes (module [errors]) *)

Module Errors.

(** Values as they occur in error contexts and in log entries.
    [VFunction name] is the method [Object.prototype] holds under
    [name]. *)
Inductive Value :=
| VUndefined
| VNull
| VBool (b : bool)
| VNumber (n : Z)
| VString (s : string)
| VObject (fields : list (string * Value))
| VFunction (name : string).

(** [Record<string, any>]: the own properties in creation order, which is
    the order the language lists them in as long as no key is an array
    index; the keys of the objects here are names. *)
Definition Obj := JsMap.t Value.

(** The spread [...source] inside an object literal that has produced
    [target] so far: every property of [source] is defined in turn, an
    existing key keeping its place. *)
Definition spread (target source : Obj) : Obj :=
  fold_left (fun o kv => JsMap.set o (fst kv) (snd kv)) source target.

(** Spreading [undefined] defines nothing. *)
Definition spread_optional (target : Obj) (source : option Obj) : Obj :=
  match source with
  | Some s => spread target s
  | None => target
  end.

Definition optional_string (o : option string) : Value :=
  match o with Some s => VString s | None => VUndefined end.

Definition optional_number (o : option Z) : Value :=
  match o with Some n => VNumber n | None => VUndefined end.

Definition optional_object (o : option Obj) : Value :=
  match o with Some fields => VObject fields | None => VUndefined end.

Record StackAnalysis := mkStackAnalysis {
  fileName : string;
  lineNumber : Z;
  functionName : string;
  isAsync : bool
}.

Definition optional_analysis (o : option StackAnalysis) : Value :=
  match o with
  | Some a =>
      VObject [("functionName", VString (functionName a));
               ("fileName", VString (fileName a));
               ("lineNumber", VNumber (lineNumber a));
               ("isAsync", VBool (isAsync a))]
  | None => VUndefined
  end.

(** Error objects: a plain [Error] (or a subclass foreign to this module),
    and the instances of [ElizaError] and of its subclasses, which differ in
    [name] only.  Causes are set at construction, so a chain of causes is
    finite. *)
Inductive JsError :=
| Plain (name message : string) (stack : option string)
        (cause : option JsError)
| Eliza (this : ElizaError)
with ElizaError :=
| mkElizaError (name message code : string) (cause : option JsError)
               (context : option Obj) (timestamp : Z)
               (stackAnalysis : option StackAnalysis) (stack : option string).

Definition name (this : ElizaError) : string :=
  match this with mkElizaError n _ _ _ _ _ _ _ => n end.

Definition message (this : ElizaError) : string :=
  match this with mkElizaError _ m _ _ _ _ _ _ => m end.

Definition code (this : ElizaError) : string :=
  match this with mkElizaError _ _ c _ _ _ _ _ => c end.

Definition cause (this : ElizaError) : option JsError :=
  match this with mkElizaError _ _ _ c _ _ _ _ => c end.

Definition context (this : ElizaError) : option Obj :=
  match this with mkElizaError _ _ _ _ c _ _ _ => c end.

Definition timestamp (this : ElizaError) : Z :=
  match this with mkElizaError _ _ _ _ _ t _ _ => t end.

(** [error.message] and [error.cause] read off any error object. *)
Definition message_of (error : JsError) : string :=
  match error with
  | Plain _ m _ _ => m
  | Eliza e => message e
  end.

Definition cause_of (error : JsError) : option JsError :=
  match error with
  | Plain _ _ _ c => c
  | Eliza e => cause e
  end.

Definition stack_of (error : JsError) : option string :=
  match error with
  | Plain _ _ s _ => s
  | Eliza (mkElizaError _ _ _ _ _ _ _ s) => s
  end.

(** What the runtime supplies when an error object is created: the clock,
    the captured stack, and what [analyzeStackTrace] makes of it ([None]
    also where [Error.captureStackTrace] does not exist). *)
Record Runtime := mkRuntime {
  date_now : Z;
  captured_stack : option string;
  analysis : option StackAnalysis
}.

Record ErrorOptions := mkErrorOptions {
  opt_code : option string;
  opt_cause : option JsError;
  opt_context : option Obj
}.

(** [options?.field] *)
Definition optional {A B} (o : option A) (f : A -> option B) : option B :=
  match o with
  | Some a => f a
  | None => None
  end.

(** [new ElizaError(message, options)] *)
Definition new_ElizaError (rt : Runtime) (message : string)
    (options : option ErrorOptions) : ElizaError :=
  mkElizaError "ElizaError" message
    (or_default (optional options opt_code) "UNKNOWN_ERROR")
    (optional options opt_cause)
    (optional options opt_context)
    (date_now rt) (analysis rt) (captured_stack rt).

(** [this.name = ...] in a subclass constructor *)
Definition with_name (n : string) (this : ElizaError) : ElizaError :=
  match this with
  | mkElizaError _ m c ca ctx t sa st => mkElizaError n m c ca ctx t sa st
  end.

Record BlockchainOptions := mkBlockchainOptions {
  b_code : option string;
  b_cause : option JsError;
  b_context : option Obj;
  b_txHash : option string;
  b_blockHeight : option Z
}.

(** [new BlockchainError(message, options)] *)
Definition new_BlockchainError (rt : Runtime) (message : string)
    (options : option BlockchainOptions) : ElizaError :=
  with_name "BlockchainError"
    (new_ElizaError rt message
       (Some (mkErrorOptions
                (Some (or_default (optional options b_code) "BLOCKCHAIN_ERROR"))
                (optional options b_cause)
                (Some (JsMap.set
                         (JsMap.set
                            (spread_optional [] (optional options b_context))
                            "txHash"
                            (optional_string (optional options b_txHash)))
                         "blockHeight"
                         (optional_number (optional options b_blockHeight))))))).



(** The [while (currentError)] loop of [getErrorChain], entered with a
    defined [currentError]. *)
Fixpoint chain_from (currentError : JsError) : list JsError :=
  currentError ::
  match currentError with
  | Plain _ _ _ (Some next) => chain_from next
  | Eliza (mkElizaError _ _ _ (Some next) _ _ _ _) => chain_from next
  | _ => []
  end.

Definition getErrorChain (this : ElizaError) : list JsError :=
  Eliza this ::
  match cause this with
  | Some currentError => chain_from currentError
  | None => []
  end.

(** [ElizaError.toJSON] and the module function [formatError], which call
    each other along the chain of causes. *)
Fixpoint toJSON (this : ElizaError) : Obj :=
  match this with
  | mkElizaError name message code cause context timestamp stackAnalysis _ =>
      [("name", VString name);
       ("message", VString message);
       ("code", VString code);
       ("context", optional_object context);
       ("timestamp", VNumber timestamp);
       ("stackAnalysis", optional_analysis stackAnalysis);
       ("cause", match cause with
                 | Some error => VObject (formatError error)
                 | None => VUndefined
                 end)]
  end
with formatError (error : JsError) : Obj :=
  match error with
  | Eliza e => toJSON e
  | Plain name message stack _ =>
      [("name", VString name);
       ("message", VString message);
       ("stack", optional_string stack)]
  end.

(** What a [catch] clause can receive. *)
Inductive Caught :=
| CaughtError (error : JsError)
| CaughtValue (v : Value).

(** How an awaited promise settles. *)
Inductive Settled (T : Type) :=
| Fulfilled (v : T)
| Rejected (reason : Caught).
Arguments Fulfilled {T}.
Arguments Rejected {T}.

(** [ErrorUtils.withErrorHandling(operation, errorContext)] *)
Definition withErrorHandling {T} (rt : Runtime)
    (operation : unit -> Settled T) (errorContext : option Obj) : Settled T :=
  match operation tt with
  | Fulfilled v => Fulfilled v
  | Rejected error =>
      match error with
      | CaughtError (Eliza _) => Rejected error
      | CaughtError (Plain _ m _ _ as e) =>
          Rejected (CaughtError (Eliza
            (new_ElizaError rt m
               (Some (mkErrorOptions None (Some e) errorContext)))))
      | CaughtValue _ =>
          Rejected (CaughtError (Eliza
            (new_ElizaError rt "Unknown error occurred"
               (Some (mkErrorOptions None None errorContext)))))
      end
  end.

(** [ErrorUtils.enrichError(error, additionalContext)] *)
Definition enrichError (rt : Runtime) (error : JsError)
    (additionalContext : Obj) : ElizaError :=
  match error with
  | Eliza e =>
      new_ElizaError rt (message e)
        (Some (mkErrorOptions (Some (code e)) (cause e)
                 (Some (spread (spread_optional [] (context e))
                               additionalContext))))
  | Plain _ m _ _ =>
      new_ElizaError rt m
        (Some (mkErrorOptions None (Some error) (Some additionalContext)))
  end.

(** Consecutive members of the list are linked by [cause]. *)
Fixpoint linked (l : list JsError) : Prop :=
  match l with
  | a :: ((b :: _) as tl) => cause_of a = Some b /\ linked tl
  | _ => True
  end.

(** Sample errors. *)
Definition sample_runtime : Runtime := mkRuntime 1700000000000 None None.

Definition timeout_error : JsError :=
  Plain "Error" "Initialization timeout" None None.

Definition rpc_error : ElizaError :=
  new_BlockchainError sample_runtime "RPC failed"
    (Some (mkBlockchainOptions None (Some timeout_error)
             (Some [("endpoint", VString "mainnet"); ("txHash", VString "stale")])
             (Some "5xK") None)).

End Errors.

(** * The logger (module [logging]) *)

Module Logging.

Record LogEntry := mkLogEntry {
  timestamp : Z;
  level : LogLevel;
  message : string;
  context : option Errors.Obj;
  error : option Errors.JsError;
  tags : option (list string);
  metadata : option Errors.Obj
}.

(** [LoggerConfig]: every field is optional. *)
Record LoggerConfig := mkLoggerConfig {
  cfg_minLevel : option LogLevel;
  cfg_enableConsole : option bool;
  cfg_enableFile : option bool;
  cfg_filePath : option string;
  cfg_formatters : option (JsMap.t (Errors.Value -> string));
  cfg_filters : option (JsMap.t (LogEntry -> bool))
}.

(** [Required<LoggerConfig>] *)
Record Config := mkConfig {
  minLevel : LogLevel;
  enableConsole : bool;
  enableFile : bool;
  filePath : string;
  formatters : JsMap.t (Errors.Value -> string);
  filters : JsMap.t (LogEntry -> bool)
}.

Inductive LogTransport :=
| ConsoleTransport
| FileTransport (filePath : string).

Record Logger := mkLogger {
  config : Config;
  transports : list LogTransport
}.

(** The defaults of the constructor with the fields of [config] spread over
    them.  A [LoggerConfig] here is an object in which a key is either
    absent or holds a value of its type; an object that carries a key with
    the value [undefined], which the spread would store over the default,
    is not a value of this type. *)
Definition merge_config (cfg : option LoggerConfig) : Config :=
  mkConfig
    (or_default (Errors.optional cfg cfg_minLevel) INFO)
    (or_default (Errors.optional cfg cfg_enableConsole) true)
    (or_default (Errors.optional cfg cfg_enableFile) false)
    (or_default (Errors.optional cfg cfg_filePath) "./logs/eliza.log")
    (or_default (Errors.optional cfg cfg_formatters) [])
    (or_default (Errors.optional cfg cfg_filters) []).

Definition initializeTransports (c : Config) : list LogTransport :=
  (if enableConsole c then [ConsoleTransport] else [])
  ++ (if enableFile c then [FileTransport (filePath c)] else []).

(** [new Logger(config)] *)
Definition new_Logger (cfg : option LoggerConfig) : Logger :=
  let c := merge_config cfg in
  mkLogger c (initializeTransports c).

(** One call of [console.log].  [Header style timestamp level message] is
    the line made of the style code, the ISO rendering of the timestamp in
    brackets, the padded level name, the reset code and the message. *)
Inductive ConsoleLine :=
| Header (style : string) (timestamp : Z) (level : string) (message : string)
| ContextLine (context : Errors.Obj)
| ErrorLine (error : Errors.JsError)
| StackLine (stack : string).

(** [LogLevel[entry.level]] *)
Definition level_name (l : LogLevel) : string :=
  match l with
  | DEBUG => "DEBUG"
  | INFO => "INFO"
  | WARN => "WARN"
  | ERROR => "ERROR"
  end.

Fixpoint spaces (n : nat) : string :=
  match n with
  | O => ""
  | S n' => (" " ++ spaces n')%string
  end.

Definition padEnd (s : string) (n : nat) : string :=
  (s ++ spaces (n - String.length s))%string.

Definition escape : string := String (Ascii.ascii_of_nat 27) "".

Definition LEVEL_STYLES (l : LogLevel) : string :=
  match l with
  | DEBUG => escape ++ "[36m"
  | INFO => escape ++ "[32m"
  | WARN => escape ++ "[33m"
  | ERROR => escape ++ "[31m"
  end%string.

(** [ConsoleTransport.write] and [FileTransport.write]; the latter has an
    empty body. *)
Definition write (transport : LogTransport) (entry : LogEntry)
    : list ConsoleLine :=
  match transport with
  | ConsoleTransport =>
      [Header (LEVEL_STYLES (level entry)) (timestamp entry)
              (padEnd (level_name (level entry)) 5) (message entry)]
      ++ match context entry with
         | Some c => [ContextLine c]
         | None => []
         end
      ++ match error entry with
         | Some e =>
             ErrorLine e ::
             match Errors.stack_of e with
             | Some s => if String.eqb s "" then [] else [StackLine s]
             | None => []
             end
         | None => []
         end
  | FileTransport _ => []
  end.

Definition shouldFilter (this : Logger) (entry : LogEntry) : bool :=
  existsb (fun filter => negb (snd filter entry)) (filters (config this)).

(** Truthiness of a value. *)
Definition truthy (v : Errors.Value) : bool :=
  match v with
  | Errors.VUndefined => false
  | Errors.VNull => false
  | Errors.VBool b => b
  | Errors.VNumber n => negb (n =? 0)
  | Errors.VString s => negb (String.eqb s "")
  | Errors.VObject _ => true
  | Errors.VFunction _ => true
  end.

(** The names of the methods of [Object.prototype], which every ordinary
    object inherits. *)
Definition Object_prototype_methods : list string :=
  ["constructor"; "__defineGetter__"; "__defineSetter__"; "hasOwnProperty";
   "__lookupGetter__"; "__lookupSetter__"; "isPrototypeOf";
   "propertyIsEnumerable"; "toString"; "valueOf"; "toLocaleString"].

Definition inherits (key : string) : bool :=
  existsb (String.eqb key) Object_prototype_methods.

(** The body of the loop over the formatters: the value under [key] is
    replaced, in the context object itself, when it is truthy.
    [formatted.context?.[key]] is a property read, and a context is an
    ordinary object: under a key it does not own it finds what
    [Object.prototype] holds.  Under the name of a method that is the
    method, which is truthy, so the formatter is called with it and the
    assignment creates an own property, the last one.  Under [__proto__]
    the read finds the prototype, and the assignment of the formatter's
    string to it is ignored. *)
Definition apply_formatter (ctx : option Errors.Obj)
    (entry : string * (Errors.Value -> string)) : option Errors.Obj :=
  match ctx with
  | Some o =>
      match JsMap.get o (fst entry) with
      | Some v =>
          if truthy v
          then Some (JsMap.set o (fst entry) (Errors.VString (snd entry v)))
          else ctx
      | None =>
          if inherits (fst entry)
          then Some (JsMap.set o (fst entry)
                       (Errors.VString
                          (snd entry (Errors.VFunction (fst entry)))))
          else ctx
      end
  | None => None
  end.

Definition with_context (c : option Errors.Obj) (e : LogEntry) : LogEntry :=
  mkLogEntry (timestamp e) (level e) (message e) c (error e) (tags e)
             (metadata e).

(** [formatEntry].  The copy [formatted] is shallow: unless the error is an
    [ElizaError], for which a new context object is built, the formatters
    write to the context object of [entry], which is the one the caller of
    the logger passed in.  The result is the formatted entry together with
    that caller's object as the call leaves it. *)
Definition formatEntry (this : Logger) (entry : LogEntry)
    : LogEntry * option Errors.Obj :=
  match error entry with
  | Some (Errors.Eliza e) =>
      let merged :=
        Some (Errors.spread (Errors.spread_optional [] (context entry))
                            (Errors.toJSON e)) in
      (with_context
         (fold_left apply_formatter (formatters (config this)) merged) entry,
       context entry)
  | _ =>
      let written :=
        fold_left apply_formatter (formatters (config this)) (context entry) in
      (with_context written entry, written)
  end.

Record LogOptions := mkLogOptions {
  o_error : option Errors.JsError;
  o_context : option Errors.Obj;
  o_tags : option (list string);
  o_metadata : option Errors.Obj
}.

(** [Logger.log] at clock value [now]: the lines written to the console,
    and the caller's context object after the call. *)
Definition log (this : Logger) (now : Z) (level : LogLevel) (message : string)
    (options : LogOptions) : list ConsoleLine * option Errors.Obj :=
  if level_value level <? level_value (minLevel (config this))
  then ([], o_context options)
  else
    let entry :=
      mkLogEntry now level message (o_context options) (o_error options)
                 (o_tags options) (o_metadata options) in
    if shouldFilter this entry then ([], o_context options)
    else
      let (formattedEntry, caller_context) := formatEntry this entry in
      (flat_map (fun transport => write transport formattedEntry)
                (transports this),
       caller_context).

Definition debug (this : Logger) (now : Z) (message : string)
    (context : option Errors.Obj) :=
  log this now DEBUG message (mkLogOptions None context None None).

Definition info (this : Logger) (now : Z) (message : string)
    (context : option Errors.Obj) :=
  log this now INFO message (mkLogOptions None context None None).

Definition warn (this : Logger) (now : Z) (message : string)
    (context : option Errors.Obj) :=
  log this now WARN message (mkLogOptions None context None None).

Definition error_ (this : Logger) (now : Z) (message : string)
    (error : option Errors.JsError) (context : option Errors.Obj) :=
  log this now ERROR message (mkLogOptions error context None None).

Definition is_header (line : ConsoleLine) : bool :=
  match line with
  | Header _ _ _ _ => true
  | _ => false
  end.

(** [context?.[key]] *)
Definition lookup (ctx : option Errors.Obj) (key : string)
    : option Errors.Value :=
  match ctx with
  | Some o => JsMap.get o key
  | None => None
  end.

(** What the context holds under [key] before the formatters run: for an
    [ElizaError] the fields of its JSON form come first. *)
Definition base_lookup (entry : LogEntry) (key : string)
    : option Errors.Value :=
  match error entry with
  | Some (Errors.Eliza e) =>
      match JsMap.get (Errors.toJSON e) key with
      | Some v => Some v
      | None => lookup (context entry) key
      end
  | _ => lookup (context entry) key
  end.

(** What a value becomes under the formatters [fmts]. *)
Definition formatted_value (fmts : JsMap.t (Errors.Value -> string))
    (key : string) (v : Errors.Value) : Errors.Value :=
  match JsMap.get fmts key with
  | Some formatter => if truthy v then Errors.VString (formatter v) else v
  | None => v
  end.

(** The entry built by [log]. *)
Definition entry_of (now : Z) (level : LogLevel) (message : string)
    (options : LogOptions) : LogEntry :=
  mkLogEntry now level message (o_context options) (o_error options)
             (o_tags options) (o_metadata options).

Definition is_eliza (error : option Errors.JsError) : bool :=
  match error with
  | Some (Errors.Eliza _) => true
  | _ => false
  end.

Definition is_some {A} (o : option A) : bool :=
  match o with Some _ => true | None => false end.

(** [formatEntry] has a context object to work on. *)
Definition has_context (entry : LogEntry) : bool :=
  is_eliza (error entry) || is_some (context entry).

(** What the formatters [fmts] put under a [key] the context does not
    own. *)
Definition inherited_value (fmts : JsMap.t (Errors.Value -> string))
    (key : string) : option Errors.Value :=
  match JsMap.get fmts key with
  | Some formatter =>
      if inherits key
      then Some (Errors.VString (formatter (Errors.VFunction key)))
      else None
  | None => None
  end.

(** What the formatted context holds under [key], given what the context
    held there before. *)
Definition formatted_lookup (fmts : JsMap.t (Errors.Value -> string))
    (key : string) (exists_context : bool) (before : option Errors.Value)
    : option Errors.Value :=
  match before with
  | Some v => Some (formatted_value fmts key v)
  | None => if exists_context then inherited_value fmts key else None
  end.

(** A logger that puts the value logged under the key secret in brackets. *)
Definition bracket (v : Errors.Value) : string :=
  match v with
  | Errors.VString s => ("[" ++ s ++ "]")%string
  | _ => "[]"
  end.

Definition bracketing_config : LoggerConfig :=
  mkLoggerConfig None None None None (Some [("secret", bracket)]) None.

(** A logger that masks the value logged under the key secret. *)
Definition masking_config : LoggerConfig :=
  mkLoggerConfig (Some DEBUG) None None None
    (Some [("secret", fun _ => "***")])
    (Some [("no-noise", fun e => negb (String.eqb (message e) "noise"))]).

Definition request_context : Errors.Obj :=
  [("user", Errors.VString "alice"); ("secret", Errors.VString "hunter2")].

End Logging.

(** * Plugin implementations ([BasePlugin], [SolanaPlugin]) *)

Module Plugins.

(** What a plugin does to its surroundings: calls on the event system and
    the capability registry of its context, and on the Solana connection. *)
Inductive Call :=
| EventsOn (event handler : string)
| RegisterCapability (name method : string)
| GetVersion
| GetBalance (address : string)
| OnAccountChange (address : string)
| RemoveAccountChangeListener (id : Z).

Inductive Outcome (A : Type) :=
| Resolves (a : A)
| Rejects (reason : string).
Arguments Resolves {A}.
Arguments Rejects {A}.

(** The connection is an external object.  Its behaviour is given call by
    call: the [k]-th call of [getVersion] rejects with the reason
    [getVersion_behaviour k] or resolves, the [k]-th call of
    [onAccountChange] returns the subscription id
    [onAccountChange_behaviour k], and so on; [publicKey_error address] is
    what [new PublicKey(address)] throws, if it throws. *)
Record Connection := mkConnection {
  getVersion_behaviour : nat -> option string;
  getBalance_behaviour : nat -> Outcome Z;
  onAccountChange_behaviour : nat -> Z;
  removeListener_behaviour : nat -> option string;
  publicKey_error : string -> option string
}.

(** A [SolanaPlugin] instance, with the fields it inherits from
    [BasePlugin], and the calls it has made so far. *)
Record SolanaPlugin := mkSolanaPlugin {
  connection : Connection;
  has_context : bool;
  isInitialized : bool;
  subscriptions : JsMap.t Z;
  calls : list Call
}.

(** [new SolanaPlugin(config)] *)
Definition new_SolanaPlugin (c : Connection) : SolanaPlugin :=
  mkSolanaPlugin c false false [] [].

Definition call (c : Call) (this : SolanaPlugin) : SolanaPlugin :=
  mkSolanaPlugin (connection this) (has_context this) (isInitialized this)
                 (subscriptions this) (calls this ++ [c]).

Definition set_context (this : SolanaPlugin) : SolanaPlugin :=
  mkSolanaPlugin (connection this) true (isInitialized this)
                 (subscriptions this) (calls this).

Definition set_isInitialized (b : bool) (this : SolanaPlugin) : SolanaPlugin :=
  mkSolanaPlugin (connection this) (has_context this) b
                 (subscriptions this) (calls this).

Definition set_subscriptions (s : JsMap.t Z) (this : SolanaPlugin)
    : SolanaPlugin :=
  mkSolanaPlugin (connection this) (has_context this) (isInitialized this)
                 s (calls this).

Definition is_getVersion (c : Call) : bool :=
  match c with GetVersion => true | _ => false end.

Definition is_getBalance (c : Call) : bool :=
  match c with GetBalance _ => true | _ => false end.

Definition is_onAccountChange (c : Call) : bool :=
  match c with OnAccountChange _ => true | _ => false end.

Definition is_removeListener (c : Call) : bool :=
  match c with RemoveAccountChangeListener _ => true | _ => false end.

Definition is_eventsOn (c : Call) : bool :=
  match c with EventsOn _ _ => true | _ => false end.

Definition is_registerCapability (c : Call) : bool :=
  match c with RegisterCapability _ _ => true | _ => false end.

(** The number of calls of one kind made so far: the index of the next
    such call in the behaviour of the connection. *)
Definition made (kind : Call -> bool) (this : SolanaPlugin) : nat :=
  length (filter kind (calls this)).

(** [BasePlugin.registerEventHandlers] *)
Definition registerEventHandlers (this : SolanaPlugin) : SolanaPlugin :=
  call (EventsOn "error" "handleError")
    (call (EventsOn "afterAction" "handleAfterAction")
       (call (EventsOn "beforeAction" "handleBeforeAction") this)).

(** [BasePlugin.initialize], with the subclass hook as a parameter. *)
Definition initialize
    (onInitialize : SolanaPlugin -> Outcome unit * SolanaPlugin)
    (this : SolanaPlugin) : Outcome unit * SolanaPlugin :=
  let this1 := registerEventHandlers (set_context this) in
  match onInitialize this1 with
  | (Resolves _, this2) => (Resolves tt, set_isInitialized true this2)
  | (Rejects reason, this2) => (Rejects reason, this2)
  end.

(** [BasePlugin.destroy], with the subclass hook as a parameter. *)
Definition destroy
    (onDestroy : SolanaPlugin -> Outcome unit * SolanaPlugin)
    (this : SolanaPlugin) : Outcome unit * SolanaPlugin :=
  match onDestroy this with
  | (Resolves _, this1) => (Resolves tt, set_isInitialized false this1)
  | (Rejects reason, this1) => (Rejects reason, this1)
  end.

(** [SolanaPlugin.onInitialize] *)
Definition onInitialize (this : SolanaPlugin)
    : Outcome unit * SolanaPlugin :=
  let this1 := call GetVersion this in
  match getVersion_behaviour (connection this) (made is_getVersion this) with
  | Some reason => (Rejects reason, this1)
  | None =>
      (Resolves tt,
       call (RegisterCapability "subscribeAccount" "subscribeAccount")
         (call (RegisterCapability "sendTransaction" "sendTransaction")
            (call (RegisterCapability "getBalance" "getBalance") this1)))
  end.

(** [SolanaPlugin.getBalance] *)
Definition getBalance (address : string) (this : SolanaPlugin)
    : Outcome Z * SolanaPlugin :=
  match publicKey_error (connection this) address with
  | Some reason => (Rejects reason, this)
  | None =>
      (getBalance_behaviour (connection this) (made is_getBalance this),
       call (GetBalance address) this)
  end.

(** [SolanaPlugin.sendTransaction] *)
Definition sendTransaction (serializedTx : string) (this : SolanaPlugin)
    : Outcome string * SolanaPlugin :=
  (Resolves "tx_hash", this).

(** [SolanaPlugin.subscribeAccount] *)
Definition subscribeAccount (address : string) (this : SolanaPlugin)
    : Outcome Z * SolanaPlugin :=
  match publicKey_error (connection this) address with
  | Some reason => (Rejects reason, this)
  | None =>
      let subscriptionId :=
        onAccountChange_behaviour (connection this)
          (made is_onAccountChange this) in
      let this1 := call (OnAccountChange address) this in
      (Resolves subscriptionId,
       set_subscriptions
         (JsMap.set (subscriptions this1) address subscriptionId) this1)
  end.

(** The loop [for (const [address, id] of this.subscriptions)] of
    [onDestroy]. *)
Fixpoint remove_listeners (entries : list (string * Z)) (this : SolanaPlugin)
    : Outcome unit * SolanaPlugin :=
  match entries with
  | [] => (Resolves tt, this)
  | (_, id) :: rest =>
      let this1 := call (RemoveAccountChangeListener id) this in
      match removeListener_behaviour (connection this)
              (made is_removeListener this) with
      | Some reason => (Rejects reason, this1)
      | None => remove_listeners rest this1
      end
  end.

(** [SolanaPlugin.onDestroy] *)
Definition onDestroy (this : SolanaPlugin) : Outcome unit * SolanaPlugin :=
  match remove_listeners (subscriptions this) this with
  | (Resolves _, this1) => (Resolves tt, set_subscriptions [] this1)
  | (Rejects reason, this1) => (Rejects reason, this1)
  end.

(** The public operations of a [SolanaPlugin]. *)
Inductive Operation :=
| Initialize
| Destroy
| SubscribeAccount (address : string)
| GetBalanceOf (address : string)
| SendTransaction (serializedTx : string).

Definition run (op : Operation) (this : SolanaPlugin) : SolanaPlugin :=
  match op with
  | Initialize => snd (initialize onInitialize this)
  | Destroy => snd (destroy onDestroy this)
  | SubscribeAccount address => snd (subscribeAccount address this)
  | GetBalanceOf address => snd (getBalance address this)
  | SendTransaction tx => snd (sendTransaction tx this)
  end.

Definition run_all (ops : list Operation) (this : SolanaPlugin)
    : SolanaPlugin :=
  fold_left (fun s op => run op s) ops this.

Definition is_initialize (op : Operation) : bool :=
  match op with Initialize => true | _ => false end.

(** The ids handed to [removeAccountChangeListener] in a list of calls. *)
Definition removed_ids (l : list Call) : list Z :=
  flat_map (fun c => match c with
                     | RemoveAccountChangeListener id => [id]
                     | _ => []
                     end) l.

(** The calls of [events.on] that [registerEventHandlers] makes. *)
Definition handler_registrations : list Call :=
  [EventsOn "beforeAction" "handleBeforeAction";
   EventsOn "afterAction" "handleAfterAction";
   EventsOn "error" "handleError"].

(** The calls of [registerCapability] that [onInitialize] makes. *)
Definition capability_registrations : list Call :=
  [RegisterCapability "getBalance" "getBalance";
   RegisterCapability "sendTransaction" "sendTransaction";
   RegisterCapability "subscribeAccount" "subscribeAccount"].

(** The calls that remove the listeners with the given ids, in order. *)
Definition removals (ids : list Z) : list Call :=
  map RemoveAccountChangeListener ids.

(** The ids stored in a subscription map, in iteration order. *)
Definition stored_ids (s : JsMap.t Z) : list Z := map snd s.

(** The connection of the test utilities: every call succeeds and every
    subscription gets the id 1. *)
Definition mock_connection : Connection :=
  mkConnection (fun _ => None) (fun _ => Resolves 1000000) (fun _ => 1)
               (fun _ => None) (fun _ => None).

(** A connection that numbers its subscriptions and is down for the first
    two calls of [getVersion]. *)
Definition slow_connection : Connection :=
  mkConnection (fun k => if Nat.ltb k 2 then Some "ECONNREFUSED" else None)
               (fun _ => Resolves 0) (fun k => Z.of_nat k + 1)
               (fun _ => None) (fun _ => None).

(** A connection on which the second removal of a listener fails. *)
Definition sticky_connection : Connection :=
  mkConnection (fun _ => None) (fun _ => Resolves 0)
               (fun k => Z.of_nat k + 1)
               (fun k => if Nat.eqb k 1 then Some "socket closed" else None)
               (fun _ => None).

(** Two accounts subscribed on [sticky_connection]. *)
Definition two_subscriptions : SolanaPlugin :=
  run_all [Initialize; SubscribeAccount "alice"; SubscribeAccount "bob"]
    (new_SolanaPlugin sticky_connection).

(** One account subscribed on [slow_connection], which is still down. *)
Definition one_subscription : SolanaPlugin :=
  run_all [SubscribeAccount "alice"] (new_SolanaPlugin slow_connection).

End Plugins.

(** * Properties *)

(** ** Sets and maps *)

Lemma set_has_In (s : JsSet.t) (x : string) : JsSet.has s x = true <-> In x s.
Proof.
  unfold JsSet.has. rewrite existsb_exists. split.
  - intros [y [Hy Heq]]. apply String.eqb_eq in Heq. now subst.
  - intros H. exists x. split; [assumption | apply String.eqb_refl].
Qed.

Lemma set_has_false (s : JsSet.t) (x : string) :
  JsSet.has s x = false <-> ~ In x s.
Proof.
  rewrite <- set_has_In. destruct (JsSet.has s x); split; congruence.
Qed.

Lemma set_add_In (s : JsSet.t) (x y : string) :
  In y (JsSet.add s x) <-> In y s \/ y = x.
Proof.
  unfold JsSet.add. destruct (JsSet.has s x) eqn:E.
  - apply set_has_In in E. split; [tauto | intros [H | ->]; assumption].
  - rewrite in_app_iff. simpl. split.
    + intros [H | [H | []]]; [tauto | right; now symmetry].
    + intros [H | ->]; [tauto | right; now left].
Qed.

Lemma set_add_fresh (s : JsSet.t) (x : string) :
  ~ In x s -> JsSet.add s x = s ++ [x].
Proof.
  intros H. unfold JsSet.add. apply set_has_false in H. now rewrite H.
Qed.

Lemma set_delete_fresh (s : JsSet.t) (x : string) :
  ~ In x s -> JsSet.delete s x = s.
Proof.
  unfold JsSet.delete. induction s as [|y s IH]; simpl; intros H; [reflexivity|].
  destruct (String.eqb_spec x y) as [->|Hne]; simpl.
  - exfalso. apply H. now left.
  - f_equal. apply IH. tauto.
Qed.

Lemma set_delete_last (s : JsSet.t) (x : string) :
  ~ In x s -> JsSet.delete (s ++ [x]) x = s.
Proof.
  intros H. unfold JsSet.delete. rewrite filter_app. simpl.
  rewrite String.eqb_refl. simpl. rewrite app_nil_r.
  now apply set_delete_fresh.
Qed.

Lemma map_get_In {V} (m : JsMap.t V) (k : string) :
  (exists v, JsMap.get m k = Some v) <-> In k (JsMap.keys m).
Proof.
  induction m as [|[k' v'] m IH]; simpl.
  - split; [intros [v H]; discriminate | tauto].
  - destruct (String.eqb_spec k' k) as [->|Hne].
    + split; [now left | intros _; now exists v'].
    + rewrite IH. split; [tauto | intros [H | H]; [contradiction | assumption]].
Qed.

Lemma map_has_In {V} (m : JsMap.t V) (k : string) :
  JsMap.has m k = true <-> In k (JsMap.keys m).
Proof.
  rewrite <- map_get_In. unfold JsMap.has.
  destruct (JsMap.get m k); split; try congruence.
  - intros _. now eexists.
  - intros [v H]. discriminate.
Qed.

Lemma map_get_set_same {V} (m : JsMap.t V) (k : string) (v : V) :
  JsMap.get (JsMap.set m k v) k = Some v.
Proof.
  induction m as [|[k' v'] m IH]; simpl.
  - now rewrite String.eqb_refl.
  - destruct (String.eqb_spec k' k) as [->|Hne]; simpl.
    + now rewrite String.eqb_refl.
    + apply String.eqb_neq in Hne. now rewrite Hne.
Qed.

Lemma map_get_set_other {V} (m : JsMap.t V) (k k0 : string) (v : V) :
  k0 <> k -> JsMap.get (JsMap.set m k v) k0 = JsMap.get m k0.
Proof.
  intros Hk. induction m as [|[k' v'] m IH]; simpl.
  - destruct (String.eqb_spec k k0); [congruence | reflexivity].
  - destruct (String.eqb_spec k' k) as [->|Hne]; simpl.
    + destruct (String.eqb_spec k k0); [congruence | reflexivity].
    + destruct (String.eqb_spec k' k0); [reflexivity | assumption].
Qed.

Lemma map_keys_set_present {V} (m : JsMap.t V) (k : string) (v : V) :
  In k (JsMap.keys m) -> JsMap.keys (JsMap.set m k v) = JsMap.keys m.
Proof.
  induction m as [|[k' v'] m IH]; simpl; intros H; [contradiction|].
  destruct (String.eqb_spec k' k) as [->|Hne]; simpl; [reflexivity|].
  f_equal. apply IH. destruct H; [contradiction | assumption].
Qed.

Lemma map_get_delete_same {V} (m : JsMap.t V) (k : string) :
  JsMap.get (JsMap.delete m k) k = None.
Proof.
  induction m as [|[k' v'] m IH]; simpl; [reflexivity|].
  destruct (String.eqb_spec k' k) as [->|Hne]; simpl; [assumption|].
  apply String.eqb_neq in Hne. now rewrite Hne.
Qed.

Lemma map_get_delete_other {V} (m : JsMap.t V) (k k0 : string) :
  k0 <> k -> JsMap.get (JsMap.delete m k) k0 = JsMap.get m k0.
Proof.
  intros Hk. induction m as [|[k' v'] m IH]; simpl; [reflexivity|].
  destruct (String.eqb_spec k' k) as [->|Hne]; simpl.
  - destruct (String.eqb_spec k k0); [congruence | assumption].
  - destruct (String.eqb_spec k' k0); [reflexivity | assumption].
Qed.

(** ** Chains *)

Lemma chain_app_r R (l1 l2 : list string) : chain R (l1 ++ l2) -> chain R l2.
Proof.
  induction l1 as [|a l1 IH]; simpl; [tauto|].
  destruct (l1 ++ l2) eqn:E; intros H.
  - destruct l1; [simpl in E; subst; exact I | discriminate].
  - apply IH. apply H.
Qed.

Lemma chain_snoc R (l : list string) (a b : string) :
  chain R (l ++ [a]) -> R a b -> chain R ((l ++ [a]) ++ [b]).
Proof.
  induction l as [|c l IH]; simpl; intros H Hab.
  - tauto.
  - destruct (l ++ [a]) eqn:E.
    + destruct l; discriminate.
    + simpl in *. split; [apply H | apply IH; [apply H | assumption]].
Qed.

Lemma chain_clos_trans R (l : list string) (a b : string) :
  chain R (a :: l ++ [b]) -> clos_trans string R a b.
Proof.
  revert a. induction l as [|c l IH]; intros a H.
  - simpl in H. apply t_step. apply H.
  - change (chain R (a :: c :: l ++ [b])) in H. destruct H as [H1 H2].
    eapply t_trans; [apply t_step; eassumption | now apply IH].
Qed.

Ltac split4 := split; [| split; [| split]].

(** ** The walk keeps its invariant *)

Section Walk.

Variable m : Manager.

Lemma sorted_snoc (order : list string) (name : string) :
  sorted m order ->
  (forall d, depends m name d -> In d order) ->
  sorted m (order ++ [name]).
Proof.
  intros Hs Hd l1 x l2 E d Hdep.
  destruct l2 as [|y l2 _] using rev_ind.
  - apply app_inj_tail in E. destruct E as [-> ->]. now apply Hd.
  - change (l1 ++ x :: l2 ++ [y]) with (l1 ++ (x :: l2) ++ [y]) in E.
    rewrite app_assoc in E. apply app_inj_tail in E. destruct E as [E _].
    now apply (Hs l1 x l2).
Qed.

Lemma sorted_before (order : list string) :
  sorted m order ->
  forall a b, clos_trans string (depends m) a b ->
  forall l1 l2, order = l1 ++ a :: l2 -> In b l1.
Proof.
  intros Hs a b H. apply clos_trans_t1n in H.
  induction H as [a b Hab | a c b Hac Hcb IH]; intros l1 l2 E.
  - now apply (Hs l1 a l2).
  - assert (Hc : In c l1) by now apply (Hs l1 a l2).
    apply in_split in Hc. destruct Hc as [p [q ->]].
    rewrite <- app_assoc in E. simpl in E.
    specialize (IH p (q ++ a :: l2) E).
    apply in_or_app. now left.
Qed.

Lemma path_length_bound (w : Walk) :
  walk_ok m w -> (length (path w) <= length (plugins m))%nat.
Proof.
  intros H. rewrite <- (length_map fst (plugins m)).
  apply NoDup_incl_length; [apply H | intros x Hx; now apply (ok_path_reg m w H)].
Qed.

Lemma walk_ok_enter (w : Walk) (name : string) :
  walk_ok m w -> registered m name ->
  ~ In name (path w) -> ~ In name (visited w) ->
  walk_ok m (mkWalk (path w ++ [name]) (visited w) (initOrder w)).
Proof.
  intros H Hreg Hp Hv. destruct H. constructor; simpl; try assumption.
  - apply NoDup_app; [assumption | repeat constructor; simpl; tauto |].
    intros x Hx [<- | []]. contradiction.
  - intros x Hx. apply in_app_or in Hx. destruct Hx as [Hx | [<- | []]]; auto.
  - intros x Hx. apply in_app_or in Hx. destruct Hx as [Hx | [<- | []]]; auto.
Qed.

Lemma walk_ok_leave (p0 : JsSet.t) (w2 : Walk) (name : string) :
  walk_ok m w2 -> path w2 = p0 ++ [name] -> registered m name ->
  (forall d, depends m name d -> In d (visited w2)) ->
  walk_ok m (mkWalk p0 (JsSet.add (visited w2) name) (initOrder w2 ++ [name])).
Proof.
  intros H Hp Hreg Hd.
  assert (Hnv : ~ In name (visited w2)).
  { apply (ok_disjoint m w2 H). rewrite Hp. apply in_or_app. right. now left. }
  assert (Hnd : NoDup (p0 ++ [name])) by (rewrite <- Hp; apply H).
  constructor; simpl.
  - now apply NoDup_app_remove_r in Hnd.
  - intros x Hx. apply (ok_path_reg m w2 H). rewrite Hp.
    apply in_or_app. now left.
  - intros x Hx Hin. apply set_add_In in Hin. destruct Hin as [Hin | ->].
    + apply (ok_disjoint m w2 H x); [|assumption].
      rewrite Hp. apply in_or_app. now left.
    + apply NoDup_remove_2 in Hnd. rewrite app_nil_r in Hnd. contradiction.
  - intros x. rewrite set_add_In, in_app_iff, (ok_visited m w2 H). simpl.
    split; intros [Hx | Hx]; auto.
    destruct Hx as [<- | []]. now right.
  - apply NoDup_app; [apply H | repeat constructor; simpl; tauto |].
    intros x Hx [<- | []]. apply Hnv. now apply (ok_visited m w2 H).
  - intros x Hx. apply in_app_or in Hx.
    destruct Hx as [Hx | [<- | []]]; [now apply (ok_reg m w2 H) | assumption].
  - apply sorted_snoc; [apply H |].
    intros d Hdep. apply (ok_visited m w2 H). now apply Hd.
Qed.

Lemma visit_dependencies_spec (v : string -> Walk -> Completion Walk)
    (name : string) (p0 : JsSet.t) :
  registered m name ->
  (forall dep w, walk_ok m w -> path w = p0 ++ [name] ->
     registered m dep -> depends m name dep ->
     walk_result m w [dep] (v dep w)) ->
  forall deps w,
    (forall d, In d deps -> depends m name d) ->
    walk_ok m w -> path w = p0 ++ [name] ->
    walk_result m w deps
      (visit_dependencies (JsMap.has (plugins m)) v name deps w).
Proof.
  intros Hname Hv. induction deps as [|dep deps IH]; intros w Hdeps Hok Hp.
  - simpl. split4; [assumption | reflexivity | intros d [] | apply incl_refl].
  - simpl. destruct (JsMap.has (plugins m) dep) eqn:E; simpl.
    + apply map_has_In in E.
      assert (Hdep : depends m name dep) by (apply Hdeps; now left).
      specialize (Hv dep w Hok Hp E Hdep).
      destruct (v dep w) as [w' | e |]; simpl in *; [|assumption|assumption].
      destruct Hv as (Hok' & Hp' & Hin' & Hincl').
      assert (Hrest : forall d, In d deps -> depends m name d)
        by (intros d Hd; apply Hdeps; now right).
      specialize (IH w' Hrest Hok' (eq_trans Hp' Hp)).
      destruct (visit_dependencies _ v name deps w') as [w'' | e |];
        simpl in *; [|assumption|assumption].
      destruct IH as (Hok'' & Hp'' & Hin'' & Hincl'').
      split4; [assumption | congruence | | ].
      * intros d [<- | Hd]; [apply Hincl'', Hin'; now left | now apply Hin''].
      * intros x Hx. now apply Hincl'', Hincl'.
    + right. exists name, dep. split; [reflexivity|]. split; [|split].
      * assumption.
      * apply Hdeps. now left.
      * intros Hreg. apply map_has_In in Hreg. congruence.
Qed.

Lemma visit_spec (fuel : nat) :
  forall name w,
    walk_ok m w -> registered m name ->
    chain (dep_edge m) (path w ++ [name]) ->
    (length (plugins m) < fuel + length (path w))%nat ->
    walk_result m w [name] (visit fuel m name w).
Proof.
  induction fuel as [|fuel IH]; intros name w Hok Hreg Hchain Hfuel.
  - simpl. pose proof (path_length_bound w Hok). lia.
  - simpl. destruct (JsSet.has (path w) name) eqn:Ep.
    + simpl. left. apply set_has_In, in_split in Ep.
      destruct Ep as [pre [mid E]]. exists pre, name, mid.
      rewrite E in *. split; [reflexivity|].
      rewrite <- app_assoc in Hchain. simpl in Hchain. exact Hchain.
    + destruct (JsSet.has (visited w) name) eqn:Ev.
      * simpl. split4; [assumption | reflexivity | | apply incl_refl].
        intros d [<- | []]. now apply set_has_In.
      * apply set_has_false in Ep, Ev. rewrite (set_add_fresh _ _ Ep).
        pose proof (walk_ok_enter w name Hok Hreg Ep Ev) as Hok1.
        set (w1 := mkWalk (path w ++ [name]) (visited w) (initOrder w)) in *.
        assert (Hdeps : walk_result m w1 (deps_of m name)
                  match JsMap.get (dependencies m) name with
                  | Some deps =>
                      visit_dependencies (JsMap.has (plugins m))
                        (visit fuel m) name deps w1
                  | None => Returns w1
                  end).
        { unfold deps_of.
          destruct (JsMap.get (dependencies m) name) as [deps|] eqn:Eg.
          - apply visit_dependencies_spec with (p0 := path w);
              [assumption | | | assumption | reflexivity].
            + intros dep w' Hok' Hp' Hreg' Hdep'. apply IH; try assumption.
              * rewrite Hp'. apply chain_snoc; [assumption|].
                repeat split; assumption.
              * rewrite Hp', length_app. simpl. lia.
            + intros d Hd. unfold depends, deps_of. now rewrite Eg.
          - simpl. split4; [assumption | reflexivity | intros d [] | apply incl_refl]. }
        destruct (match JsMap.get (dependencies m) name with
                  | Some deps => _ | None => _ end) as [w2 | e |];
          simpl in *; [|assumption|assumption].
        destruct Hdeps as (Hok2 & Hp2 & Hin2 & Hincl2).
        rewrite Hp2, (set_delete_last _ _ Ep).
        split4; [| reflexivity | |].
        -- apply walk_ok_leave; assumption.
        -- intros d [<- | []]. apply set_add_In. now right.
        -- intros x Hx. apply set_add_In. left. now apply Hincl2.
Qed.

Lemma visit_all_spec (names : list string) :
  forall w,
    (forall n, In n names -> registered m n) ->
    walk_ok m w -> path w = [] ->
    walk_result m w names
      (visit_all (S (length (plugins m))) m names w).
Proof.
  induction names as [|name names IH]; intros w Hreg Hok Hp.
  - simpl. split4; [assumption | reflexivity | intros d [] | apply incl_refl].
  - cbn [visit_all].
    assert (Ew : mkWalk [] (visited w) (initOrder w) = w)
      by (destruct w; simpl in *; now subst).
    rewrite Ew.
    assert (Hv : walk_result m w [name]
              (visit (S (length (plugins m))) m name w)).
    { apply visit_spec; [assumption | apply Hreg; now left | | ].
      - rewrite Hp. exact I.
      - rewrite Hp. simpl. lia. }
    destruct (visit (S (length (plugins m))) m name w) as [w' | e |];
      simpl in Hv; [|assumption|contradiction].
    destruct Hv as (Hok' & Hp' & Hin' & Hincl').
    assert (Hrest : forall n, In n names -> registered m n)
      by (intros n Hn; apply Hreg; now right).
    specialize (IH w' Hrest Hok' (eq_trans Hp' Hp)).
    destruct (visit_all _ m names w') as [w'' | e |]; simpl in *;
      [|assumption|assumption].
    destruct IH as (Hok'' & Hp'' & Hin'' & Hincl'').
    split4; [assumption | congruence | | ].
    + intros d [<- | Hd]; [apply Hincl'', Hin'; now left | now apply Hin''].
    + intros x Hx. now apply Hincl'', Hincl'.
Qed.

Lemma walk_ok_initial : walk_ok m (mkWalk [] [] []).
Proof.
  constructor; simpl; try tauto; try constructor.
  intros l1 x l2 E. destruct l1; discriminate.
Qed.

(** The three ways [resolveInitializationOrder] can end. *)
Lemma resolve_cases :
  match resolveInitializationOrder m with
  | Returns order =>
      NoDup order /\ (forall x, In x order <-> registered m x) /\
      sorted m order
  | Throws e => cycle_report m e \/ missing_report m e
  | OutOfFuel => False
  end.
Proof.
  unfold resolveInitializationOrder.
  pose proof (visit_all_spec (JsMap.keys (plugins m)) (mkWalk [] [] [])
                (fun n H => H) walk_ok_initial eq_refl) as H.
  destruct (visit_all _ m _ _) as [w | e |]; simpl in *;
    [|assumption|assumption].
  destruct H as (Hok & _ & Hin & _).
  split; [|split; [split|]].
  - apply Hok.
  - apply (ok_reg m w Hok).
  - intros Hx. apply (ok_visited m w Hok). now apply Hin.
  - apply Hok.
Qed.

End Walk.

(** ** Dependency resolution: what each outcome means *)

Lemma dep_edge_source (m : Manager) (a b : string) :
  clos_trans string (dep_edge m) a b -> registered m a.
Proof.
  intros H. apply clos_trans_t1n in H. destruct H as [b [H _] | c b [H _] _];
    assumption.
Qed.

Lemma dep_edge_depends (m : Manager) (a b : string) :
  clos_trans string (dep_edge m) a b -> clos_trans string (depends m) a b.
Proof.
  induction 1 as [a b (_ & _ & H) | a c b _ IH1 _ IH2].
  - now apply t_step.
  - eapply t_trans; eassumption.
Qed.

Lemma sorted_order_before (m : Manager) (order : list string) :
  sorted m order -> (forall x, registered m x -> In x order) ->
  forall a b, clos_trans string (dep_edge m) a b -> before b a order.
Proof.
  intros Hs Hall a b H.
  pose proof (Hall a (dep_edge_source m a b H)) as Ha.
  apply in_split in Ha. destruct Ha as [l1 [l2 E]].
  pose proof (sorted_before m order Hs a b (dep_edge_depends m a b H) l1 l2 E)
    as Hb.
  apply in_split in Hb. destruct Hb as [p [q ->]].
  exists p, q, l2. rewrite E, <- app_assoc. reflexivity.
Qed.

(** An order can only be returned for a closed, acyclic registry. *)
Lemma resolve_returns_sound (m : Manager) (order : list string) :
  resolveInitializationOrder m = Returns order -> closed m /\ acyclic m.
Proof.
  intros E. pose proof (resolve_cases m) as H. rewrite E in H.
  destruct H as (Hnd & Hin & Hs). split.
  - intros a b Ha Hab. apply Hin in Ha. apply in_split in Ha.
    destruct Ha as [l1 [l2 El]]. apply Hin. rewrite El.
    apply in_or_app. left. now apply (Hs l1 a l2).
  - intros x Hx.
    destruct (sorted_order_before m order Hs (fun y => proj2 (Hin y)) x x Hx)
      as (l1 & l2 & l3 & El).
    rewrite El in Hnd. apply NoDup_remove_2 in Hnd. apply Hnd.
    apply in_or_app. right. apply in_or_app. right. now left.
Qed.

Lemma cycle_report_cyclic (m : Manager) (e : Thrown) :
  cycle_report m e -> cyclic m.
Proof.
  intros (pre & x & mid & _ & Hc). exists x.
  apply chain_app_r in Hc. now apply chain_clos_trans in Hc.
Qed.

Lemma missing_report_dangling (m : Manager) (e : Thrown) :
  missing_report m e -> dangling m.
Proof.
  intros (n & d & _ & H). now exists n, d.
Qed.

Lemma cyclic_not_acyclic (m : Manager) : cyclic m -> acyclic m -> False.
Proof.
  intros [x Hx] Ha. exact (Ha x Hx).
Qed.

Lemma dangling_not_closed (m : Manager) : dangling m -> closed m -> False.
Proof.
  intros (n & d & Hn & Hd & Hnot) Hc. exact (Hnot (Hc n d Hn Hd)).
Qed.

Lemma long_cycle_cyclic (m : Manager) :
  cycle_of_length_at_least_2 m -> cyclic m.
Proof.
  intros (a & b & _ & Hab & Hba). exists a. eapply t_trans; eassumption.
Qed.

(** C1: on a registry whose declared dependencies are all registered and
    free of cycles, [resolveInitializationOrder] returns an order in which
    every registered id occurs exactly once (and nothing else occurs) and in
    which an id stands after everything it depends on, directly or through
    other plugins. *)
Theorem resolve_topological_order (m : Manager) :
  closed m -> acyclic m ->
  exists order,
    resolveInitializationOrder m = Returns order /\
    NoDup order /\
    (forall x, In x order <-> registered m x) /\
    (forall a b, clos_trans string (dep_edge m) a b -> before b a order).
Proof.
  intros Hclosed Hacyclic. pose proof (resolve_cases m) as H.
  destruct (resolveInitializationOrder m) as [order | e |].
  - destruct H as (Hnd & Hin & Hs). exists order.
    split; [reflexivity|]. split; [assumption|]. split; [assumption|].
    apply sorted_order_before; [assumption | intros x; apply Hin].
  - exfalso. destruct H as [H | H].
    + exact (cyclic_not_acyclic m (cycle_report_cyclic m e H) Hacyclic).
    + exact (dangling_not_closed m (missing_report_dangling m e H) Hclosed).
  - contradiction.
Qed.

Lemma resolve_topological_order_witness :
  exists order,
    resolveInitializationOrder chain_registry = Returns order /\
    NoDup order /\
    (forall x, In x order <-> registered chain_registry x) /\
    (forall a b, clos_trans string (dep_edge chain_registry) a b ->
                 before b a order).
Proof.
  apply resolve_topological_order;
    apply (resolve_returns_sound chain_registry
             ["plugin-c"; "plugin-b"; "plugin-a"]); vm_compute; reflexivity.
Defined.

(** C5, as amended: when every declared dependency is registered and the
    dependency relation has a cycle, [resolveInitializationOrder] throws the
    circular-dependency error; the reported path runs along dependency edges
    and ends with a cycle from its last id [x] back to [x], all of whose ids
    it therefore contains. *)
Theorem resolve_circular_dependency (m : Manager) :
  closed m -> cyclic m ->
  exists pre x mid,
    resolveInitializationOrder m =
      Throws (ElizaError "Circular dependency detected" CONFIGURATION_ERROR
                None
                (CycleContext (String.concat " -> " (pre ++ x :: mid ++ [x]))))
    /\ chain (dep_edge m) (pre ++ x :: mid ++ [x])
    /\ clos_trans string (dep_edge m) x x.
Proof.
  intros Hclosed Hcyclic. pose proof (resolve_cases m) as H.
  destruct (resolveInitializationOrder m) as [order | e |] eqn:E.
  - exfalso. apply (cyclic_not_acyclic m Hcyclic).
    apply (resolve_returns_sound m order E).
  - destruct H as [H | H].
    + destruct H as (pre & x & mid & -> & Hc). exists pre, x, mid.
      split; [|split].
      * unfold circularDependency. now rewrite <- app_assoc.
      * assumption.
      * apply chain_app_r in Hc. now apply chain_clos_trans in Hc.
    + exfalso.
      exact (dangling_not_closed m (missing_report_dangling m e H) Hclosed).
  - contradiction.
Qed.

(** C9, as amended: when some registered plugin declares an id that is not
    registered and the dependency relation among registered ids has no
    cycle, [resolveInitializationOrder] throws the missing-dependency error,
    whose message names an unregistered id and a registered plugin that
    declares it. *)
Theorem resolve_missing_dependency (m : Manager) :
  acyclic m -> dangling m ->
  exists n d,
    resolveInitializationOrder m =
      Throws (ElizaError
                ("Missing dependency: " ++ d ++ " for plugin " ++ n)%string
                CONFIGURATION_ERROR None NoContext)
    /\ registered m n /\ depends m n d /\ ~ registered m d.
Proof.
  intros Hacyclic Hdangling. pose proof (resolve_cases m) as H.
  destruct (resolveInitializationOrder m) as [order | e |] eqn:E.
  - exfalso. apply (dangling_not_closed m Hdangling).
    apply (resolve_returns_sound m order E).
  - destruct H as [H | H].
    + exfalso.
      exact (cyclic_not_acyclic m (cycle_report_cyclic m e H) Hacyclic).
    + destruct H as (n & d & -> & H). exists n, d. split; [reflexivity|].
      exact H.
  - contradiction.
Qed.

(** ** Checking concrete registries *)

Lemma closed_check_sound (m : Manager) : closed_check m = true -> closed m.
Proof.
  unfold closed_check. rewrite forallb_forall. intros H a b Ha Hab.
  specialize (H a Ha). rewrite forallb_forall in H.
  apply map_has_In. now apply H.
Qed.

Lemma dangling_check_sound (m : Manager) :
  dangling_check m = true -> dangling m.
Proof.
  unfold dangling_check. rewrite existsb_exists. intros (a & Ha & H).
  rewrite existsb_exists in H. destruct H as (b & Hb & H).
  exists a, b. split; [assumption|]. split; [assumption|].
  intros Hreg. apply map_has_In in Hreg. rewrite Hreg in H. discriminate.
Qed.

Lemma ranked_check_sound (rank : string -> nat) (m : Manager) :
  ranked_check rank m = true -> acyclic m.
Proof.
  unfold ranked_check. rewrite forallb_forall. intros H.
  assert (Hdown : forall a b, clos_trans string (dep_edge m) a b ->
                              (rank b < rank a)%nat).
  { induction 1 as [a b (Ha & Hb & Hab) | a c b _ IH1 _ IH2]; [|lia].
    specialize (H a Ha). rewrite forallb_forall in H. specialize (H b Hab).
    apply map_has_In in Hb. rewrite Hb in H. simpl in H.
    now apply Nat.ltb_lt. }
  intros x Hx. apply Hdown in Hx. lia.
Qed.

Lemma edge_check_sound (m : Manager) (a b : string) :
  edge_check m a b = true -> dep_edge m a b.
Proof.
  unfold edge_check. rewrite !andb_true_iff. intros [[Ha Hb] Hab].
  split; [now apply map_has_In | split; [now apply map_has_In |]].
  now apply set_has_In.
Qed.

Lemma two_cycle (m : Manager) (a b : string) :
  a <> b -> edge_check m a b = true -> edge_check m b a = true ->
  cycle_of_length_at_least_2 m.
Proof.
  intros Hne Hab Hba. exists a, b. split; [assumption|].
  split; apply t_step; now apply edge_check_sound.
Qed.

Lemma resolve_circular_dependency_witness :
  exists pre x mid,
    resolveInitializationOrder cycle_registry =
      Throws (ElizaError "Circular dependency detected" CONFIGURATION_ERROR
                None
                (CycleContext (String.concat " -> " (pre ++ x :: mid ++ [x]))))
    /\ chain (dep_edge cycle_registry) (pre ++ x :: mid ++ [x])
    /\ clos_trans string (dep_edge cycle_registry) x x.
Proof.
  apply resolve_circular_dependency.
  - apply closed_check_sound. vm_compute. reflexivity.
  - apply long_cycle_cyclic. apply (two_cycle _ "a" "b").
    + discriminate.
    + vm_compute. reflexivity.
    + vm_compute. reflexivity.
Defined.

(** C5 as stated fails: this registry has the cycle a, b, a, yet the walk
    meets the unregistered dependency of x first and throws the
    missing-dependency error. *)
Lemma resolve_circular_dependency_counterexample :
  cycle_of_length_at_least_2 dangling_then_cycle_registry /\
  resolveInitializationOrder dangling_then_cycle_registry =
    Throws (missingDependency "z" "x") /\
  ~ (exists p n, resolveInitializationOrder dangling_then_cycle_registry =
                   Throws (circularDependency p n)).
Proof.
  split; [|split].
  - apply (two_cycle _ "a" "b"); [discriminate | |]; vm_compute; reflexivity.
  - vm_compute. reflexivity.
  - intros (p & n & H).
    assert (E : resolveInitializationOrder dangling_then_cycle_registry =
                Throws (missingDependency "z" "x")) by (vm_compute; reflexivity).
    rewrite E in H. unfold missingDependency, circularDependency in H.
    simpl in H. discriminate H.
Qed.

Lemma resolve_missing_dependency_witness :
  exists n d,
    resolveInitializationOrder dangling_registry =
      Throws (ElizaError
                ("Missing dependency: " ++ d ++ " for plugin " ++ n)%string
                CONFIGURATION_ERROR None NoContext)
    /\ registered dangling_registry n /\ depends dangling_registry n d
    /\ ~ registered dangling_registry d.
Proof.
  apply resolve_missing_dependency.
  - apply (ranked_check_sound
             (fun x => if String.eqb x "a" then 1%nat else 0%nat)).
    vm_compute. reflexivity.
  - apply dangling_check_sound. vm_compute. reflexivity.
Defined.

(** C9 as stated fails: b declares the unregistered z, yet the walk closes
    the cycle a, b, a before it looks at z and throws the
    circular-dependency error. *)
Lemma resolve_missing_dependency_counterexample :
  dangling cycle_then_dangling_registry /\
  resolveInitializationOrder cycle_then_dangling_registry =
    Throws (circularDependency ["a"; "b"] "a") /\
  ~ (exists d n, resolveInitializationOrder cycle_then_dangling_registry =
                   Throws (missingDependency d n)).
Proof.
  split; [|split].
  - apply dangling_check_sound. vm_compute. reflexivity.
  - vm_compute. reflexivity.
  - intros (d & n & H).
    assert (E : resolveInitializationOrder cycle_then_dangling_registry =
                Throws (circularDependency ["a"; "b"] "a"))
      by (vm_compute; reflexivity).
    rewrite E in H. unfold missingDependency, circularDependency in H.
    simpl in H. discriminate H.
Qed.

(** ** Registration and termination *)

Lemma plugins_log level message error (m : Manager) :
  plugins (log level message error m) = plugins m.
Proof. unfold log. destruct (_ <? _); reflexivity. Qed.

Lemma dependencies_log level message error (m : Manager) :
  dependencies (log level message error m) = dependencies m.
Proof. unfold log. destruct (_ <? _); reflexivity. Qed.

Lemma events_logger_info message (m : Manager) :
  events (logger_info message m) = events m ++ [Logged INFO message None].
Proof. reflexivity. Qed.

Lemma events_logger_error message error (m : Manager) :
  events (logger_error message error m) =
  events m ++ [Logged ERROR message (Some error)].
Proof. reflexivity. Qed.

(** C8: registering an id that is already present throws the
    duplicate-registration error and leaves the manager exactly as it was:
    the plugin map, the dependency map and hence the entry of the first
    registration are unchanged (nothing is logged either). *)
Theorem registerPlugin_duplicate (m : Manager) (name : string) (p : Plugin)
    (cfg : PluginConfig) :
  registered m name ->
  exists m',
    registerPlugin name p cfg m =
      (Throws (ElizaError ("Plugin already registered: " ++ name)%string
                 CONFIGURATION_ERROR None NoContext), m') /\
    plugins m' = plugins m /\ dependencies m' = dependencies m /\ m' = m.
Proof.
  intros H. apply map_has_In in H. exists m.
  unfold registerPlugin, validatePluginConfig. rewrite H.
  repeat split; reflexivity.
Qed.

Lemma registerPlugin_duplicate_witness :
  exists m',
    registerPlugin "plugin-b" steady_plugin (requiring ["plugin-a"])
      chain_registry =
      (Throws (ElizaError ("Plugin already registered: " ++ "plugin-b")%string
                 CONFIGURATION_ERROR None NoContext), m') /\
    plugins m' = plugins chain_registry /\
    dependencies m' = dependencies chain_registry /\ m' = chain_registry.
Proof.
  apply registerPlugin_duplicate. apply map_has_In. vm_compute. reflexivity.
Defined.

Lemma attempt_destroy_cases (name : string) (e : PluginEntry) (m : Manager) :
  exists e' m',
    attempt_destroy name e m = (destroy_outcome e, e', m') /\
    same_registration e e' /\
    dependencies m' = dependencies m /\
    (JsMap.get (plugins m) name = Some e ->
     JsMap.get (plugins m') name = Some e' /\
     JsMap.keys (plugins m') = JsMap.keys (plugins m)) /\
    (forall k, k <> name ->
       JsMap.get (plugins m') k = JsMap.get (plugins m) k) /\
    (exists evs, events m' = events m ++ evs /\
       forall ev, In ev evs -> ev = CalledDestroy name).
Proof.
  unfold attempt_destroy, destroy_outcome.
  destruct (destroy_behaviour (plugin e)) as [behaviour|].
  - set (e1 := set_plugin (called_destroy (plugin e)) e).
    set (m1 := emit (CalledDestroy name) (write_entry name e1 m)).
    assert (H : same_registration e e1 /\
      dependencies m1 = dependencies m /\
      (JsMap.get (plugins m) name = Some e ->
       JsMap.get (plugins m1) name = Some e1 /\
       JsMap.keys (plugins m1) = JsMap.keys (plugins m)) /\
      (forall k, k <> name ->
         JsMap.get (plugins m1) k = JsMap.get (plugins m) k) /\
      (exists evs, events m1 = events m ++ evs /\
         forall ev, In ev evs -> ev = CalledDestroy name)).
    { split; [repeat split|]. split; [reflexivity|]. split; [|split].
      - intros Hget. simpl. split; [apply map_get_set_same|].
        apply map_keys_set_present. apply map_get_In. now exists e.
      - intros k Hk. simpl. now apply map_get_set_other.
      - exists [CalledDestroy name]. split; [reflexivity|].
        intros ev [<- | []]. reflexivity. }
    destruct (behaviour (destroy_calls (plugin e))); exists e1, m1;
      (split; [reflexivity | exact H]).
  - exists e, m. split; [reflexivity|]. split; [repeat split|].
    split; [reflexivity|]. split; [|split].
    + intros Hget. now split.
    + reflexivity.
    + exists []. split; [now rewrite app_nil_r | intros ev []].
Qed.

(** C2: on a registered id [terminatePlugin] never throws.  If [destroy] is
    absent or succeeds, the entry and the dependency set of the id are gone
    and every other id keeps what it had; if [destroy] fails, the error is
    logged, the dependency map is unchanged and the id stays registered with
    the same configuration, initialization flag and metrics. *)
Theorem terminatePlugin_removes_iff_destroyed (m : Manager) (name : string)
    (e : PluginEntry) :
  JsMap.get (plugins m) name = Some e ->
  exists m',
    terminatePlugin name m = (Returns tt, m') /\
    match destroy_outcome e with
    | None =>
        JsMap.get (plugins m') name = None /\
        JsMap.get (dependencies m') name = None /\
        (forall k, k <> name ->
           JsMap.get (plugins m') k = JsMap.get (plugins m) k /\
           JsMap.get (dependencies m') k = JsMap.get (dependencies m) k)
    | Some reason =>
        In (Logged ERROR ("Plugin termination failed: " ++ name)%string
              (Some reason)) (events m') /\
        dependencies m' = dependencies m /\
        JsMap.keys (plugins m') = JsMap.keys (plugins m) /\
        exists e', JsMap.get (plugins m') name = Some e' /\
                   same_registration e e'
    end.
Proof.
  intros Hget. unfold terminatePlugin.
  set (m1 := logger_info ("Terminating plugin: " ++ name)%string m).
  assert (Hget1 : JsMap.get (plugins m1) name = Some e) by exact Hget.
  rewrite Hget1.
  destruct (attempt_destroy_cases name e m1)
    as (e' & m2 & -> & Hsame & Hdeps & Hown & Hother & _).
  destruct (Hown Hget1) as [Hget2 Hkeys].
  destruct (destroy_outcome e) as [reason|]; eexists; (split; [reflexivity|]).
  - rewrite events_logger_error. unfold logger_error.
    rewrite plugins_log, dependencies_log.
    split; [apply in_or_app; right; now left|].
    split; [exact Hdeps|]. split; [exact Hkeys|]. now exists e'.
  - simpl. split; [apply map_get_delete_same|].
    split; [apply map_get_delete_same|].
    intros k Hk. rewrite !map_get_delete_other by assumption.
    split; [now apply Hother | now rewrite Hdeps].
Qed.

(** ** Initialization with retries *)

Lemma map_set_set {V} (m : JsMap.t V) (k : string) (v v' : V) :
  JsMap.set (JsMap.set m k v) k v' = JsMap.set m k v'.
Proof.
  induction m as [|[k0 v0] m IH]; simpl.
  - now rewrite String.eqb_refl.
  - destruct (String.eqb k0 k) eqn:E; simpl.
    + now rewrite String.eqb_refl.
    + rewrite E. now f_equal.
Qed.

Lemma map_set_get {V} (m : JsMap.t V) (k : string) (v : V) :
  JsMap.get m k = Some v -> JsMap.set m k v = m.
Proof.
  induction m as [|[k0 v0] m IH]; simpl; [discriminate|].
  destruct (String.eqb_spec k0 k) as [->|Hne]; intros H.
  - congruence.
  - f_equal. now apply IH.
Qed.







Lemma terminatePlugin_removes_iff_destroyed_witness :
  exists m',
    terminatePlugin "failing-plugin" stubborn_registry = (Returns tt, m') /\
    match destroy_outcome stubborn_entry with
    | None =>
        JsMap.get (plugins m') "failing-plugin" = None /\
        JsMap.get (dependencies m') "failing-plugin" = None /\
        (forall k, k <> "failing-plugin" ->
           JsMap.get (plugins m') k = JsMap.get (plugins stubborn_registry) k /\
           JsMap.get (dependencies m') k =
           JsMap.get (dependencies stubborn_registry) k)
    | Some reason =>
        In (Logged ERROR ("Plugin termination failed: " ++ "failing-plugin")%string
              (Some reason)) (events m') /\
        dependencies m' = dependencies stubborn_registry /\
        JsMap.keys (plugins m') = JsMap.keys (plugins stubborn_registry) /\
        exists e', JsMap.get (plugins m') "failing-plugin" = Some e' /\
                   same_registration stubborn_entry e'
    end.
Proof.
  apply terminatePlugin_removes_iff_destroyed. vm_compute. reflexivity.
Defined.

(** ** The footprint of initialization *)

Lemma entry_grows_refl (e : PluginEntry) : entry_grows e e.
Proof. repeat split; lia. Qed.

Lemma entry_grows_trans (e1 e2 e3 : PluginEntry) :
  entry_grows e1 e2 -> entry_grows e2 e3 -> entry_grows e1 e3.
Proof.
  intros (A1 & A2 & A3 & A4) (B1 & B2 & B3 & B4).
  repeat split; try congruence. lia.
Qed.

Lemma failures_of_cons (x : string) (ev : Event) (evs : list Event) :
  failures_of x (ev :: evs) =
  (if is_call x ev then 1 else 0) - (if is_success x ev then 1 else 0)
  + failures_of x evs.
Proof.
  unfold failures_of. simpl.
  destruct (is_call x ev), (is_success x ev); simpl length; lia.
Qed.

Lemma failures_of_app (x : string) (evs1 evs2 : list Event) :
  failures_of x (evs1 ++ evs2) = failures_of x evs1 + failures_of x evs2.
Proof.
  induction evs1 as [|ev evs1 IH]; [reflexivity|].
  simpl. rewrite !failures_of_cons, IH. lia.
Qed.

Lemma is_success_success_log (x y : string) :
  is_success x (success_log y) = String.eqb y x.
Proof. reflexivity. Qed.

Lemma failures_of_failed_attempt (name message : string)
    (error : option Thrown) :
  failures_of name [CalledInitialize name; Logged ERROR message error] = 1.
Proof.
  rewrite !failures_of_cons. simpl. now rewrite String.eqb_refl.
Qed.

Lemma failures_of_successful_attempt (name : string) :
  failures_of name [CalledInitialize name; success_log name] = 0.
Proof.
  rewrite !failures_of_cons, is_success_success_log. simpl.
  now rewrite String.eqb_refl.
Qed.

(** The attempts made for one plugin count for no other. *)
Lemma failures_of_other (name x : string) (evs : list Event) :
  Forall (init_event name) evs -> x <> name -> failures_of x evs = 0.
Proof.
  intros Hall Hne. induction Hall as [|ev evs Hev _ IH]; [reflexivity|].
  rewrite failures_of_cons, IH.
  assert (Hneq : String.eqb name x = false)
    by (apply String.eqb_neq; congruence).
  destruct ev as [[| | |] message error | y | y | ms]; simpl in Hev;
    try contradiction; try reflexivity.
  - rewrite Hev, is_success_success_log. simpl. now rewrite Hneq.
  - subst y. simpl. now rewrite Hneq.
Qed.

Lemma init_effect_refl (name : string) (e : PluginEntry) (m : Manager) :
  JsMap.get (plugins m) name = Some e -> init_effect name e e m m.
Proof.
  intros H. constructor; try reflexivity.
  - symmetry. now apply map_set_get.
  - apply entry_grows_refl.
  - tauto.
  - exists []. rewrite app_nil_r. split; [reflexivity|].
    split; [constructor|]. split; [intros [] | unfold failures_of; simpl; lia].
Qed.

Lemma init_effect_trans (name : string) (e1 e2 e3 : PluginEntry)
    (m1 m2 m3 : Manager) :
  init_effect name e1 e2 m1 m2 -> init_effect name e2 e3 m2 m3 ->
  init_effect name e1 e3 m1 m3.
Proof.
  intros [A1 A2 A3 A4 A5 A6 (evs1 & A7 & A8 & A9 & A10)]
         [B1 B2 B3 B4 B5 B6 (evs2 & B7 & B8 & B9 & B10)].
  constructor; try congruence.
  - rewrite B4, A4. apply map_set_set.
  - eapply entry_grows_trans; eassumption.
  - tauto.
  - exists (evs1 ++ evs2). rewrite B7, A7, app_assoc.
    split; [reflexivity|]. split; [now apply Forall_app|]. split.
    + intros H. apply in_app_or in H. tauto.
    + rewrite failures_of_app. lia.
Qed.

(** One more call of [initialize] went out and the entry became [e']. *)
Lemma init_effect_step (name : string) (e e' : PluginEntry) (m : Manager)
    (evs : list Event) :
  entry_grows e e' ->
  (isInitialized e = true -> isInitialized e' = true) ->
  Forall (init_event name) evs ->
  (In (success_log name) evs -> isInitialized e' = true) ->
  errorCount (metrics e') = errorCount (metrics e) + failures_of name evs ->
  init_effect name e e' m (manager_after name e' evs m).
Proof.
  intros Hg Hf Hev Hs Hc. constructor; try reflexivity; try assumption.
  exists evs. auto.
Qed.

Lemma initializeAttempts_effect (name : string) (retries : Z) (fuel : nat) :
  forall attempts e m r m',
    JsMap.get (plugins m) name = Some e ->
    initializeAttempts fuel name retries attempts e m = (r, m') ->
    exists e', init_effect name e e' m m'.
Proof.
  induction fuel as [|fuel IH]; intros attempts e m r m' Hget Hrun.
  - simpl in Hrun. injection Hrun as _ <-. exists e. now apply init_effect_refl.
  - cbn [initializeAttempts] in Hrun.
    destruct (attempts <? retries);
      [|injection Hrun as _ <-; exists e; now apply init_effect_refl].
    set (e1 := set_plugin (called_initialize (plugin e)) e) in *.
    destruct (race (initialize_behaviour (plugin e) (initialize_calls (plugin e))))
      as [error|].
    + set (e2 := increment_errorCount e1) in *.
      set (message := attemptFailedMessage (attempts + 1) retries name) in *.
      assert (Hstep : init_effect name e e2 m
                (manager_after name e2
                   [CalledInitialize name;
                    Logged ERROR message (Some (as_error error))] m)).
      { apply init_effect_step.
        - unfold e2, e1. repeat split; simpl; lia.
        - tauto.
        - repeat constructor.
        - intros [H | [H | []]]; discriminate H.
        - rewrite failures_of_failed_attempt. reflexivity. }
      assert (Em : logger_error message (as_error error)
                     (write_entry name e2
                        (emit (CalledInitialize name) (write_entry name e1 m)))
                   = manager_after name e2
                       [CalledInitialize name;
                        Logged ERROR message (Some (as_error error))] m).
      { unfold manager_after, logger_error, log, write_entry, emit. simpl.
        now rewrite map_set_set, <- app_assoc. }
      rewrite Em in Hrun.
      destruct (attempts + 1 =? retries).
      * injection Hrun as _ <-. now exists e2.
      * apply IH in Hrun.
        -- destruct Hrun as [e' Hrest]. exists e'.
           eapply init_effect_trans; [exact Hstep|].
           eapply init_effect_trans; [|exact Hrest].
           constructor; try reflexivity.
           ++ simpl. now rewrite map_set_set.
           ++ apply entry_grows_refl.
           ++ tauto.
           ++ exists [Waited (1000 * (attempts + 1))].
              split; [reflexivity|]. split; [repeat constructor|].
              split; [intros [H | []]; discriminate H|].
              unfold failures_of. simpl. lia.
        -- simpl. apply map_get_set_same.
    + injection Hrun as _ <-. exists (set_isInitialized true e1).
      match goal with
      | |- init_effect _ _ _ _ ?M =>
          replace M with (manager_after name (set_isInitialized true e1)
                            [CalledInitialize name; success_log name] m)
      end.
      2:{ unfold manager_after, logger_info, log, write_entry, emit. simpl.
          now rewrite map_set_set, <- app_assoc. }
      apply init_effect_step.
      * unfold e1. repeat split; simpl; lia.
      * reflexivity.
      * repeat constructor.
      * reflexivity.
      * rewrite failures_of_successful_attempt. simpl. lia.
Qed.

Lemma initializeAttempts_fuel (name : string) (retries : Z) (fuel : nat) :
  forall attempts e m,
    retries - attempts < Z.of_nat fuel -> (0 < fuel)%nat ->
    fst (initializeAttempts fuel name retries attempts e m) <> OutOfFuel.
Proof.
  induction fuel as [|fuel IH]; intros attempts e m Hfuel Hpos; [lia|].
  cbn [initializeAttempts].
  destruct (attempts <? retries) eqn:Hcond; [|discriminate].
  apply Z.ltb_lt in Hcond.
  destruct (race _); [|discriminate].
  destruct (attempts + 1 =? retries) eqn:Hlast; [discriminate|].
  apply Z.eqb_neq in Hlast. apply IH; lia.
Qed.

Lemma initializePlugin_returns_or_throws (name : string) (m : Manager) :
  fst (initializePlugin name m) <> OutOfFuel.
Proof.
  unfold initializePlugin. destruct (JsMap.get (plugins m) name) as [e|].
  - apply initializeAttempts_fuel; lia.
  - discriminate.
Qed.

Lemma initializePlugin_effect (name : string) (m : Manager) (e : PluginEntry)
    (r : Completion unit) (m' : Manager) :
  JsMap.get (plugins m) name = Some e ->
  initializePlugin name m = (r, m') ->
  exists e', init_effect name e e' m m'.
Proof.
  intros Hget Hrun. unfold initializePlugin in Hrun. rewrite Hget in Hrun.
  eapply initializeAttempts_effect; eassumption.
Qed.

Lemma success_log_inj (x y : string) : success_log x = success_log y -> x = y.
Proof. unfold success_log. simpl. intros H. now injection H. Qed.

Lemma init_run_refl (names : list string) (m : Manager) : init_run names m m.
Proof.
  constructor; try reflexivity.
  - intros x e H. exists e. split; [assumption|].
    split; [apply entry_grows_refl | tauto].
  - exists []. rewrite app_nil_r. split; [reflexivity|].
    split; [intros x []|]. split; [intros x []|].
    intros x e e' H H'. unfold failures_of. simpl.
    rewrite H in H'. injection H' as <-. lia.
Qed.

Lemma init_run_trans (l1 l2 : list string) (m1 m2 m3 : Manager) :
  init_run l1 m1 m2 -> init_run l2 m2 m3 -> init_run (l1 ++ l2) m1 m3.
Proof.
  intros [A1 A2 A3 A4 A5 A6 (evs1 & A7 & A8 & A9 & A10)]
         [B1 B2 B3 B4 B5 B6 (evs2 & B7 & B8 & B9 & B10)].
  constructor; try congruence.
  - intros x Hx. rewrite B5, A5; [reflexivity | |];
      intros H; apply Hx, in_or_app; tauto.
  - intros x e H. destruct (A6 x e H) as (e2 & H2 & G2 & F2).
    destruct (B6 x e2 H2) as (e3 & H3 & G3 & F3). exists e3.
    split; [assumption|]. split; [eapply entry_grows_trans; eassumption|tauto].
  - exists (evs1 ++ evs2). rewrite B7, A7, app_assoc. split; [reflexivity|].
    split; [|split].
    + intros x H. apply in_app_or in H. apply in_or_app.
      destruct H as [H | H]; [left; now apply A8 | right; now apply B8].
    + intros x H. apply in_app_or in H. destruct H as [H | H].
      * destruct (A9 x H) as (e2 & H2 & F2).
        destruct (B6 x e2 H2) as (e3 & H3 & _ & F3). exists e3. tauto.
      * now apply B9.
    + intros x e e3 H H3. destruct (A6 x e H) as (e2 & H2 & _).
      rewrite failures_of_app, (B10 x e2 e3 H2 H3), (A10 x e e2 H H2). lia.
Qed.

Lemma init_run_weaken (l l' : list string) (m m' : Manager) :
  incl l l' -> init_run l m m' -> init_run l' m m'.
Proof.
  intros Hincl [A1 A2 A3 A4 A5 A6 (evs & A7 & A8 & A9)].
  constructor; try assumption.
  - intros x Hx. apply A5. intros H. apply Hx. now apply Hincl.
  - exists evs. split; [assumption|]. split; [|assumption].
    intros x H. now apply Hincl, A8.
Qed.

Lemma init_effect_run (name : string) (e e' : PluginEntry) (m m' : Manager) :
  JsMap.get (plugins m) name = Some e ->
  init_effect name e e' m m' -> init_run [name] m m'.
Proof.
  intros Hget [A1 A2 A3 A4 A5 A6 (evs & A7 & A8 & A9 & A10)].
  assert (Hown : JsMap.get (plugins m') name = Some e')
    by (rewrite A4; apply map_get_set_same).
  constructor; try assumption.
  - rewrite A4. apply map_keys_set_present. apply map_get_In. now exists e.
  - intros x Hx. rewrite A4. apply map_get_set_other.
    intros ->. apply Hx. now left.
  - intros x ex Hx. destruct (String.eqb_spec x name) as [->|Hne].
    + exists e'. rewrite Hget in Hx. injection Hx as <-. tauto.
    + exists ex. rewrite A4, (map_get_set_other _ _ _ _ Hne).
      split; [assumption|]. split; [apply entry_grows_refl | tauto].
  - exists evs. split; [assumption|].
    pose proof (proj1 (Forall_forall _ _) A8) as A8'.
    split; [|split].
    + intros x Hx. left. symmetry. exact (A8' _ Hx).
    + intros x Hx. pose proof (A8' _ Hx) as Hev. simpl in Hev.
      apply success_log_inj in Hev. subst x. exists e'. tauto.
    + intros x ex ex' Hx Hx'. destruct (String.eqb_spec x name) as [->|Hne].
      * rewrite Hget in Hx. rewrite Hown in Hx'.
        injection Hx as <-. injection Hx' as <-. exact A10.
      * rewrite A4, (map_get_set_other _ _ _ _ Hne), Hx in Hx'.
        injection Hx' as <-. rewrite (failures_of_other name x evs A8 Hne). lia.
Qed.

Lemma initializePlugin_run (name : string) (m : Manager)
    (r : Completion unit) (m' : Manager) :
  initializePlugin name m = (r, m') -> init_run [name] m m'.
Proof.
  intros Hrun. destruct (JsMap.get (plugins m) name) as [e|] eqn:Hget.
  - destruct (initializePlugin_effect name m e r m' Hget Hrun) as [e' He].
    eapply init_effect_run; eassumption.
  - unfold initializePlugin in Hrun. rewrite Hget in Hrun.
    injection Hrun as _ <-. apply init_run_refl.
Qed.

Lemma initializeInOrder_run (names : list string) :
  forall m r m', initializeInOrder names m = (r, m') -> init_run names m m'.
Proof.
  induction names as [|name names IH]; intros m r m' Hrun.
  - simpl in Hrun. injection Hrun as _ <-. apply init_run_refl.
  - cbn [initializeInOrder] in Hrun.
    destruct (initializePlugin name m) as [r1 m1] eqn:E1.
    apply initializePlugin_run in E1.
    destruct r1 as [u | error |].
    + apply IH in Hrun. exact (init_run_trans [name] names m m1 m' E1 Hrun).
    + injection Hrun as _ <-.
      apply (init_run_weaken [name]); [|assumption].
      intros x [<- | []]. now left.
    + injection Hrun as _ <-.
      apply (init_run_weaken [name]); [|assumption].
      intros x [<- | []]. now left.
Qed.

Lemma initializeInOrder_returns_or_throws (names : list string) :
  forall m, fst (initializeInOrder names m) <> OutOfFuel.
Proof.
  induction names as [|name names IH]; intros m; [discriminate|].
  simpl. pose proof (initializePlugin_returns_or_throws name m) as H.
  destruct (initializePlugin name m) as [[u | error |] m0]; simpl in *.
  - apply IH.
  - discriminate.
  - congruence.
Qed.

Lemma NoDup_app_disjoint (l1 l2 : list string) :
  NoDup (l1 ++ l2) -> forall x, In x l1 -> In x l2 -> False.
Proof.
  induction l1 as [|a l1 IH]; simpl; intros Hnd x H1 H2; [contradiction|].
  inversion Hnd as [|? ? Hnotin Hrest]; subst.
  destruct H1 as [-> | H1].
  - apply Hnotin. apply in_or_app. now right.
  - exact (IH Hrest x H1 H2).
Qed.

(** ** Restart *)

(** C6, as amended: the restart of a registered plugin never throws.  When
    [destroy] is absent or succeeds, the entry's [isInitialized] is set to
    false and [initializePlugin] is re-run for the id from that state; if
    the re-run throws, the error is logged and swallowed.  When [destroy]
    fails, its error is logged and swallowed, and that is all: the entry
    keeps its [isInitialized] flag and [initialize] is not called. *)
Theorem restartPlugin_swallows_failures (m : Manager) (name : string)
    (e : PluginEntry) :
  JsMap.get (plugins m) name = Some e ->
  exists m',
    restartPlugin name m = (Returns tt, m') /\
    match destroy_outcome e with
    | Some reason =>
        In (Logged ERROR ("Plugin restart failed: " ++ name)%string
              (Some reason)) (events m') /\
        (exists e', JsMap.get (plugins m') name = Some e' /\
                    same_registration e e') /\
        (exists evs, events m' = events m ++ evs /\
                     ~ In (CalledInitialize name) evs)
    | None =>
        exists e0 m0,
          JsMap.get (plugins m0) name = Some e0 /\
          isInitialized e0 = false /\
          config e0 = config e /\ metrics e0 = metrics e /\
          (forall k, k <> name ->
             JsMap.get (plugins m0) k = JsMap.get (plugins m) k) /\
          dependencies m0 = dependencies m /\
          match initializePlugin name m0 with
          | (Returns _, m4) => m' = m4
          | (Throws error, m4) =>
              m' = logger_error ("Plugin restart failed: " ++ name)%string
                     error m4
          | (OutOfFuel, _) => False
          end
    end.
Proof.
  intros Hget. unfold restartPlugin.
  set (m1 := logger_info ("Restarting plugin: " ++ name)%string m).
  assert (Hget1 : JsMap.get (plugins m1) name = Some e) by exact Hget.
  rewrite Hget1.
  destruct (attempt_destroy_cases name e m1)
    as (e' & m2 & -> & Hsame & Hdeps & Hown & Hother & evs & Hevs & Hkind).
  destruct (Hown Hget1) as [Hget2 Hkeys].
  destruct (destroy_outcome e) as [reason|].
  - eexists. split; [reflexivity|].
    rewrite events_logger_error. unfold logger_error. rewrite plugins_log.
    split; [apply in_or_app; right; now left|].
    split; [now exists e'|].
    exists ([Logged INFO ("Restarting plugin: " ++ name)%string None] ++ evs
            ++ [Logged ERROR ("Plugin restart failed: " ++ name)%string
                  (Some reason)]).
    split.
    + rewrite Hevs. unfold m1. rewrite events_logger_info.
      now rewrite <- !app_assoc.
    + intros Hin. apply in_app_or in Hin. destruct Hin as [[H | []] | Hin];
        [discriminate H|].
      apply in_app_or in Hin. destruct Hin as [Hin | [H | []]];
        [|discriminate H].
      apply Hkind in Hin. discriminate Hin.
  - set (e0 := set_isInitialized false e').
    set (m3 := write_entry name e0 m2).
    pose proof (initializePlugin_returns_or_throws name m3) as Hfuel.
    assert (Hstate :
      JsMap.get (plugins m3) name = Some e0 /\
      isInitialized e0 = false /\
      config e0 = config e /\ metrics e0 = metrics e /\
      (forall k, k <> name ->
         JsMap.get (plugins m3) k = JsMap.get (plugins m) k) /\
      dependencies m3 = dependencies m).
    { destruct Hsame as (Hc & _ & Hm).
      split; [apply map_get_set_same|]. split; [reflexivity|].
      split; [exact Hc|]. split; [exact Hm|]. split; [|exact Hdeps].
      intros k Hk. simpl. rewrite (map_get_set_other _ _ _ _ Hk).
      now apply Hother. }
    destruct (initializePlugin name m3) as [[u | error |] m4] eqn:Einit.
    + exists m4. split; [reflexivity|]. exists e0, m3. rewrite Einit.
      repeat split; apply Hstate.
    + eexists. split; [reflexivity|]. exists e0, m3. rewrite Einit.
      repeat split; apply Hstate.
    + exfalso. now apply Hfuel.
Qed.

Lemma restartPlugin_swallows_failures_witness :
  exists m',
    restartPlugin "failing-plugin" stubborn_registry = (Returns tt, m') /\
    match destroy_outcome stubborn_entry with
    | Some reason =>
        In (Logged ERROR ("Plugin restart failed: " ++ "failing-plugin")%string
              (Some reason)) (events m') /\
        (exists e', JsMap.get (plugins m') "failing-plugin" = Some e' /\
                    same_registration stubborn_entry e') /\
        (exists evs, events m' = events stubborn_registry ++ evs /\
                     ~ In (CalledInitialize "failing-plugin") evs)
    | None =>
        exists e0 m0,
          JsMap.get (plugins m0) "failing-plugin" = Some e0 /\
          isInitialized e0 = false /\
          config e0 = config stubborn_entry /\
          metrics e0 = metrics stubborn_entry /\
          (forall k, k <> "failing-plugin" ->
             JsMap.get (plugins m0) k = JsMap.get (plugins stubborn_registry) k)
          /\
          dependencies m0 = dependencies stubborn_registry /\
          match initializePlugin "failing-plugin" m0 with
          | (Returns _, m4) => m' = m4
          | (Throws error, m4) =>
              m' = logger_error
                     ("Plugin restart failed: " ++ "failing-plugin")%string
                     error m4
          | (OutOfFuel, _) => False
          end
    end.
Proof.
  apply restartPlugin_swallows_failures. vm_compute. reflexivity.
Defined.

(** C6 as stated fails: the plugin below is initialized and its [destroy]
    rejects.  The restart strategy is dispatched for it, the error is logged
    and swallowed, but [isInitialized] stays true and [initialize] is not
    called again. *)
Lemma restartPlugin_swallows_failures_counterexample :
  JsMap.get (plugins stubborn_registry) "failing-plugin" = Some stubborn_entry
  /\
  recoveryStrategy (errorHandling (config stubborn_entry)) = restart /\
  exists m',
    handlePluginFailure "failing-plugin" stubborn_entry stubborn_registry =
      (Returns tt, m') /\
    events m' =
      events stubborn_registry ++
      [Logged INFO "Restarting plugin: failing-plugin" None;
       CalledDestroy "failing-plugin";
       Logged ERROR "Plugin restart failed: failing-plugin"
         (Some (PlainError "Cleanup failed"))] /\
    exists e', JsMap.get (plugins m') "failing-plugin" = Some e' /\
               isInitialized e' = true /\
               initialize_calls (plugin e') =
               initialize_calls (plugin stubborn_entry).
Proof.
  split; [vm_compute; reflexivity|]. split; [reflexivity|].
  eexists. split; [vm_compute; reflexivity|]. split; [reflexivity|].
  eexists. split; [vm_compute; reflexivity|]. split; reflexivity.
Qed.

(** ** The health monitor *)

Lemma map_get_In_pair {V} (m : JsMap.t V) (k : string) (v : V) :
  JsMap.get m k = Some v -> In (k, v) m.
Proof.
  induction m as [|[k0 v0] m IH]; simpl; [discriminate|].
  destruct (String.eqb_spec k0 k) as [->|Hne]; intros H.
  - injection H as ->. now left.
  - right. now apply IH.
Qed.

Lemma quiet_since_check_sound (h : Z) (ps : JsMap.t PluginEntry) :
  quiet_since_check h ps = true -> quiet_since h ps.
Proof.
  unfold quiet_since_check. rewrite forallb_forall. intros H x e Hget.
  specialize (H (x, e) (map_get_In_pair ps x e Hget)). simpl in H.
  apply andb_true_iff in H. destruct H as [H1 H2].
  split; [now apply Z.eqb_eq | now apply Z.leb_le].
Qed.

Lemma distinct_NoDup (l : list string) : distinct l = true -> NoDup l.
Proof.
  induction l as [|x l IH]; simpl; intros H; [constructor|].
  apply andb_true_iff in H. destruct H as [H1 H2].
  constructor; [|now apply IH].
  intros Hin. apply set_has_In in Hin. unfold JsSet.has in Hin.
  rewrite Hin in H1. discriminate.
Qed.

Lemma monitor_entries_quiet (names : list string) :
  forall m,
    (forall x e, JsMap.get (plugins m) x = Some e ->
                 errorCount (metrics e) <= 10) ->
    monitor_entries names m =
    mkManager (plugins m) (dependencies m) (now m) (nextTick m)
              (events m ++ due_warnings (now m) (plugins m) names).
Proof.
  induction names as [|name names IH]; intros m Hquiet.
  - simpl. rewrite app_nil_r. now destruct m.
  - cbn [monitor_entries due_warnings flat_map].
    destruct (JsMap.get (plugins m) name) as [e|] eqn:Hget.
    + assert (Hec : (errorCount (metrics e) >? 10) = false).
      { rewrite Z.gtb_ltb. apply Z.ltb_ge. exact (Hquiet name e Hget). }
      rewrite Hec. unfold heartbeat_check.
      destruct (now m - lastHeartbeat (metrics e) >? 30000).
      * rewrite IH by exact Hquiet. simpl.
        unfold due_warnings, heartbeat_warning. now rewrite <- app_assoc.
      * now rewrite IH by exact Hquiet.
    + now rewrite IH by exact Hquiet.
Qed.

Lemma due_warnings_since (t h : Z) (ps : JsMap.t PluginEntry)
    (names : list string) :
  quiet_since h ps -> (forall x, In x names -> In x (JsMap.keys ps)) ->
  due_warnings t ps names =
  if t - h >? 30000 then map heartbeat_warning names else [].
Proof.
  intros Hq. induction names as [|name names IH]; intros Hin.
  - simpl. now destruct (t - h >? 30000).
  - cbn [due_warnings flat_map].
    destruct (proj2 (map_get_In ps name) (Hin name (or_introl eq_refl)))
      as [e Hget].
    rewrite Hget. destruct (Hq name e Hget) as [-> _].
    fold (due_warnings t ps names).
    rewrite IH by (intros x Hx; apply Hin; now right).
    now destruct (t - h >? 30000).
Qed.

(** A firing of the timer over a quiet registry only writes warnings. *)
Lemma fire_quiet (h : Z) (m : Manager) :
  quiet_since h (plugins m) ->
  fire m =
  mkManager (plugins m) (dependencies m) (nextTick m)
            (nextTick m + monitor_period)
            (events m ++
             if nextTick m - h >? 30000
             then map heartbeat_warning (JsMap.keys (plugins m)) else []).
Proof.
  intros Hq. unfold fire, tick.
  rewrite monitor_entries_quiet by (intros x e Hget; apply (Hq x e Hget)).
  simpl. now rewrite (due_warnings_since _ h) by (assumption || auto).
Qed.

Lemma warnings_for_all (x : string) (names : list string) :
  NoDup names -> In x names ->
  warnings_for x (map heartbeat_warning names) = 1%nat.
Proof.
  unfold warnings_for. induction names as [|y names IH]; intros Hnd Hin.
  - contradiction.
  - inversion Hnd as [|? ? Hnotin Hrest]; subst.
    assert (Heq : is_heartbeat_warning x (heartbeat_warning y) = String.eqb y x)
      by reflexivity.
    cbn [map filter]. rewrite Heq.
    destruct (String.eqb_spec y x) as [->|Hne].
    + simpl. f_equal.
      assert (Hnone : forall l, ~ In x l ->
                filter (is_heartbeat_warning x) (map heartbeat_warning l) = []).
      { induction l as [|z l IHl]; intros Hz; [reflexivity|].
        cbn [map filter].
        assert (Hz' : is_heartbeat_warning x (heartbeat_warning z)
                      = String.eqb z x) by reflexivity.
        rewrite Hz'. destruct (String.eqb_spec z x) as [->|_].
        - exfalso. apply Hz. now left.
        - apply IHl. intros H. apply Hz. now right. }
      now rewrite Hnone.
    + apply IH; [assumption|]. destruct Hin as [-> | Hin]; [congruence|assumption].
Qed.

Lemma run_due_quiet_step (fuel : nat) (target h : Z) (m : Manager) :
  quiet_since h (plugins m) -> nextTick m <= target ->
  run_due (S fuel) target m =
  run_due fuel target
    (mkManager (plugins m) (dependencies m) (nextTick m)
               (nextTick m + monitor_period)
               (events m ++
                if nextTick m - h >? 30000
                then map heartbeat_warning (JsMap.keys (plugins m)) else [])).
Proof.
  intros Hq Hle. cbn [run_due].
  rewrite (proj2 (Z.leb_le _ _) Hle). now rewrite (fire_quiet h m Hq).
Qed.

Lemma run_due_stop (fuel : nat) (target : Z) (m : Manager) :
  target < nextTick m -> run_due fuel target m = m.
Proof.
  intros Hlt. destruct fuel; [reflexivity|]. cbn [run_due].
  now rewrite (proj2 (Z.leb_gt _ _) Hlt).
Qed.

Ltac decide_thresholds :=
  repeat match goal with
         | |- context [?a >? 30000] =>
             first
               [ replace (a >? 30000) with false
                   by (symmetry; rewrite Z.gtb_ltb; apply Z.ltb_ge; lia)
               | replace (a >? 30000) with true
                   by (symmetry; rewrite Z.gtb_ltb; apply Z.ltb_lt; lia) ]
         end.

(** The monitor over 31,000 ms, from a state with distinct ids and the
    timer due within one period, in which every plugin has its heartbeat at
    the current clock value and at most 10 errors. *)
Lemma heartbeat_warnings_after_31000 (m : Manager) :
  now m < nextTick m <= now m + monitor_period ->
  NoDup (JsMap.keys (plugins m)) ->
  quiet_since (now m) (plugins m) ->
  exists evs,
    advanceTimersByTime 31000 m =
      mkManager (plugins m) (dependencies m) (now m + 31000)
        (nextTick m + (if nextTick m - now m <=? 1000 then 40000 else 30000))
        (events m ++ evs) /\
    Forall (fun ev => exists x, registered m x /\ ev = heartbeat_warning x) evs
    /\
    forall x, registered m x ->
      warnings_for x evs =
      if nextTick m - now m <=? 1000 then 1%nat else 0%nat.
Proof.
  unfold monitor_period. intros [Hlt Hle] Hnd Hq.
  unfold advanceTimersByTime.
  change (S (Z.to_nat (31000 / monitor_period))) with 4%nat.
  rewrite (run_due_quiet_step 3 _ (now m) m Hq) by lia.
  rewrite (run_due_quiet_step 2 _ (now m)) by (simpl; unfold monitor_period; (exact Hq || lia)).
  rewrite (run_due_quiet_step 1 _ (now m)) by (simpl; unfold monitor_period; (exact Hq || lia)).
  unfold monitor_period. cbn [plugins dependencies now nextTick events].
  destruct (Z.leb_spec (nextTick m - now m) 1000) as [Hnear | Hfar].
  - rewrite (run_due_quiet_step 0 _ (now m)) by (simpl; unfold monitor_period; (exact Hq || lia)).
    unfold monitor_period. cbn [run_due plugins dependencies now nextTick events].
    decide_thresholds. rewrite !app_nil_r.
    exists (map heartbeat_warning (JsMap.keys (plugins m))).
    split; [f_equal; lia|]. split.
    + apply Forall_forall. intros ev Hev. apply in_map_iff in Hev.
      destruct Hev as (x & <- & Hx). now exists x.
    + intros x Hx. now apply warnings_for_all.
  - rewrite run_due_stop by (simpl; unfold monitor_period; lia).
    cbn [plugins dependencies now nextTick events].
    decide_thresholds. rewrite !app_nil_r.
    exists []. rewrite app_nil_r.
    split; [f_equal; lia|]. split; [constructor | reflexivity].
Qed.

(** C7: the scenario of the health test.  The manager is constructed and
    test-plugin is registered at the same clock value, the plugins are
    initialized, and 31,000 ms pass with no heartbeat refresh.  The
    heartbeat is then 31,000 ms old, which is more than 30,000 ms; yet the
    firings at 10,000, 20,000 and 30,000 ms each saw at most 30,000 ms
    elapsed, and the monitor has logged nothing: there is no heartbeat
    warning for test-plugin where one is due. *)
Theorem health_test_logs_no_warning :
  let m' := advanceTimersByTime 31000 health_test_registry in
  registered health_test_registry "test-plugin" /\
  (exists e, JsMap.get (plugins m') "test-plugin" = Some e /\
             now m' - lastHeartbeat (metrics e) = 31000) /\
  events m' = events health_test_registry /\
  warnings_for "test-plugin" (events m') = 0%nat.
Proof.
  cbv zeta. split; [apply map_has_In; vm_compute; reflexivity|].
  split; [eexists; split; vm_compute; reflexivity|].
  split; vm_compute; reflexivity.
Qed.

(** ** Nothing lowers the error count *)

Lemma accounted_refl (m : Manager) : accounted m m.
Proof.
  exists []. rewrite app_nil_r. split; [reflexivity|].
  intros x e H. exists e. split; [assumption|].
  split; [apply entry_grows_refl | unfold failures_of; simpl; lia].
Qed.

Lemma accounted_trans (m1 m2 m3 : Manager) :
  accounted m1 m2 -> accounted m2 m3 -> accounted m1 m3.
Proof.
  intros (evs1 & E1 & H12) (evs2 & E2 & H23). exists (evs1 ++ evs2).
  split; [now rewrite E2, E1, app_assoc|].
  intros x e3 H3. destruct (H23 x e3 H3) as (e2 & H2 & G23 & C23).
  destruct (H12 x e2 H2) as (e1 & H1 & G12 & C12). exists e1.
  split; [assumption|]. split; [eapply entry_grows_trans; eassumption|].
  rewrite failures_of_app. lia.
Qed.

(** Steps that leave the plugin map alone and make no attempt. *)
Lemma accounted_quiet (m m' : Manager) (evs : list Event) :
  plugins m' = plugins m -> events m' = events m ++ evs ->
  (forall x, failures_of x evs = 0) -> accounted m m'.
Proof.
  intros P E Hz. exists evs. split; [assumption|].
  intros x e H. rewrite P in H. exists e. split; [assumption|].
  split; [apply entry_grows_refl | rewrite Hz; lia].
Qed.

Lemma accounted_events (m m' : Manager) :
  accounted m m' -> exists evs, events m' = events m ++ evs.
Proof. intros (evs & E & _). now exists evs. Qed.

Lemma failures_of_recovery_log (x : string) (s : RecoveryStrategy)
    (name : string) :
  failures_of x [recovery_log s name] = 0.
Proof. destruct s; reflexivity. Qed.

Lemma failures_of_destroy_calls (x name : string) (evs : list Event) :
  (forall ev, In ev evs -> ev = CalledDestroy name) -> failures_of x evs = 0.
Proof.
  induction evs as [|ev evs IH]; intros H; [reflexivity|].
  rewrite failures_of_cons, IH by (intros ev' Hin; apply H; now right).
  now rewrite (H ev (or_introl eq_refl)).
Qed.

Lemma init_run_accounted (names : list string) (m m' : Manager) :
  init_run names m m' -> accounted m m'.
Proof.
  intros [_ _ _ Hkeys _ Hkeeps (evs & E & _ & _ & Hcount)].
  exists evs. split; [assumption|]. intros x e' Hget.
  assert (Hin : In x (JsMap.keys (plugins m))).
  { rewrite <- Hkeys. apply map_get_In. now exists e'. }
  apply map_get_In in Hin. destruct Hin as [e He].
  destruct (Hkeeps x e He) as (e'' & He'' & Hg & _).
  exists e. split; [assumption|].
  assert (e'' = e') by congruence. subst e''.
  split; [assumption | now apply Hcount].
Qed.

Lemma same_registration_grows (e e' : PluginEntry) :
  same_registration e e' -> entry_grows e e'.
Proof.
  intros (Hc & _ & Hm). unfold entry_grows. rewrite Hc, Hm.
  repeat split; lia.
Qed.

Lemma recovery_effect_accounted (name : string) (first : Event)
    (m m' : Manager) :
  recovery_effect name first m m' -> accounted m m'.
Proof.
  intros [Hframe (evs & E & Hothers & Hown)]. exists (first :: evs).
  split; [assumption|]. intros x e' Hget.
  destruct (String.eqb_spec x name) as [->|Hne].
  - now apply Hown.
  - rewrite (Hframe x Hne) in Hget. exists e'. split; [assumption|].
    split; [apply entry_grows_refl | rewrite (Hothers x Hne); lia].
Qed.

(** The shape shared by the three recovery actions: the start is logged,
    [destroy] may be called, [initializePlugin] may run for the same plugin
    from an entry with the same configuration and metrics, and an error may
    be logged at the end. *)
Lemma recovery_effect_intro (name : string) (s : RecoveryStrategy)
    (e e0 e4 : PluginEntry) (m m3 m4 m5 : Manager)
    (evs_d evs_t : list Event) :
  JsMap.get (plugins m) name = Some e ->
  (forall k, k <> name -> JsMap.get (plugins m3) k = JsMap.get (plugins m) k) ->
  events m3 = events m ++ recovery_log s name :: evs_d ->
  (forall ev, In ev evs_d -> ev = CalledDestroy name) ->
  entry_grows e e0 ->
  errorCount (metrics e0) = errorCount (metrics e) ->
  init_effect name e0 e4 m3 m4 ->
  plugins m5 = plugins m4 ->
  events m5 = events m4 ++ evs_t ->
  (forall x, failures_of x evs_t = 0) ->
  recovery_effect name (recovery_log s name) m m5.
Proof.
  intros Hget Hframe E3 Hd Hg0 Hc0
         [_ _ _ P4 G4 _ (evs4 & E4 & Hall & _ & C4)] P5 E5 Ht.
  assert (Hsplit : forall x,
            failures_of x (recovery_log s name :: evs_d ++ evs4 ++ evs_t)
            = failures_of x evs4).
  { intros x.
    change (recovery_log s name :: evs_d ++ evs4 ++ evs_t)
      with ([recovery_log s name] ++ evs_d ++ evs4 ++ evs_t).
    rewrite !failures_of_app, failures_of_recovery_log,
      (failures_of_destroy_calls x name evs_d Hd), Ht. lia. }
  constructor.
  - intros k Hk. rewrite P5, P4, (map_get_set_other _ _ _ _ Hk).
    now apply Hframe.
  - exists (evs_d ++ evs4 ++ evs_t). split; [|split].
    + rewrite E5, E4, E3, <- !app_assoc. reflexivity.
    + intros k Hk. rewrite Hsplit. now apply (failures_of_other name).
    + intros e5 H5. rewrite P5, P4, map_get_set_same in H5.
      injection H5 as <-. exists e. split; [assumption|].
      split; [eapply entry_grows_trans; eassumption|].
      rewrite Hsplit. lia.
Qed.

Lemma recovery_effect_unregistered (name : string) (s : RecoveryStrategy)
    (m m' : Manager) (evs_t : list Event) :
  JsMap.get (plugins m) name = None ->
  plugins m' = plugins m ->
  events m' = events m ++ recovery_log s name :: evs_t ->
  (forall x, failures_of x evs_t = 0) ->
  recovery_effect name (recovery_log s name) m m'.
Proof.
  intros Hnone P E Ht. constructor.
  - intros k _. now rewrite P.
  - exists evs_t. split; [assumption|]. split.
    + intros k _.
      change (recovery_log s name :: evs_t)
        with ([recovery_log s name] ++ evs_t).
      rewrite failures_of_app, failures_of_recovery_log, Ht. reflexivity.
    + intros e' H. rewrite P, Hnone in H. discriminate.
Qed.

Lemma restartPlugin_effect (name : string) (m : Manager) :
  recovery_effect name (recovery_log restart name) m
    (snd (restartPlugin name m)).
Proof.
  unfold restartPlugin.
  set (m1 := logger_info ("Restarting plugin: " ++ name)%string m).
  assert (E1 : events m1 = events m ++ [recovery_log restart name])
    by reflexivity.
  assert (P1 : plugins m1 = plugins m) by reflexivity.
  destruct (JsMap.get (plugins m1) name) as [e|] eqn:Hget1.
  2:{ cbn [snd].
      apply (recovery_effect_unregistered name restart m _
               [Logged ERROR ("Plugin restart failed: " ++ name)%string
                  (Some undefinedEntry)]);
        [assumption | reflexivity | | intros x; reflexivity].
      rewrite events_logger_error, E1, <- app_assoc. reflexivity. }
  destruct (attempt_destroy_cases name e m1)
    as (e' & m2 & -> & Hsame & _ & Hown & Hother & evs & Hevs & Hkind).
  destruct (Hown Hget1) as [Hget2 _].
  assert (Hframe2 : forall k, k <> name ->
            JsMap.get (plugins m2) k = JsMap.get (plugins m) k)
    by (intros k Hk; now rewrite (Hother k Hk), P1).
  assert (E2 : events m2 = events m ++ recovery_log restart name :: evs)
    by (rewrite Hevs, E1, <- app_assoc; reflexivity).
  destruct (destroy_outcome e) as [reason|].
  - cbn [snd].
    apply (recovery_effect_intro name restart e e' e' m m2 m2 _ evs
             [Logged ERROR ("Plugin restart failed: " ++ name)%string
                (Some reason)]); try assumption.
    + now apply same_registration_grows.
    + destruct Hsame as (_ & _ & Hm). now rewrite Hm.
    + now apply init_effect_refl.
    + reflexivity.
    + reflexivity.
    + intros x. reflexivity.
  - set (e0 := set_isInitialized false e').
    set (m3 := write_entry name e0 m2).
    assert (Hget3 : JsMap.get (plugins m3) name = Some e0)
      by apply map_get_set_same.
    destruct (initializePlugin name m3) as [r m4] eqn:Einit.
    destruct (initializePlugin_effect name m3 e0 r m4 Hget3 Einit)
      as [e4 Heff].
    assert (Hintro : forall m5 evs_t,
              plugins m5 = plugins m4 -> events m5 = events m4 ++ evs_t ->
              (forall x, failures_of x evs_t = 0) ->
              recovery_effect name (recovery_log restart name) m m5).
    { intros m5 evs_t P5 E5 Ht.
      apply (recovery_effect_intro name restart e e0 e4 m m3 m4 m5 evs evs_t);
        try assumption.
      - intros k Hk. unfold m3. simpl.
        rewrite (map_get_set_other _ _ _ _ Hk). now apply Hframe2.
      - exact (same_registration_grows e e' Hsame).
      - destruct Hsame as (_ & _ & Hm). unfold e0. simpl. now rewrite Hm. }
    destruct r as [u | error |]; cbn [snd].
    + apply (Hintro m4 []); [reflexivity | now rewrite app_nil_r | reflexivity].
    + apply (Hintro _ [Logged ERROR ("Plugin restart failed: " ++ name)%string
                         (Some error)]); reflexivity.
    + apply (Hintro m4 []); [reflexivity | now rewrite app_nil_r | reflexivity].
Qed.

Lemma failoverPlugin_effect (name : string) (m : Manager) :
  recovery_effect name (recovery_log failover name) m
    (snd (failoverPlugin name m)).
Proof.
  unfold failoverPlugin. cbn [snd]. constructor.
  - reflexivity.
  - exists []. split; [reflexivity|]. split.
    + intros k _. reflexivity.
    + intros e' H. exists e'. split; [exact H|].
      split; [apply entry_grows_refl|].
      rewrite (failures_of_recovery_log name failover name). lia.
Qed.

Lemma terminatePlugin_effect (name : string) (m : Manager) :
  recovery_effect name (recovery_log terminate name) m
    (snd (terminatePlugin name m)).
Proof.
  unfold terminatePlugin.
  set (m1 := logger_info ("Terminating plugin: " ++ name)%string m).
  assert (E1 : events m1 = events m ++ [recovery_log terminate name])
    by reflexivity.
  assert (P1 : plugins m1 = plugins m) by reflexivity.
  destruct (JsMap.get (plugins m1) name) as [e|] eqn:Hget1.
  2:{ cbn [snd].
      apply (recovery_effect_unregistered name terminate m _
               [Logged ERROR ("Plugin termination failed: " ++ name)%string
                  (Some undefinedEntry)]);
        [assumption | reflexivity | | intros x; reflexivity].
      rewrite events_logger_error, E1, <- app_assoc. reflexivity. }
  destruct (attempt_destroy_cases name e m1)
    as (e' & m2 & -> & Hsame & _ & Hown & Hother & evs & Hevs & Hkind).
  destruct (Hown Hget1) as [Hget2 _].
  assert (Hframe2 : forall k, k <> name ->
            JsMap.get (plugins m2) k = JsMap.get (plugins m) k)
    by (intros k Hk; now rewrite (Hother k Hk), P1).
  assert (E2 : events m2 = events m ++ recovery_log terminate name :: evs)
    by (rewrite Hevs, E1, <- app_assoc; reflexivity).
  destruct (destroy_outcome e) as [reason|]; cbn [snd].
  - apply (recovery_effect_intro name terminate e e' e' m m2 m2 _ evs
             [Logged ERROR ("Plugin termination failed: " ++ name)%string
                (Some reason)]); try assumption.
    + now apply same_registration_grows.
    + destruct Hsame as (_ & _ & Hm). now rewrite Hm.
    + now apply init_effect_refl.
    + reflexivity.
    + reflexivity.
    + intros x. reflexivity.
  - constructor; simpl.
    + intros k Hk. rewrite (map_get_delete_other _ _ _ Hk). now apply Hframe2.
    + exists evs. split; [exact E2|]. split.
      * intros k _.
        rewrite failures_of_cons, (failures_of_destroy_calls k name evs Hkind).
        reflexivity.
      * intros e0 H0. rewrite map_get_delete_same in H0. discriminate.
Qed.

Lemma handlePluginFailure_effect (name : string) (e : PluginEntry)
    (m : Manager) :
  recovery_effect name
    (recovery_log (recoveryStrategy (errorHandling (config e))) name) m
    (snd (handlePluginFailure name e m)).
Proof.
  unfold handlePluginFailure.
  destruct (recoveryStrategy (errorHandling (config e))).
  - apply restartPlugin_effect.
  - apply failoverPlugin_effect.
  - apply terminatePlugin_effect.
Qed.

Lemma heartbeat_check_accounted (name : string) (e : PluginEntry)
    (m : Manager) :
  plugins (heartbeat_check name e m) = plugins m /\
  accounted m (heartbeat_check name e m).
Proof.
  unfold heartbeat_check. destruct (_ >? _).
  - split; [reflexivity|].
    apply (accounted_quiet _ _ [heartbeat_warning name]); reflexivity.
  - split; [reflexivity | apply accounted_refl].
Qed.

Lemma monitor_entries_accounted (names : list string) :
  forall m, accounted m (monitor_entries names m).
Proof.
  induction names as [|name names IH]; intros m; [apply accounted_refl|].
  cbn [monitor_entries]. destruct (JsMap.get (plugins m) name) as [e|];
    [|apply IH].
  destruct (heartbeat_check_accounted name e m) as [_ H1].
  destruct (errorCount (metrics e) >? 10).
  - eapply accounted_trans; [exact H1|].
    eapply accounted_trans; [|apply IH].
    eapply recovery_effect_accounted. apply handlePluginFailure_effect.
  - eapply accounted_trans; [exact H1 | apply IH].
Qed.

(** A tick dispatches recovery for every registered plugin that has more
    than 10 errors. *)
Lemma monitor_entries_dispatch (names : list string) :
  forall m x e,
    In x names -> JsMap.get (plugins m) x = Some e ->
    10 < errorCount (metrics e) ->
    exists evs,
      events (monitor_entries names m) = events m ++ evs /\
      In (recovery_log (recoveryStrategy (errorHandling (config e))) x) evs.
Proof.
  induction names as [|name names IH]; intros m x e Hin Hget Hec;
    [contradiction|].
  cbn [monitor_entries]. destruct (String.eqb_spec name x) as [->|Hne].
  - rewrite Hget.
    assert (Hgt : (errorCount (metrics e) >? 10) = true)
      by (rewrite Z.gtb_ltb; now apply Z.ltb_lt).
    rewrite Hgt.
    destruct (heartbeat_check_accounted x e m) as [_ H1].
    apply accounted_events in H1. destruct H1 as [evs1 E1].
    destruct (handlePluginFailure_effect x e (heartbeat_check x e m))
      as [_ (evs2 & E2 & _)].
    destruct (accounted_events _ _
                (monitor_entries_accounted names
                   (snd (handlePluginFailure x e (heartbeat_check x e m)))))
      as [evs3 E3].
    exists (evs1 ++
            recovery_log (recoveryStrategy (errorHandling (config e))) x
            :: evs2 ++ evs3).
    split.
    + rewrite E3, E2, E1, <- !app_assoc. simpl. now rewrite <- ?app_assoc.
    + apply in_or_app. right. now left.
  - assert (Hin' : In x names) by (destruct Hin; [contradiction | assumption]).
    destruct (JsMap.get (plugins m) name) as [en|]; [|now apply IH].
    destruct (heartbeat_check_accounted name en m) as [P1 H1].
    apply accounted_events in H1. destruct H1 as [evs1 E1].
    set (m1 := heartbeat_check name en m) in *.
    assert (Hget1 : JsMap.get (plugins m1) x = Some e) by now rewrite P1.
    destruct (errorCount (metrics en) >? 10).
    + destruct (handlePluginFailure_effect name en m1)
        as [Hframe (evs2 & E2 & _)].
      set (m2 := snd (handlePluginFailure name en m1)) in *.
      assert (Hget2 : JsMap.get (plugins m2) x = Some e).
      { rewrite (Hframe x); [assumption|]. intros ->. now apply Hne. }
      destruct (IH m2 x e Hin' Hget2 Hec) as (evs3 & E3 & Hin3).
      eexists. split.
      * rewrite E3, E2, E1, <- !app_assoc. reflexivity.
      * apply in_or_app. right. right. apply in_or_app. now right.
    + destruct (IH m1 x e Hin' Hget1 Hec) as (evs3 & E3 & Hin3).
      eexists. split.
      * rewrite E3, E1, <- !app_assoc. reflexivity.
      * apply in_or_app. now right.
Qed.

Lemma fire_accounted (m : Manager) : accounted m (fire m).
Proof.
  unfold fire, tick.
  eapply accounted_trans; [|apply monitor_entries_accounted].
  apply (accounted_quiet _ _ []);
    [reflexivity | simpl; now rewrite app_nil_r | reflexivity].
Qed.

Lemma fire_dispatch (m : Manager) (x : string) (e : PluginEntry) :
  JsMap.get (plugins m) x = Some e -> 10 < errorCount (metrics e) ->
  exists evs,
    events (fire m) = events m ++ evs /\
    In (recovery_log (recoveryStrategy (errorHandling (config e))) x) evs.
Proof.
  intros Hget Hec. unfold fire, tick.
  set (m1 := mkManager (plugins m) (dependencies m) (nextTick m)
                       (nextTick m + monitor_period) (events m)).
  change (events m) with (events m1).
  apply (monitor_entries_dispatch _ m1 x e); [|exact Hget|exact Hec].
  apply map_get_In. now exists e.
Qed.

Lemma run_due_accounted (target : Z) (fuel : nat) :
  forall m, accounted m (run_due fuel target m).
Proof.
  induction fuel as [|fuel IH]; intros m; [apply accounted_refl|].
  cbn [run_due]. destruct (nextTick m <=? target); [|apply accounted_refl].
  eapply accounted_trans; [apply fire_accounted | apply IH].
Qed.

Lemma advanceTimersByTime_accounted (ms : Z) (m : Manager) :
  accounted m (advanceTimersByTime ms m).
Proof.
  unfold advanceTimersByTime.
  eapply accounted_trans; [apply run_due_accounted|].
  apply (accounted_quiet _ _ []);
    [reflexivity | simpl; now rewrite app_nil_r | reflexivity].
Qed.

Lemma initializePlugins_accounted (m : Manager) :
  accounted m (snd (initializePlugins m)).
Proof.
  unfold initializePlugins.
  destruct (resolveInitializationOrder m) as [order | error |];
    try apply accounted_refl.
  destruct (initializeInOrder order m) as [r m'] eqn:E.
  apply initializeInOrder_run in E. now apply init_run_accounted in E.
Qed.

Lemma initializePlugins_returns_or_throws (m : Manager) :
  fst (initializePlugins m) <> OutOfFuel.
Proof.
  unfold initializePlugins. pose proof (resolve_cases m) as H.
  destruct (resolveInitializationOrder m) as [order | error |];
    [apply initializeInOrder_returns_or_throws | discriminate | contradiction].
Qed.

(** A registration leaves the entries that are already there alone. *)
Lemma registerPlugin_preserves (name : string) (p : Plugin) (cfg : PluginConfig)
    (m : Manager) (x : string) (e : PluginEntry) :
  JsMap.get (plugins m) x = Some e ->
  JsMap.get (plugins (snd (registerPlugin name p cfg m))) x = Some e /\
  exists evs,
    events (snd (registerPlugin name p cfg m)) = events m ++ evs /\
    failures_of x evs = 0.
Proof.
  intros Hget.
  assert (Hnone : exists evs, events m = events m ++ evs /\
                              failures_of x evs = 0)
    by (exists []; now rewrite app_nil_r).
  unfold registerPlugin, validatePluginConfig.
  destruct (JsMap.has (plugins m) name) eqn:Hhas; [now split|].
  destruct (match cfg_dependencies cfg with
            | Some deps => existsb falsy deps
            | None => false
            end); [now split|].
  assert (Hne : x <> name).
  { intros ->. unfold JsMap.has in Hhas. now rewrite Hget in Hhas. }
  cbn [snd]. unfold logger_info. rewrite plugins_log. split.
  - destruct (dependencies_of_config (normalizeConfig cfg)); simpl;
      now rewrite (map_get_set_other _ _ _ _ Hne).
  - exists [Logged INFO ("Registered plugin: " ++ name)%string None].
    split; [|reflexivity].
    destruct (dependencies_of_config (normalizeConfig cfg)); reflexivity.
Qed.

(** What any single operation does to an entry it does not remove. *)
Lemma run_tracks (op : Operation) (m : Manager) (x : string)
    (e e' : PluginEntry) :
  JsMap.get (plugins m) x = Some e ->
  JsMap.get (plugins (run op m)) x = Some e' ->
  exists evs,
    events (run op m) = events m ++ evs /\ entry_grows e e' /\
    errorCount (metrics e') = errorCount (metrics e) + failures_of x evs.
Proof.
  intros Hget Hget'.
  assert (Hd : accounted m (run op m) ->
               exists evs,
                 events (run op m) = events m ++ evs /\ entry_grows e e' /\
                 errorCount (metrics e') =
                 errorCount (metrics e) + failures_of x evs).
  { intros (evs & E & Hd). destruct (Hd x e' Hget') as (e0 & H0 & Hg & Hc).
    exists evs. assert (e0 = e) by congruence. subst e0. auto. }
  destruct op as [name p cfg | | name | | ms | name | name | name]; simpl in *.
  - destruct (registerPlugin_preserves name p cfg m x e Hget)
      as [Hsame (evs & E & Hz)].
    rewrite Hsame in Hget'. injection Hget' as <-. exists evs.
    split; [assumption|]. split; [apply entry_grows_refl | lia].
  - apply Hd, initializePlugins_accounted.
  - apply Hd. destruct (initializePlugin name m) as [r m'] eqn:E.
    apply initializePlugin_run in E. now apply init_run_accounted in E.
  - apply Hd, fire_accounted.
  - apply Hd, advanceTimersByTime_accounted.
  - apply Hd. eapply recovery_effect_accounted. apply restartPlugin_effect.
  - apply Hd. eapply recovery_effect_accounted. apply failoverPlugin_effect.
  - apply Hd. eapply recovery_effect_accounted. apply terminatePlugin_effect.
Qed.

Lemma registered_along_check_sound (x : string) (ops : list Operation) :
  forall m, registered_along_check x ops m = true -> registered_along x ops m.
Proof.
  induction ops as [|op ops IH]; intros m H; simpl in *; [exact I|].
  apply andb_true_iff in H. destruct H as [H1 H2].
  split; [now apply map_has_In | now apply IH].
Qed.

(** C10: take any sequence of operations of the manager after each of which
    the id [x] is registered.  At the end the entry of [x] has the same
    configuration and heartbeat, and its error count is the one at the
    start plus the number of failed initialization attempts made for [x]
    meanwhile: nothing else writes to it, and it never goes down.  So if
    the count exceeded 10 at the start it exceeds 10 at the end, and the
    next firing of the monitor dispatches the recovery strategy of the
    plugin again. *)
Theorem errorCount_never_decreases (ops : list Operation) :
  forall (m : Manager) (x : string) (e : PluginEntry),
    JsMap.get (plugins m) x = Some e ->
    registered_along x ops m ->
    exists e' evs,
      JsMap.get (plugins (run_all ops m)) x = Some e' /\
      events (run_all ops m) = events m ++ evs /\
      entry_grows e e' /\
      errorCount (metrics e') = errorCount (metrics e) + failures_of x evs /\
      (10 < errorCount (metrics e) ->
       10 < errorCount (metrics e') /\
       exists evs',
         events (fire (run_all ops m)) = events (run_all ops m) ++ evs' /\
         In (recovery_log (recoveryStrategy (errorHandling (config e'))) x)
            evs').
Proof.
  induction ops as [|op ops IH]; intros m x e Hget Halong.
  - exists e, []. split; [exact Hget|]. split; [now rewrite app_nil_r|].
    split; [apply entry_grows_refl|].
    split; [unfold failures_of; simpl; lia|].
    intros Hec. split; [exact Hec|]. now apply fire_dispatch.
  - destruct Halong as [Hreg Halong]. simpl.
    apply map_get_In in Hreg. destruct Hreg as [e1 Hget1].
    destruct (run_tracks op m x e e1 Hget Hget1) as (evs1 & E1 & Hg1 & C1).
    destruct (IH (run op m) x e1 Hget1 Halong)
      as (e' & evs2 & Hget' & E2 & Hg' & C2 & Hrest).
    exists e', (evs1 ++ evs2). split; [exact Hget'|].
    split; [now rewrite E2, E1, app_assoc|].
    split; [eapply entry_grows_trans; eassumption|].
    split; [rewrite failures_of_app; lia|].
    intros Hec. apply Hrest. destruct Hg1 as (_ & _ & _ & Hle). lia.
Qed.

Lemma errorCount_never_decreases_witness :
  exists e' evs,
    JsMap.get (plugins (run_all [Fire; InitializeAll; Advance 20000]
                          worn_registry)) "p" = Some e' /\
    events (run_all [Fire; InitializeAll; Advance 20000] worn_registry) =
      events worn_registry ++ evs /\
    entry_grows worn_entry e' /\
    errorCount (metrics e') =
      errorCount (metrics worn_entry) + failures_of "p" evs /\
    (10 < errorCount (metrics worn_entry) ->
     10 < errorCount (metrics e') /\
     exists evs',
       events (fire (run_all [Fire; InitializeAll; Advance 20000]
                       worn_registry)) =
       events (run_all [Fire; InitializeAll; Advance 20000] worn_registry)
       ++ evs' /\
       In (recovery_log (recoveryStrategy (errorHandling (config e'))) "p")
          evs').
Proof.
  apply errorCount_never_decreases.
  - vm_compute. reflexivity.
  - apply registered_along_check_sound. vm_compute. reflexivity.
Defined.

(** * Further properties of the manager *)

(** ** More on sets and maps *)

Lemma set_fold_add_In (l : list string) :
  forall acc x, In x (fold_left JsSet.add l acc) <-> In x acc \/ In x l.
Proof.
  induction l as [|y l IH]; intros acc x; simpl; [tauto|].
  rewrite IH, set_add_In. split.
  - intros [[H | ->] | H]; auto.
  - intros [H | [<- | H]]; auto.
Qed.

Lemma set_add_NoDup (s : JsSet.t) (x : string) :
  NoDup s -> NoDup (JsSet.add s x).
Proof.
  intros H. unfold JsSet.add. destruct (JsSet.has s x) eqn:E; [assumption|].
  apply set_has_false in E. apply NoDup_app; [assumption | repeat constructor; simpl; tauto |].
  intros y Hy [<- | []]. contradiction.
Qed.

Lemma set_fold_add_NoDup (l : list string) :
  forall acc, NoDup acc -> NoDup (fold_left JsSet.add l acc).
Proof.
  induction l as [|y l IH]; intros acc H; simpl; [assumption|].
  apply IH. now apply set_add_NoDup.
Qed.

Lemma from_list_In (l : list string) (x : string) :
  In x (JsSet.from_list l) <-> In x l.
Proof. unfold JsSet.from_list. rewrite set_fold_add_In. simpl. tauto. Qed.

Lemma from_list_NoDup (l : list string) : NoDup (JsSet.from_list l).
Proof. apply set_fold_add_NoDup. constructor. Qed.

Lemma map_get_None {V} (m : JsMap.t V) (k : string) :
  JsMap.get m k = None <-> ~ In k (JsMap.keys m).
Proof.
  rewrite <- map_get_In. destruct (JsMap.get m k) as [v|]; split.
  - discriminate.
  - intros H. exfalso. apply H. now exists v.
  - intros _ [v H]. discriminate.
  - reflexivity.
Qed.

Lemma map_keys_set_fresh {V} (m : JsMap.t V) (k : string) (v : V) :
  ~ In k (JsMap.keys m) -> JsMap.keys (JsMap.set m k v) = JsMap.keys m ++ [k].
Proof.
  induction m as [|[k' v'] m IH]; simpl; intros H; [reflexivity|].
  destruct (String.eqb_spec k' k) as [->|Hne]; [tauto|].
  simpl. f_equal. apply IH. tauto.
Qed.

Lemma map_keys_delete {V} (m : JsMap.t V) (k : string) :
  JsMap.keys (JsMap.delete m k) =
  filter (fun k' => negb (String.eqb k' k)) (JsMap.keys m).
Proof.
  induction m as [|[k' v'] m IH]; simpl; [reflexivity|].
  destruct (String.eqb k' k); simpl; [assumption | now f_equal].
Qed.

Lemma map_keys_delete_In {V} (m : JsMap.t V) (k x : string) :
  In x (JsMap.keys (JsMap.delete m k)) <-> In x (JsMap.keys m) /\ x <> k.
Proof.
  rewrite map_keys_delete, filter_In, negb_true_iff, String.eqb_neq. tauto.
Qed.

Lemma map_delete_set_fresh {V} (m : JsMap.t V) (k : string) (v : V) :
  ~ In k (JsMap.keys m) -> JsMap.delete (JsMap.set m k v) k = m.
Proof.
  induction m as [|[k' v'] m IH]; simpl; intros H.
  - now rewrite String.eqb_refl.
  - destruct (String.eqb_spec k' k) as [->|Hne]; [tauto|].
    simpl. apply String.eqb_neq in Hne. rewrite Hne. f_equal. apply IH. tauto.
Qed.

Lemma map_delete_absent {V} (m : JsMap.t V) (k : string) :
  ~ In k (JsMap.keys m) -> JsMap.delete m k = m.
Proof.
  induction m as [|[k' v'] m IH]; simpl; intros H; [reflexivity|].
  destruct (String.eqb_spec k' k) as [->|Hne]; [tauto|].
  f_equal. apply IH. tauto.
Qed.

(** ** Well-formedness is kept *)

Lemma keeps_refl (m : Manager) : keeps m m.
Proof. split; [reflexivity | split; [reflexivity | auto]]. Qed.

Lemma keeps_trans (m1 m2 m3 : Manager) :
  keeps m1 m2 -> keeps m2 m3 -> keeps m1 m3.
Proof.
  intros (A1 & A2 & A3) (B1 & B2 & B3).
  split; [congruence | split; [congruence | auto]].
Qed.

(** Only the events differ. *)
Lemma keeps_same (m m' : Manager) :
  plugins m' = plugins m -> dependencies m' = dependencies m ->
  now m' = now m -> nextTick m' = nextTick m -> keeps m m'.
Proof.
  intros P D N T. split; [assumption|]. split; [assumption|].
  intros [W1 W2 W3 W4 W5 W6 W7].
  constructor; unfold registered, deps_of in *; rewrite ?P, ?D, ?N, ?T;
    assumption.
Qed.

Lemma keeps_log level message error (m : Manager) :
  keeps m (log level message error m).
Proof.
  unfold log. destruct (_ <? _); [apply keeps_refl|]. now apply keeps_same.
Qed.

(** The entry of a registered plugin moves on. *)
Lemma keeps_update (name : string) (e e' : PluginEntry) (m m' : Manager) :
  JsMap.get (plugins m) name = Some e -> entry_grows e e' ->
  plugins m' = JsMap.set (plugins m) name e' ->
  dependencies m' = dependencies m ->
  now m' = now m -> nextTick m' = nextTick m -> keeps m m'.
Proof.
  intros Hget (Hc & Hh & Hw & Hle) P D N T.
  split; [assumption|]. split; [assumption|].
  intros [W1 W2 W3 W4 W5 W6 W7].
  assert (Hin : In name (JsMap.keys (plugins m)))
    by (apply map_get_In; now exists e).
  assert (Hkeys : JsMap.keys (plugins m') = JsMap.keys (plugins m))
    by (rewrite P; now apply map_keys_set_present).
  assert (Hlook : forall x ex', JsMap.get (plugins m') x = Some ex' ->
            exists ex, JsMap.get (plugins m) x = Some ex /\ entry_grows ex ex').
  { intros x ex' Hx. rewrite P in Hx.
    destruct (String.eqb_spec x name) as [->|Hne].
    - rewrite map_get_set_same in Hx. injection Hx as <-. exists e.
      repeat split; assumption.
    - rewrite (map_get_set_other _ _ _ _ Hne) in Hx. exists ex'.
      split; [assumption | apply entry_grows_refl]. }
  constructor; unfold registered, deps_of in *; rewrite ?Hkeys, ?D, ?N, ?T;
    try assumption.
  - intros x ex' Hx. destruct (Hlook x ex' Hx) as (ex & Hex & Hcx & _).
    rewrite Hcx. now apply W5.
  - intros x ex' Hx.
    destruct (Hlook x ex' Hx) as (ex & Hex & _ & Hhx & Hwx & Hlx).
    destruct (W6 x ex Hex) as (A & B & C). rewrite Hhx, Hwx. repeat split; lia.
Qed.

(** A plugin and the dependency set it owns go away. *)
Lemma keeps_remove (name : string) (m m' : Manager) :
  plugins m' = JsMap.delete (plugins m) name ->
  dependencies m' = JsMap.delete (dependencies m) name ->
  now m' = now m -> nextTick m' = nextTick m -> keeps m m'.
Proof.
  intros P D N T. split; [assumption|]. split; [assumption|].
  intros [W1 W2 W3 W4 W5 W6 W7].
  assert (Hlook : forall x ex, JsMap.get (plugins m') x = Some ex ->
            x <> name /\ JsMap.get (plugins m) x = Some ex).
  { intros x ex Hx. rewrite P in Hx.
    destruct (String.eqb_spec x name) as [->|Hne].
    - rewrite map_get_delete_same in Hx. discriminate.
    - now rewrite (map_get_delete_other _ _ _ Hne) in Hx. }
  assert (Hdeps : forall x s, JsMap.get (dependencies m') x = Some s ->
            x <> name /\ JsMap.get (dependencies m) x = Some s).
  { intros x s Hx. rewrite D in Hx.
    destruct (String.eqb_spec x name) as [->|Hne].
    - rewrite map_get_delete_same in Hx. discriminate.
    - now rewrite (map_get_delete_other _ _ _ Hne) in Hx. }
  constructor; unfold registered, deps_of in *; rewrite ?N, ?T;
    try assumption.
  - rewrite P, map_keys_delete. now apply NoDup_filter.
  - rewrite D, map_keys_delete. now apply NoDup_filter.
  - intros x Hx. rewrite D in Hx. rewrite P.
    apply map_keys_delete_In in Hx. apply map_keys_delete_In.
    split; [apply W3|]; tauto.
  - intros x s Hx. apply (W4 x s). now apply Hdeps.
  - intros x ex Hx. destruct (Hlook x ex Hx) as [Hne Hex].
    rewrite D, (map_get_delete_other _ _ _ Hne). now apply W5.
  - intros x ex Hx. apply (W6 x ex). now apply Hlook.
Qed.

Lemma attempt_destroy_keeps (name : string) (e : PluginEntry) (m : Manager) :
  JsMap.get (plugins m) name = Some e ->
  exists e' m',
    attempt_destroy name e m = (destroy_outcome e, e', m') /\
    keeps m m' /\ JsMap.get (plugins m') name = Some e' /\
    same_registration e e'.
Proof.
  intros Hget. unfold attempt_destroy, destroy_outcome.
  destruct (destroy_behaviour (plugin e)) as [behaviour|].
  - set (e1 := set_plugin (called_destroy (plugin e)) e).
    set (m1 := emit (CalledDestroy name) (write_entry name e1 m)).
    assert (H : keeps m m1 /\ JsMap.get (plugins m1) name = Some e1 /\
                same_registration e e1).
    { split; [|split].
      - apply (keeps_update name e e1); try reflexivity; try assumption.
        apply same_registration_grows. repeat split.
      - apply map_get_set_same.
      - repeat split. }
    destruct (behaviour (destroy_calls (plugin e))); exists e1, m1;
      (split; [reflexivity | exact H]).
  - exists e, m. split; [reflexivity|]. split; [apply keeps_refl|].
    split; [assumption | repeat split].
Qed.

Lemma init_effect_keeps (name : string) (e e' : PluginEntry) (m m' : Manager) :
  JsMap.get (plugins m) name = Some e ->
  init_effect name e e' m m' -> keeps m m'.
Proof.
  intros Hget [A1 A2 A3 A4 A5 _ _]. now apply (keeps_update name e e').
Qed.

Lemma initializePlugin_keeps (name : string) (m : Manager) :
  keeps m (snd (initializePlugin name m)).
Proof.
  destruct (initializePlugin name m) as [r m'] eqn:E. cbn [snd].
  destruct (JsMap.get (plugins m) name) as [e|] eqn:Hget.
  - destruct (initializePlugin_effect name m e r m' Hget E) as [e' He].
    eapply init_effect_keeps; eassumption.
  - unfold initializePlugin in E. rewrite Hget in E. injection E as _ <-.
    apply keeps_refl.
Qed.

Lemma initializeInOrder_keeps (names : list string) :
  forall m, keeps m (snd (initializeInOrder names m)).
Proof.
  induction names as [|name names IH]; intros m; [apply keeps_refl|].
  cbn [initializeInOrder].
  pose proof (initializePlugin_keeps name m) as H.
  destruct (initializePlugin name m) as [[u | error |] m1]; cbn [snd] in *;
    try assumption.
  eapply keeps_trans; [exact H | apply IH].
Qed.

Lemma initializePlugins_keeps (m : Manager) :
  keeps m (snd (initializePlugins m)).
Proof.
  unfold initializePlugins.
  destruct (resolveInitializationOrder m); try apply keeps_refl.
  apply initializeInOrder_keeps.
Qed.

Lemma restartPlugin_keeps (name : string) (m : Manager) :
  keeps m (snd (restartPlugin name m)).
Proof.
  unfold restartPlugin.
  set (m1 := logger_info ("Restarting plugin: " ++ name)%string m).
  assert (K1 : keeps m m1) by apply keeps_log.
  destruct (JsMap.get (plugins m1) name) as [e|] eqn:Hget1;
    [| cbn [snd]; eapply keeps_trans; [exact K1 | apply keeps_log]].
  destruct (attempt_destroy_keeps name e m1 Hget1)
    as (e' & m2 & -> & K2 & Hget2 & Hsame).
  destruct (destroy_outcome e) as [reason|]; cbn [snd].
  - eapply keeps_trans; [exact K1|]. eapply keeps_trans; [exact K2|].
    apply keeps_log.
  - set (m3 := write_entry name (set_isInitialized false e') m2).
    assert (K3 : keeps m2 m3).
    { apply (keeps_update name e' (set_isInitialized false e'));
        try reflexivity; try assumption.
        unfold entry_grows. simpl. repeat split; lia. }
    pose proof (initializePlugin_keeps name m3) as K4.
    assert (K : keeps m m3)
      by (eapply keeps_trans; [exact K1 | eapply keeps_trans; eassumption]).
    destruct (initializePlugin name m3) as [[u | error |] m4]; cbn [snd] in *.
    + eapply keeps_trans; eassumption.
    + eapply keeps_trans; [exact K|]. eapply keeps_trans; [exact K4|].
      apply keeps_log.
    + eapply keeps_trans; eassumption.
Qed.

Lemma failoverPlugin_keeps (name : string) (m : Manager) :
  keeps m (snd (failoverPlugin name m)).
Proof. apply keeps_log. Qed.

Lemma terminatePlugin_keeps (name : string) (m : Manager) :
  keeps m (snd (terminatePlugin name m)).
Proof.
  unfold terminatePlugin.
  set (m1 := logger_info ("Terminating plugin: " ++ name)%string m).
  assert (K1 : keeps m m1) by apply keeps_log.
  destruct (JsMap.get (plugins m1) name) as [e|] eqn:Hget1;
    [| cbn [snd]; eapply keeps_trans; [exact K1 | apply keeps_log]].
  destruct (attempt_destroy_keeps name e m1 Hget1)
    as (e' & m2 & -> & K2 & Hget2 & Hsame).
  destruct (destroy_outcome e) as [reason|]; cbn [snd];
    (eapply keeps_trans; [exact K1|]; eapply keeps_trans; [exact K2|]).
  - apply keeps_log.
  - now apply (keeps_remove name).
Qed.

Lemma handlePluginFailure_keeps (name : string) (e : PluginEntry)
    (m : Manager) :
  keeps m (snd (handlePluginFailure name e m)).
Proof.
  unfold handlePluginFailure.
  destruct (recoveryStrategy (errorHandling (config e))).
  - apply restartPlugin_keeps.
  - apply failoverPlugin_keeps.
  - apply terminatePlugin_keeps.
Qed.

Lemma heartbeat_check_keeps (name : string) (e : PluginEntry) (m : Manager) :
  keeps m (heartbeat_check name e m).
Proof.
  unfold heartbeat_check. destruct (_ >? _); [apply keeps_log | apply keeps_refl].
Qed.

Lemma monitor_entries_keeps (names : list string) :
  forall m, keeps m (monitor_entries names m).
Proof.
  induction names as [|name names IH]; intros m; [apply keeps_refl|].
  cbn [monitor_entries].
  destruct (JsMap.get (plugins m) name) as [e|]; [|apply IH].
  pose proof (heartbeat_check_keeps name e m) as K1.
  destruct (errorCount (metrics e) >? 10).
  - eapply keeps_trans; [exact K1|].
    eapply keeps_trans; [apply handlePluginFailure_keeps | apply IH].
  - eapply keeps_trans; [exact K1 | apply IH].
Qed.

(** A firing of the timer: the clock stands at the due time and the next
    firing is due one period later. *)
Lemma fire_clock (m : Manager) :
  now (fire m) = nextTick m /\
  nextTick (fire m) = nextTick m + monitor_period /\
  (well_formed m -> well_formed (fire m)).
Proof.
  unfold fire.
  set (m1 := mkManager (plugins m) (dependencies m) (nextTick m)
                       (nextTick m + monitor_period) (events m)).
  destruct (monitor_entries_keeps (JsMap.keys (plugins m1)) m1)
    as (N & T & W).
  split; [exact N|]. split; [exact T|]. intros Hwf. apply W.
  destruct Hwf as [W1 W2 W3 W4 W5 W6 W7].
  constructor; try assumption.
  - intros x e Hx. destruct (W6 x e Hx) as (A & B & C).
    repeat split; try assumption. simpl. lia.
  - simpl. unfold monitor_period in *. lia.
Qed.

(** Enough fuel: [run_due] stops only when nothing is due any more. *)
Lemma run_due_clock (target : Z) (fuel : nat) :
  forall m,
    now m <= target -> now m < nextTick m <= now m + monitor_period ->
    target - nextTick m < monitor_period * Z.of_nat fuel ->
    let m' := run_due fuel target m in
    now m' <= target < nextTick m' /\ nextTick m' <= target + monitor_period /\
    (well_formed m -> well_formed m').
Proof.
  unfold monitor_period.
  induction fuel as [|fuel IH]; intros m Hnow Htimer Hfuel; cbn [run_due].
  - cbv zeta. split; [lia|]. split; [lia | auto].
  - destruct (Z.leb_spec (nextTick m) target) as [Hdue | Hnot].
    + destruct (fire_clock m) as (N & T & W). unfold monitor_period in T.
      specialize (IH (fire m)). cbv zeta in IH.
      destruct IH as (A & B & C); [lia | lia | lia |].
      cbv zeta. split; [exact A|]. split; [exact B | auto].
    + cbv zeta. split; [lia|]. split; [lia | auto].
Qed.

Lemma advanceTimersByTime_clock (ms : Z) (m : Manager) :
  0 <= ms -> now m < nextTick m <= now m + monitor_period ->
  let m' := advanceTimersByTime ms m in
  now m' = now m + ms /\ now m' < nextTick m' <= now m' + monitor_period /\
  (well_formed m -> well_formed m').
Proof.
  intros Hms Htimer. unfold advanceTimersByTime.
  set (target := now m + ms).
  set (fuel := S (Z.to_nat (ms / monitor_period))).
  assert (Hfuel : target - nextTick m < monitor_period * Z.of_nat fuel).
  { unfold fuel, target, monitor_period in *.
    pose proof (Z.div_mod ms 10000 ltac:(lia)) as Hdm.
    pose proof (Z.mod_pos_bound ms 10000 ltac:(lia)) as Hmod.
    assert (0 <= ms / 10000) by (apply Z.div_pos; lia).
    rewrite Nat2Z.inj_succ, Z2Nat.id by assumption. lia. }
  destruct (run_due_clock target fuel m ltac:(unfold target; lia) Htimer Hfuel)
    as (A & B & C).
  set (m1 := run_due fuel target m) in *.
  cbv zeta. simpl. split; [reflexivity|]. split; [lia|].
  intros Hwf. destruct (C Hwf) as [W1 W2 W3 W4 W5 W6 W7].
  constructor; try assumption.
  - intros x e Hx. destruct (W6 x e Hx) as (P & Q & R).
    repeat split; try assumption. simpl. lia.
  - simpl. lia.
Qed.

Lemma registerPlugin_well_formed (name : string) (p : Plugin)
    (cfg : PluginConfig) (m : Manager) :
  well_formed m -> well_formed (snd (registerPlugin name p cfg m)).
Proof.
  intros Hwf. unfold registerPlugin, validatePluginConfig.
  destruct (JsMap.has (plugins m) name) eqn:Hhas; [exact Hwf|].
  destruct (match cfg_dependencies cfg with
            | Some deps => existsb falsy deps
            | None => false
            end) eqn:Hvalid; [exact Hwf|].
  cbn [snd]. apply keeps_log.
  assert (Hfresh : ~ In name (JsMap.keys (plugins m))).
  { intros H. apply map_has_In in H. congruence. }
  destruct Hwf as [W1 W2 W3 W4 W5 W6 W7].
  assert (Hnodeps : ~ In name (JsMap.keys (dependencies m)))
    by (intros H; exact (Hfresh (W3 name H))).
  set (entry := mkEntry p (normalizeConfig cfg) false (mkMetrics (now m) 0 0)).
  assert (Hlook : forall x ex,
            JsMap.get (JsMap.set (plugins m) name entry) x = Some ex ->
            (x = name /\ ex = entry) \/
            (x <> name /\ JsMap.get (plugins m) x = Some ex)).
  { intros x ex Hx. destruct (String.eqb_spec x name) as [->|Hne].
    - rewrite map_get_set_same in Hx. injection Hx as <-. now left.
    - rewrite (map_get_set_other _ _ _ _ Hne) in Hx. now right. }
  assert (Hnone : JsMap.get (dependencies m) name = None)
    by now apply map_get_None.
  destruct (dependencies_of_config (normalizeConfig cfg)) as [|d deps] eqn:Ed.
  - constructor; unfold registered, deps_of in *;
      cbn [plugins dependencies now nextTick events with_plugins
           with_dependencies];
      try assumption.
    + rewrite (map_keys_set_fresh _ _ _ Hfresh).
      apply NoDup_app; [assumption | repeat constructor; simpl; tauto |].
      intros x Hx [<- | []]. contradiction.
    + intros x Hx. rewrite (map_keys_set_fresh _ _ _ Hfresh).
      apply in_or_app. left. now apply W3.
    + intros x ex Hx. destruct (Hlook x ex Hx) as [[-> ->] | [Hne Hex]].
      * rewrite Hnone. change (config entry) with (normalizeConfig cfg).
        now rewrite Ed.
      * now apply W5.
    + intros x ex Hx. destruct (Hlook x ex Hx) as [[-> ->] | [Hne Hex]].
      * simpl. lia.
      * now apply (W6 x).
  - assert (Hcfg : cfg_dependencies cfg = Some (d :: deps)).
    { unfold normalizeConfig in Ed. simpl in Ed.
      destruct (cfg_dependencies cfg); simpl in Ed; congruence. }
    rewrite Hcfg in Hvalid.
    constructor; unfold registered, deps_of in *;
      cbn [plugins dependencies now nextTick events with_plugins
           with_dependencies];
      try assumption.
    + rewrite (map_keys_set_fresh _ _ _ Hfresh).
      apply NoDup_app; [assumption | repeat constructor; simpl; tauto |].
      intros x Hx [<- | []]. contradiction.
    + rewrite (map_keys_set_fresh _ _ _ Hnodeps).
      apply NoDup_app; [assumption | repeat constructor; simpl; tauto |].
      intros x Hx [<- | []]. contradiction.
    + intros x Hx. rewrite (map_keys_set_fresh _ _ _ Hnodeps) in Hx.
      rewrite (map_keys_set_fresh _ _ _ Hfresh). apply in_or_app.
      apply in_app_or in Hx. destruct Hx as [Hx | Hx]; [left; now apply W3|].
      now right.
    + intros x s Hx. destruct (String.eqb_spec x name) as [->|Hne].
      * rewrite map_get_set_same in Hx. injection Hx as <-.
        split; [|split].
        -- intros Hnil.
           assert (Hd : In d (JsSet.from_list (d :: deps)))
             by (apply from_list_In; now left).
           rewrite Hnil in Hd. contradiction.
        -- apply from_list_NoDup.
        -- intros Hin. apply (proj1 (from_list_In _ _)) in Hin.
           assert (Hex : existsb falsy (d :: deps) = true).
           { apply existsb_exists. exists ""%string. split; [assumption|].
             reflexivity. }
           congruence.
      * rewrite (map_get_set_other _ _ _ _ Hne) in Hx. now apply (W4 x s).
    + intros x ex Hx. destruct (Hlook x ex Hx) as [[-> ->] | [Hne Hex]].
      * rewrite map_get_set_same. change (config entry) with (normalizeConfig cfg).
        now rewrite Ed.
      * rewrite (map_get_set_other _ _ _ _ Hne). now apply W5.
    + intros x ex Hx. destruct (Hlook x ex Hx) as [[-> ->] | [Hne Hex]].
      * simpl. lia.
      * now apply (W6 x).
Qed.

Lemma construct_well_formed (t : Z) : well_formed (construct t).
Proof.
  constructor; simpl.
  - constructor.
  - constructor.
  - tauto.
  - discriminate.
  - discriminate.
  - discriminate.
  - unfold monitor_period. lia.
Qed.

Lemma reachable_well_formed (m : Manager) : reachable m -> well_formed m.
Proof.
  induction 1 as [t | name p cfg m _ IH | m _ IH | ms m Hms _ IH
                  | name m _ IH _ | name m _ IH _].
  - apply construct_well_formed.
  - now apply registerPlugin_well_formed.
  - now apply initializePlugins_keeps.
  - apply advanceTimersByTime_clock; [assumption | apply IH | assumption].
  - now apply restartPlugin_keeps.
  - now apply terminatePlugin_keeps.
Qed.

Lemma chain_registry_reachable : reachable chain_registry.
Proof. repeat apply reach_register. apply reach_construct. Qed.

Lemma late_registry_reachable : reachable late_registry.
Proof.
  apply reach_register. apply reach_advance; [lia | apply reach_construct].
Qed.

(** ** The registry in reachable states *)

(** X1: in every reachable state the plugin ids are pairwise distinct, the
    dependency map has distinct keys that are all registered ids, and the
    set stored for a registered id is exactly the [Set] of the dependencies
    declared in its configuration (no set is stored when none is declared);
    a stored set is never empty and never contains the empty id. *)
Theorem reachable_registry_consistent (m : Manager) :
  reachable m ->
  NoDup (JsMap.keys (plugins m)) /\
  NoDup (JsMap.keys (dependencies m)) /\
  (forall x, In x (JsMap.keys (dependencies m)) -> registered m x) /\
  (forall x e, JsMap.get (plugins m) x = Some e ->
     deps_of m x = JsSet.from_list (dependencies_of_config (config e))) /\
  (forall x s, JsMap.get (dependencies m) x = Some s ->
     s <> [] /\ NoDup s /\ ~ In ""%string s).
Proof.
  intros H. destruct (reachable_well_formed m H) as [W1 W2 W3 W4 W5 W6 W7].
  repeat split; try assumption; now apply (W4 x s).
Qed.

Lemma reachable_registry_consistent_witness :
  NoDup (JsMap.keys (plugins chain_registry)) /\
  NoDup (JsMap.keys (dependencies chain_registry)) /\
  (forall x, In x (JsMap.keys (dependencies chain_registry)) ->
     registered chain_registry x) /\
  (forall x e, JsMap.get (plugins chain_registry) x = Some e ->
     deps_of chain_registry x =
     JsSet.from_list (dependencies_of_config (config e))) /\
  (forall x s, JsMap.get (dependencies chain_registry) x = Some s ->
     s <> [] /\ NoDup s /\ ~ In ""%string s).
Proof.
  apply reachable_registry_consistent. apply chain_registry_reachable.
Defined.

(** X2: in every reachable state every entry has [warningCount = 0] (no
    code path writes it), a non-negative [errorCount] and a [lastHeartbeat]
    that does not lie in the future; and the monitor's timer is due after
    the current clock value and at most one period later, so no due firing
    is ever pending. *)
Theorem reachable_metrics_and_timer (m : Manager) :
  reachable m ->
  (forall x e, JsMap.get (plugins m) x = Some e ->
     warningCount (metrics e) = 0 /\ 0 <= errorCount (metrics e) /\
     lastHeartbeat (metrics e) <= now m) /\
  now m < nextTick m <= now m + 10000.
Proof.
  intros H. destruct (reachable_well_formed m H) as [W1 W2 W3 W4 W5 W6 W7].
  split; assumption.
Qed.

Lemma reachable_metrics_and_timer_witness :
  (forall x e, JsMap.get (plugins late_registry) x = Some e ->
     warningCount (metrics e) = 0 /\ 0 <= errorCount (metrics e) /\
     lastHeartbeat (metrics e) <= now late_registry) /\
  now late_registry < nextTick late_registry <= now late_registry + 10000.
Proof.
  apply reachable_metrics_and_timer. apply late_registry_reachable.
Defined.

(** ** Registration *)

Lemma map_set_fresh {V} (m : JsMap.t V) (k : string) (v : V) :
  ~ In k (JsMap.keys m) -> JsMap.set m k v = m ++ [(k, v)].
Proof.
  induction m as [| [k' v'] rest IH]; simpl; intros Hk.
  - reflexivity.
  - destruct (String.eqb_spec k' k) as [-> | Hne].
    + exfalso. apply Hk. now left.
    + f_equal. apply IH. intros Hin. apply Hk. now right.
Qed.

Lemma existsb_falsy (deps : list string) :
  existsb falsy deps = true <-> In ""%string deps.
Proof.
  rewrite existsb_exists. unfold falsy. split.
  - intros (x & Hin & Hx). apply String.eqb_eq in Hx. now subst.
  - intros Hin. exists ""%string. split; [assumption | reflexivity].
Qed.

Lemma validatePluginConfig_passes (name : string) (cfg : PluginConfig)
    (m : Manager) :
  ~ registered m name ->
  ~ In ""%string (dependencies_of_config (normalizeConfig cfg)) ->
  validatePluginConfig name cfg m = Returns tt.
Proof.
  intros Hfresh Hdeps. unfold validatePluginConfig.
  destruct (JsMap.has (plugins m) name) eqn:Hhas.
  - exfalso. apply Hfresh. now apply map_has_In.
  - destruct (cfg_dependencies cfg) as [deps |] eqn:Hcfg; [| reflexivity].
    destruct (existsb falsy deps) eqn:Hex; [| reflexivity].
    exfalso. apply Hdeps. unfold normalizeConfig. simpl. rewrite Hcfg. simpl.
    now apply existsb_falsy.
Qed.

Lemma registerPlugin_fresh (name : string) (p : Plugin) (cfg : PluginConfig)
    (m : Manager) :
  ~ registered m name ->
  ~ In ""%string (dependencies_of_config (normalizeConfig cfg)) ->
  registerPlugin name p cfg m =
    (Returns tt,
     mkManager
       (plugins m ++
        [(name, mkEntry p (normalizeConfig cfg) false (mkMetrics (now m) 0 0))])
       (match dependencies_of_config (normalizeConfig cfg) with
        | [] => dependencies m
        | deps => JsMap.set (dependencies m) name (JsSet.from_list deps)
        end)
       (now m) (nextTick m)
       (events m ++ [Logged INFO ("Registered plugin: " ++ name)%string None])).
Proof.
  intros Hfresh Hdeps. unfold registerPlugin.
  rewrite (validatePluginConfig_passes name cfg m Hfresh Hdeps).
  rewrite (map_set_fresh _ _ _ Hfresh).
  destruct (dependencies_of_config (normalizeConfig cfg)); reflexivity.
Qed.

(** X31: the monitor over 31,000 ms.  Take a reachable state whose plugins
    all have their heartbeat at the current clock value and at most 10
    errors, and let 31,000 ms pass.  The timer fires at its due time and
    then every 10,000 ms; a firing warns about a plugin when more than
    30,000 ms have passed since its heartbeat.  So the monitor logs nothing
    but heartbeat warnings: exactly one for each registered plugin when the
    timer was due within 1,000 ms of the start (its fourth firing then
    falls inside the 31,000 ms), and none otherwise.  The plugin map, and
    with it every [lastHeartbeat] and [errorCount], is unchanged. *)
Theorem monitor_over_31000 (m : Manager) :
  reachable m ->
  quiet_since (now m) (plugins m) ->
  exists evs,
    advanceTimersByTime 31000 m =
      mkManager (plugins m) (dependencies m) (now m + 31000)
        (nextTick m + (if nextTick m - now m <=? 1000 then 40000 else 30000))
        (events m ++ evs) /\
    Forall (fun ev => exists x, registered m x /\ ev = heartbeat_warning x) evs
    /\
    forall x, registered m x ->
      warnings_for x evs =
      if nextTick m - now m <=? 1000 then 1%nat else 0%nat.
Proof.
  intros Hr Hq. destruct (reachable_well_formed m Hr) as [W1 _ _ _ _ _ W7].
  now apply heartbeat_warnings_after_31000.
Qed.

Lemma monitor_over_31000_witness :
  exists evs,
    advanceTimersByTime 31000 late_registry =
      mkManager (plugins late_registry) (dependencies late_registry)
        (now late_registry + 31000)
        (nextTick late_registry +
         (if nextTick late_registry - now late_registry <=? 1000
          then 40000 else 30000))
        (events late_registry ++ evs) /\
    Forall (fun ev => exists x, registered late_registry x /\
                                ev = heartbeat_warning x) evs /\
    forall x, registered late_registry x ->
      warnings_for x evs =
      if nextTick late_registry - now late_registry <=? 1000
      then 1%nat else 0%nat.
Proof.
  apply monitor_over_31000.
  - apply late_registry_reachable.
  - apply quiet_since_check_sound. vm_compute. reflexivity.
Defined.

(** X5: a dependency list that contains the empty id is rejected for a new
    id with the CONFIGURATION_ERROR "Invalid dependencies configuration for
    plugin: <name>", and the manager is left as it was. *)
Theorem registerPlugin_invalid_dependencies (name : string) (p : Plugin)
    (cfg : PluginConfig) (deps : list string) (m : Manager) :
  ~ registered m name ->
  cfg_dependencies cfg = Some deps -> In ""%string deps ->
  registerPlugin name p cfg m =
    (Throws (ElizaError
               ("Invalid dependencies configuration for plugin: " ++ name)%string
               CONFIGURATION_ERROR None NoContext), m).
Proof.
  intros Hfresh Hcfg Hin. unfold registerPlugin, validatePluginConfig.
  destruct (JsMap.has (plugins m) name) eqn:Hhas.
  - exfalso. apply Hfresh. now apply map_has_In.
  - rewrite Hcfg. rewrite (proj2 (existsb_falsy deps) Hin). reflexivity.
Qed.

Lemma registerPlugin_invalid_dependencies_witness :
  registerPlugin "plugin-d" steady_plugin (requiring ["plugin-a"; ""])
    chain_registry =
    (Throws (ElizaError
               ("Invalid dependencies configuration for plugin: "
                  ++ "plugin-d")%string
               CONFIGURATION_ERROR None NoContext), chain_registry).
Proof.
  apply (registerPlugin_invalid_dependencies "plugin-d" steady_plugin
           (requiring ["plugin-a"; ""]) ["plugin-a"; ""%string]).
  - unfold registered. simpl. intros [H | [H | [H | []]]]; discriminate H.
  - reflexivity.
  - simpl. right. left. reflexivity.
Defined.

Lemma initializePlugins_unresolved (m : Manager) :
  cyclic m \/ dangling m ->
  exists e, initializePlugins m = (Throws e, m) /\
            (cycle_report m e \/ missing_report m e).
Proof.
  intros Hbad. unfold initializePlugins.
  pose proof (resolve_cases m) as Hcases.
  destruct (resolveInitializationOrder m) as [order | e |] eqn:Hres.
  - exfalso. destruct (resolve_returns_sound m order Hres) as [Hc Ha].
    destruct Hbad as [Hcyc | Hdang].
    + exact (cyclic_not_acyclic m Hcyc Ha).
    + exact (dangling_not_closed m Hdang Hc).
  - exists e. split; [reflexivity | assumption].
  - contradiction.
Qed.

(** X6: registration does not look at the dependency graph.  Registering
    [b] with a dependency on [a] while [a] already depends on [b] succeeds
    and leaves a circular registry; the error only comes from the next
    [initializePlugins], which throws before it touches anything. *)
Theorem registerPlugin_accepts_cycle (m : Manager) (a b : string) (p : Plugin) :
  registered m a -> depends m a b -> ~ registered m b -> a <> ""%string ->
  exists m',
    registerPlugin b p (requiring [a]) m = (Returns tt, m') /\
    registered m' b /\ cyclic m' /\
    exists e, initializePlugins m' = (Throws e, m') /\
              (cycle_report m' e \/ missing_report m' e).
Proof.
  intros Ha Hab Hb Hne.
  assert (Hneq : a <> b) by (intros ->; contradiction).
  eexists. split.
  - apply registerPlugin_fresh; [assumption |].
    simpl. intros [H | []]. now apply Hne.
  - set (m' := mkManager _ _ _ _ _).
    assert (Ha' : registered m' a).
    { unfold registered, m', JsMap.keys. simpl. rewrite map_app.
      apply in_or_app. now left. }
    assert (Hb' : registered m' b).
    { unfold registered, m', JsMap.keys. simpl. rewrite map_app.
      apply in_or_app. right. now left. }
    assert (Hab' : depends m' a b).
    { unfold depends, deps_of, m'. simpl.
      rewrite map_get_set_other by assumption. exact Hab. }
    assert (Hba' : depends m' b a).
    { unfold depends, deps_of, m'. simpl. rewrite map_get_set_same.
      now left. }
    assert (Hcyc : cyclic m').
    { exists a. apply t_trans with b; apply t_step; repeat split; assumption. }
    split; [assumption | split; [assumption |]].
    apply initializePlugins_unresolved. now left.
Qed.

Lemma registerPlugin_accepts_cycle_witness :
  exists m',
    registerPlugin "plugin-b" steady_plugin (requiring ["plugin-a"])
      half_cycle_registry = (Returns tt, m') /\
    registered m' "plugin-b" /\ cyclic m' /\
    exists e, initializePlugins m' = (Throws e, m') /\
              (cycle_report m' e \/ missing_report m' e).
Proof.
  apply registerPlugin_accepts_cycle.
  - unfold registered. simpl. now left.
  - unfold depends. simpl. now left.
  - unfold registered. simpl. intros [H | []]. discriminate H.
  - discriminate.
Defined.

(** ** Dependency resolution *)

(** X7: [resolveInitializationOrder] returns an order exactly when every
    declared dependency is registered and the dependency graph has no
    cycle; in every other case it throws, and it never runs out of its
    recursion bound. *)
Theorem resolve_returns_iff (m : Manager) :
  ((exists order, resolveInitializationOrder m = Returns order) <->
   closed m /\ acyclic m) /\
  resolveInitializationOrder m <> OutOfFuel.
Proof.
  pose proof (resolve_cases m) as Hcases.
  split; [split |].
  - intros [order Hres]. exact (resolve_returns_sound m order Hres).
  - intros [Hc Ha].
    destruct (resolveInitializationOrder m) as [order | e |].
    + now exists order.
    + exfalso. destruct Hcases as [Hr | Hr].
      * exact (cyclic_not_acyclic m (cycle_report_cyclic m e Hr) Ha).
      * exact (dangling_not_closed m (missing_report_dangling m e Hr) Hc).
    + contradiction.
  - intros Hres. rewrite Hres in Hcases. exact Hcases.
Qed.

(** X8: when some registered plugin declares an unregistered dependency or
    the graph has a cycle, [initializePlugins] throws the resolution error
    and leaves the manager exactly as it was: no [initialize] is called and
    nothing is logged. *)
Theorem initializePlugins_all_or_nothing (m : Manager) :
  cyclic m \/ dangling m ->
  exists e, initializePlugins m = (Throws e, m) /\
            (cycle_report m e \/ missing_report m e).
Proof. apply initializePlugins_unresolved. Qed.

Lemma initializePlugins_all_or_nothing_witness :
  exists e,
    initializePlugins dangling_registry = (Throws e, dangling_registry) /\
    (cycle_report dangling_registry e \/ missing_report dangling_registry e).
Proof.
  apply initializePlugins_all_or_nothing. right.
  apply dangling_check_sound. reflexivity.
Defined.

Lemma visit_S (fuel : nat) (m : Manager) (name : string) (w : Walk) :
  visit (S fuel) m name w =
    if JsSet.has (path w) name then
      Throws (circularDependency (path w) name)
    else if JsSet.has (visited w) name then Returns w
    else
      match
        match JsMap.get (dependencies m) name with
        | Some deps =>
            visit_dependencies (JsMap.has (plugins m)) (visit fuel m) name deps
              (mkWalk (JsSet.add (path w) name) (visited w) (initOrder w))
        | None =>
            Returns (mkWalk (JsSet.add (path w) name) (visited w) (initOrder w))
        end
      with
      | Returns w2 =>
          Returns (mkWalk (JsSet.delete (path w2) name)
                          (JsSet.add (visited w2) name)
                          (initOrder w2 ++ [name]))
      | Throws e => Throws e
      | OutOfFuel => OutOfFuel
      end.
Proof. reflexivity. Qed.

Lemma visit_visited (fuel : nat) (m : Manager) (name : string) (w : Walk) :
  ~ In name (path w) -> In name (visited w) ->
  visit (S fuel) m name w = Returns w.
Proof.
  intros Hp Hv. rewrite visit_S.
  rewrite (proj2 (set_has_false _ _) Hp).
  now rewrite (proj2 (set_has_In _ _) Hv).
Qed.

Lemma visit_dependencies_done (has : string -> bool)
    (v : string -> Walk -> Completion Walk) (name : string) (w : Walk)
    (deps : list string) :
  (forall d, In d deps -> has d = true /\ v d w = Returns w) ->
  visit_dependencies has v name deps w = Returns w.
Proof.
  induction deps as [| d rest IH]; simpl; intros H.
  - reflexivity.
  - destruct (H d (or_introl eq_refl)) as [Hh Hv]. rewrite Hh, Hv. simpl.
    apply IH. intros d' Hd'. apply H. now right.
Qed.

Lemma visit_ready (fuel : nat) (m : Manager) (name : string)
    (done : list string) :
  ~ In name done ->
  (forall d, depends m name d -> In d done /\ registered m d) ->
  visit (S (S fuel)) m name (mkWalk [] done done) =
    Returns (mkWalk [] (done ++ [name]) (done ++ [name])).
Proof.
  intros Hfresh Hdeps. rewrite visit_S. cbn [path visited initOrder].
  change (JsSet.has [] name) with false. cbv iota.
  rewrite (proj2 (set_has_false _ _) Hfresh).
  change (JsSet.add [] name) with [name].
  assert (Hleave : forall w2, w2 = mkWalk [name] done done ->
            mkWalk (JsSet.delete (path w2) name) (JsSet.add (visited w2) name)
                   (initOrder w2 ++ [name]) =
            mkWalk [] (done ++ [name]) (done ++ [name])).
  { intros w2 ->. cbn [path visited initOrder]. f_equal.
    - unfold JsSet.delete. simpl. now rewrite String.eqb_refl.
    - now apply set_add_fresh. }
  destruct (JsMap.get (dependencies m) name) as [deps |] eqn:Hget.
  - rewrite visit_dependencies_done.
    + now rewrite Hleave.
    + intros d Hd.
      assert (Hdep : depends m name d).
      { unfold depends, deps_of. now rewrite Hget. }
      destruct (Hdeps d Hdep) as [Hdone Hreg]. split.
      * now apply map_has_In.
      * apply visit_visited; cbn [path visited]; [| assumption].
        intros [-> | []]. contradiction.
  - now rewrite Hleave.
Qed.

Lemma visit_all_sorted (fuel : nat) (m : Manager) (names : list string) :
  forall done,
    NoDup (done ++ names) -> sorted m (done ++ names) ->
    (forall x, In x (done ++ names) -> registered m x) ->
    visit_all (S (S fuel)) m names (mkWalk [] done done) =
      Returns (mkWalk [] (done ++ names) (done ++ names)).
Proof.
  induction names as [| n rest IH]; intros done Hnd Hs Hreg.
  - now rewrite app_nil_r.
  - cbn [visit_all path visited initOrder].
    rewrite visit_ready.
    + replace (done ++ n :: rest) with ((done ++ [n]) ++ rest)
        by (now rewrite <- app_assoc).
      apply IH; rewrite <- app_assoc; assumption.
    + apply NoDup_remove_2 in Hnd. intros Hin. apply Hnd.
      apply in_or_app. now left.
    + intros d Hd. assert (Hin : In d done) by exact (Hs done n rest eq_refl d Hd).
      split; [assumption |]. apply Hreg. apply in_or_app. now left.
Qed.

Lemma resolve_sorted_keys (m : Manager) :
  NoDup (JsMap.keys (plugins m)) -> sorted m (JsMap.keys (plugins m)) ->
  resolveInitializationOrder m = Returns (JsMap.keys (plugins m)).
Proof.
  intros Hnd Hs. unfold resolveInitializationOrder.
  destruct (plugins m) as [| kv rest] eqn:Hp.
  - reflexivity.
  - cbn [length].
    rewrite (visit_all_sorted (length rest) m (JsMap.keys (kv :: rest)) []).
    + reflexivity.
    + exact Hnd.
    + exact Hs.
    + intros x Hx. unfold registered. rewrite Hp. exact Hx.
Qed.

Lemma sorted_from_sound (m : Manager) (rest : list string) :
  forall done, sorted_from m done rest = true ->
  forall l1 x l2, rest = l1 ++ x :: l2 ->
  forall d, depends m x d -> In d (done ++ l1).
Proof.
  induction rest as [| y tl IH]; intros done Hc l1 x l2 Heq d Hd.
  - now destruct l1.
  - simpl in Hc. apply andb_true_iff in Hc. destruct Hc as [Hy Htl].
    destruct l1 as [| z l1'].
    + simpl in Heq. injection Heq as -> _. rewrite app_nil_r.
      rewrite forallb_forall in Hy. apply set_has_In. now apply Hy.
    + simpl in Heq. injection Heq as <- Heq.
      replace (done ++ y :: l1') with ((done ++ [y]) ++ l1')
        by (now rewrite <- app_assoc).
      exact (IH (done ++ [y]) Htl l1' x l2 Heq d Hd).
Qed.

Lemma sorted_check_sound (m : Manager) (order : list string) :
  sorted_check m order = true -> sorted m order.
Proof.
  intros Hc l1 x l2 Heq d Hd.
  exact (sorted_from_sound m order [] Hc l1 x l2 Heq d Hd).
Qed.

(** X9: when every plugin was registered after all the plugins it depends
    on, the initialization order is the registration order itself. *)
Theorem resolve_registration_order (m : Manager) :
  NoDup (JsMap.keys (plugins m)) -> sorted m (JsMap.keys (plugins m)) ->
  resolveInitializationOrder m = Returns (JsMap.keys (plugins m)).
Proof. apply resolve_sorted_keys. Qed.

Lemma resolve_registration_order_witness :
  resolveInitializationOrder chain_registry =
    Returns (JsMap.keys (plugins chain_registry)).
Proof.
  apply resolve_registration_order.
  - apply distinct_NoDup. reflexivity.
  - apply sorted_check_sound. reflexivity.
Defined.

(** ** Initialization of all plugins *)

Lemma initializeAttempts_returns_logged (name : string) (retries : Z)
    (fuel : nat) :
  forall attempts e m m',
    initializeAttempts fuel name retries attempts e m = (Returns tt, m') ->
    attempts < retries ->
    exists evs, events m' = events m ++ evs /\ In (success_log name) evs.
Proof.
  induction fuel as [| fuel IH]; intros attempts e m m' Hrun Hlt;
    cbn [initializeAttempts] in Hrun; [discriminate Hrun |].
  assert (Hcond : (attempts <? retries) = true) by now apply Z.ltb_lt.
  rewrite Hcond in Hrun.
  destruct (race (initialize_behaviour (plugin e) (initialize_calls (plugin e))))
    as [error |].
  - destruct (Z.eqb_spec (attempts + 1) retries) as [Heq | Hne];
      [discriminate Hrun |].
    apply IH in Hrun; [| lia].
    destruct Hrun as (evs & E & Hin).
    rewrite E. eexists. split.
    + cbn [events emit]. rewrite events_logger_error. cbn [events write_entry
        with_plugins emit]. rewrite <- !app_assoc. reflexivity.
    + apply in_or_app. right. apply in_or_app. right. apply in_or_app.
      now right.
  - injection Hrun as <-. eexists. split.
    + rewrite events_logger_info. cbn [events write_entry with_plugins emit].
      rewrite <- app_assoc. reflexivity.
    + right. left. reflexivity.
Qed.

Lemma initializePlugin_returns_initialized (name : string) (m m' : Manager)
    (e : PluginEntry) :
  JsMap.get (plugins m) name = Some e ->
  1 <= retryAttempts (errorHandling (config e)) ->
  initializePlugin name m = (Returns tt, m') ->
  exists e', JsMap.get (plugins m') name = Some e' /\ isInitialized e' = true.
Proof.
  intros Hget Hretries Hrun.
  destruct (initializePlugin_effect name m e _ m' Hget Hrun) as [e' Heff].
  exists e'. destruct Heff as [_ _ _ Hp _ _ (evs & E & _ & Hflag & _)].
  split; [rewrite Hp; apply map_get_set_same |].
  apply Hflag. unfold initializePlugin in Hrun. rewrite Hget in Hrun.
  apply initializeAttempts_returns_logged in Hrun; [| lia].
  destruct Hrun as (evs0 & E0 & Hin). rewrite E in E0.
  apply app_inv_head in E0. now subst.
Qed.

Lemma initializeInOrder_returns_initialized (names : list string) :
  forall m m',
    initializeInOrder names m = (Returns tt, m') ->
    forall x e, In x names -> JsMap.get (plugins m) x = Some e ->
    1 <= retryAttempts (errorHandling (config e)) ->
    exists e', JsMap.get (plugins m') x = Some e' /\ isInitialized e' = true.
Proof.
  induction names as [| n rest IH]; intros m m' Hrun x e Hin Hget Hretries;
    [contradiction |].
  cbn [initializeInOrder] in Hrun.
  destruct (initializePlugin n m) as [r m1] eqn:Hn.
  destruct r as [[] | err |]; try discriminate Hrun.
  destruct Hin as [-> | Hin].
  - destruct (initializePlugin_returns_initialized x m m1 e Hget Hretries Hn)
      as (e1 & Hget1 & Hflag1).
    apply initializeInOrder_run in Hrun.
    destruct (ir_keeps _ _ _ Hrun x e1 Hget1) as (e' & Hget' & _ & Hkeep).
    exists e'. split; [assumption | now apply Hkeep].
  - apply initializePlugin_run in Hn.
    destruct (ir_keeps _ _ _ Hn x e Hget) as (e1 & Hget1 & Hgrow & _).
    apply (IH m1 m' Hrun x e1 Hin Hget1).
    destruct Hgrow as [Hcfg _]. now rewrite Hcfg.
Qed.

Lemma initializePlugin_events (name : string) (m : Manager)
    (r : Completion unit) (m' : Manager) :
  initializePlugin name m = (r, m') ->
  exists evs, events m' = events m ++ evs /\ Forall (init_event name) evs.
Proof.
  intros Hrun. destruct (JsMap.get (plugins m) name) as [e |] eqn:Hget.
  - destruct (initializePlugin_effect name m e r m' Hget Hrun) as [e' Heff].
    destruct Heff as [_ _ _ _ _ _ (evs & E & Hall & _)]. now exists evs.
  - unfold initializePlugin in Hrun. rewrite Hget in Hrun.
    injection Hrun as _ <-. exists []. split; [now rewrite app_nil_r |].
    constructor.
Qed.

Lemma initializeInOrder_trace (names : list string) :
  forall m r m',
    initializeInOrder names m = (r, m') ->
    exists done rest segs,
      names = done ++ rest /\ (r = Returns tt -> rest = []) /\
      init_segments done segs /\ events m' = events m ++ concat segs.
Proof.
  induction names as [| n tl IH]; intros m r m' Hrun;
    cbn [initializeInOrder] in Hrun.
  - injection Hrun as <- <-. exists [], [], []. split; [reflexivity |].
    split; [reflexivity |]. split; [constructor | now rewrite app_nil_r].
  - destruct (initializePlugin n m) as [rn m1] eqn:Hn.
    destruct (initializePlugin_events n m rn m1 Hn) as (evs & E & Hall).
    assert (Hstop : rn <> Returns tt -> (rn, m1) = (r, m') ->
              exists done rest segs,
                n :: tl = done ++ rest /\ (r = Returns tt -> rest = []) /\
                init_segments done segs /\ events m' = events m ++ concat segs).
    { intros Hrn Heq. injection Heq as <- <-. exists [n], tl, [evs].
      split; [reflexivity |]. split; [intros H; contradiction |].
      split; [repeat constructor; assumption |].
      simpl. now rewrite app_nil_r. }
    destruct rn as [[] | err |].
    + destruct (IH m1 r m' Hrun) as (done & rest & segs & -> & Hr & Hsegs & E').
      exists (n :: done), rest, (evs :: segs). split; [reflexivity |].
      split; [assumption |]. split; [now constructor |].
      rewrite E', E. simpl. now rewrite <- app_assoc.
    + apply Hstop; [discriminate | assumption].
    + apply Hstop; [discriminate | assumption].
Qed.

Lemma init_segments_events (names : list string) (segs : list (list Event)) :
  init_segments names segs ->
  forall ev, In ev (concat segs) -> exists n, In n names /\ init_event n ev.
Proof.
  induction 1 as [| n seg names segs Hseg _ IH]; intros ev Hin;
    [contradiction |].
  simpl in Hin. apply in_app_or in Hin. destruct Hin as [Hin | Hin].
  - exists n. split; [now left |].
    rewrite Forall_forall in Hseg. now apply Hseg.
  - destruct (IH ev Hin) as (n' & Hn' & Hev). exists n'. split; [now right |].
    assumption.
Qed.

(** What [initializePlugins], followed by itself, leaves alone. *)
Lemma initializePlugins_alone (m : Manager) :
  let m' := snd (initializePlugins m) in
  dependencies m' = dependencies m /\ now m' = now m /\
  nextTick m' = nextTick m /\
  JsMap.keys (plugins m') = JsMap.keys (plugins m) /\
  (forall x e, JsMap.get (plugins m) x = Some e ->
     exists e', JsMap.get (plugins m') x = Some e' /\
       config e' = config e /\
       lastHeartbeat (metrics e') = lastHeartbeat (metrics e) /\
       warningCount (metrics e') = warningCount (metrics e) /\
       (isInitialized e = true -> isInitialized e' = true)) /\
  exists evs,
    events m' = events m ++ evs /\
    (forall x, In (CalledInitialize x) evs -> registered m x) /\
    (forall x, ~ In (CalledDestroy x) evs).
Proof.
  cbv zeta. unfold initializePlugins.
  pose proof (resolve_cases m) as Hcases.
  destruct (resolveInitializationOrder m) as [order | err |].
  - destruct Hcases as (_ & Hall & _).
    destruct (initializeInOrder order m) as [r m'] eqn:Hrun. cbn [snd].
    pose proof (initializeInOrder_run order m r m' Hrun) as Hir.
    destruct (initializeInOrder_trace order m r m' Hrun)
      as (done & rest & segs & Horder & _ & Hsegs & E).
    destruct Hir as [Hd Hn Ht Hk _ Hkeeps _].
    repeat (split; [assumption |]). split.
    + intros x e Hget. destruct (Hkeeps x e Hget) as (e' & Hget' & Hg & Hf).
      exists e'. destruct Hg as (Hc & Hh & Hw & _). auto.
    + exists (concat segs). split; [assumption |]. split.
      * intros x Hin.
        destruct (init_segments_events done segs Hsegs _ Hin) as (n & Hn' & Hev).
        simpl in Hev. subst x. apply Hall. rewrite Horder.
        apply in_or_app. now left.
      * intros x Hin.
        destruct (init_segments_events done segs Hsegs _ Hin) as (n & _ & Hev).
        exact Hev.
  - cbn [snd]. repeat (split; [reflexivity |]). split.
    + intros x e Hget. exists e. auto.
    + exists []. split; [now rewrite app_nil_r |]. split; intros x [].
  - contradiction.
Qed.

(** ** Initialization while the timers run *)

Lemma within_budget_check_sound (m : Manager) :
  within_budget_check m = true -> within_budget m.
Proof.
  unfold within_budget_check. rewrite forallb_forall. intros H x e Hget.
  specialize (H (x, e) (map_get_In_pair (plugins m) x e Hget)). simpl in H.
  now apply Z.leb_le.
Qed.

Lemma within_budget_calm (m : Manager) : within_budget m -> calm m.
Proof. intros H x e Hget. specialize (H x e Hget). lia. Qed.

Lemma without_passage_app (evs1 evs2 : list Event) :
  without_passage (evs1 ++ evs2) = without_passage evs1 ++ without_passage evs2.
Proof. apply filter_app. Qed.

Lemma without_passage_none (evs : list Event) :
  Forall (fun ev => is_passage ev = true) evs -> without_passage evs = [].
Proof.
  induction 1 as [| ev evs Hev _ IH]; [reflexivity |].
  unfold without_passage in *. simpl. now rewrite Hev.
Qed.

Lemma without_passage_In (ev : Event) (evs : list Event) :
  In ev (without_passage evs) <-> In ev evs /\ is_passage ev = false.
Proof.
  unfold without_passage. rewrite filter_In.
  now destruct (is_passage ev); simpl; intuition discriminate.
Qed.

Lemma due_warnings_passage (t : Z) (ps : JsMap.t PluginEntry)
    (names : list string) :
  Forall (fun ev => is_passage ev = true) (due_warnings t ps names).
Proof.
  induction names as [| name names IH]; [constructor |].
  cbn [due_warnings flat_map]. apply Forall_app. split; [| exact IH].
  destruct (JsMap.get ps name) as [e |]; [| constructor].
  destruct (t - lastHeartbeat (metrics e) >? 30000); repeat constructor.
Qed.

(** While no error count exceeds 10 a firing of the monitor writes
    warnings and nothing else. *)
Lemma fire_calm (m : Manager) :
  calm m ->
  plugins (fire m) = plugins m /\ dependencies (fire m) = dependencies m /\
  exists evs, events (fire m) = events m ++ evs /\
              Forall (fun ev => is_passage ev = true) evs.
Proof.
  intros Hcalm. unfold fire, tick.
  rewrite monitor_entries_quiet by exact Hcalm. cbn.
  repeat (split; [reflexivity |]). eexists. split; [reflexivity |].
  apply due_warnings_passage.
Qed.

Lemma run_due_calm (fuel : nat) (target : Z) :
  forall m, calm m ->
    plugins (run_due fuel target m) = plugins m /\
    dependencies (run_due fuel target m) = dependencies m /\
    exists evs, events (run_due fuel target m) = events m ++ evs /\
                Forall (fun ev => is_passage ev = true) evs.
Proof.
  induction fuel as [| fuel IH]; intros m Hcalm; cbn [run_due].
  - repeat (split; [reflexivity |]). exists []. now rewrite app_nil_r.
  - destruct (nextTick m <=? target).
    + destruct (fire_calm m Hcalm) as (Hp & Hd & evs1 & E1 & H1).
      assert (Hcalm' : calm (fire m))
        by (intros x e Hget; rewrite Hp in Hget; eauto).
      destruct (IH (fire m) Hcalm') as (Hp' & Hd' & evs2 & E2 & H2).
      split; [congruence |]. split; [congruence |].
      exists (evs1 ++ evs2). rewrite E2, E1, app_assoc.
      split; [reflexivity | now apply Forall_app].
    + repeat (split; [reflexivity |]). exists []. now rewrite app_nil_r.
Qed.

(** A wait that no recovery action falls into. *)
Lemma sleep_calm (ms : Z) (m : Manager) :
  calm m ->
  plugins (sleep ms m) = plugins m /\
  dependencies (sleep ms m) = dependencies m /\
  now (sleep ms m) = now m + Z.max 0 ms /\
  exists evs, events (sleep ms m) = events m ++ evs /\
              Forall (fun ev => is_passage ev = true) evs.
Proof.
  intros Hcalm. unfold sleep, advanceTimersByTime. cbn.
  destruct (run_due_calm (S (Z.to_nat (Z.max 0 ms / monitor_period)))
              (now m + Z.max 0 ms) m Hcalm) as (Hp & Hd & evs & E & H).
  repeat (split; [assumption || reflexivity |]). now exists evs.
Qed.

Lemma agree_refl (m : Manager) : agree m m.
Proof. repeat split. Qed.

Lemma agree_emit (ev : Event) (mu mt : Manager) :
  agree mu mt -> agree (emit ev mu) (emit ev mt).
Proof.
  intros (Hp & Hd & He). repeat split; cbn; try assumption.
  now rewrite !without_passage_app, He.
Qed.

Lemma agree_log level message error (mu mt : Manager) :
  agree mu mt -> agree (log level message error mu) (log level message error mt).
Proof.
  intros H. unfold log.
  destruct (level_value level <? level_value minLevel);
    [assumption | now apply agree_emit].
Qed.

Lemma agree_write_entry (name : string) (e : PluginEntry) (mu mt : Manager) :
  agree mu mt -> agree (write_entry name e mu) (write_entry name e mt).
Proof.
  intros (Hp & Hd & He). repeat split; cbn; try assumption. now rewrite Hp.
Qed.

Lemma agree_sleep (ms : Z) (mu mt : Manager) :
  agree mu mt -> calm mu -> agree mu (sleep ms mt).
Proof.
  intros (Hp & Hd & He) Hcalm.
  assert (Hcalm' : calm mt) by (intros x e Hget; rewrite Hp in Hget; eauto).
  destruct (sleep_calm ms mt Hcalm') as (Hp' & Hd' & _ & evs & E & H).
  repeat split; try congruence.
  now rewrite E, without_passage_app, (without_passage_none evs H), app_nil_r.
Qed.

Lemma agree_waited (ms ms' : Z) (mu mt : Manager) :
  agree mu mt -> calm mu -> agree (emit (Waited ms) mu) (sleep ms' mt).
Proof.
  intros H Hcalm. destruct (agree_sleep ms' mu mt H Hcalm) as (Hp & Hd & He).
  split; [exact Hp |]. split; [exact Hd |].
  cbn [events emit]. now rewrite without_passage_app, He, app_nil_r.
Qed.

Lemma write_held_registered (name : string) (e0 e : PluginEntry) (m : Manager) :
  JsMap.get (plugins m) name = Some e0 ->
  write_held name e m = write_entry name e m.
Proof.
  intros Hget. unfold write_held.
  assert (Hhas : JsMap.has (plugins m) name = true)
    by (apply map_has_In, map_get_In; now exists e0).
  now rewrite Hhas.
Qed.

Lemma held_registered (name : string) (seen e : PluginEntry) (m : Manager) :
  JsMap.get (plugins m) name = Some e -> held name seen m = e.
Proof. intros Hget. unfold held. now rewrite Hget. Qed.

Lemma calm_set (name : string) (e : PluginEntry) (m m' : Manager) :
  calm m -> plugins m' = JsMap.set (plugins m) name e ->
  errorCount (metrics e) <= 10 -> calm m'.
Proof.
  intros Hcalm Hp He x ex Hget. rewrite Hp in Hget.
  destruct (String.eqb_spec x name) as [-> | Hne].
  - rewrite map_get_set_same in Hget. now injection Hget as <-.
  - rewrite (map_get_set_other _ _ _ _ Hne) in Hget. eauto.
Qed.

Lemma calm_agree (mu mt : Manager) : agree mu mt -> calm mu -> calm mt.
Proof. intros (Hp & _) H x e Hget. rewrite Hp in Hget. eauto. Qed.

(** While no error count can exceed 10, the loop of [initializePlugin] with
    the clock running takes the steps of the loop followed by itself: the
    same outcome, and states that agree. *)
Lemma initializeAttempts_timed_refines (name : string) (retries tmo : Z)
    (fuel : nat) :
  forall attempts e seen mu mt,
    agree mu mt -> calm mu ->
    JsMap.get (plugins mu) name = Some e ->
    errorCount (metrics e) + Z.max 0 (retries - attempts) <= 10 ->
    exists r mu' mt',
      initializeAttempts fuel name retries attempts e mu = (r, mu') /\
      initializeAttempts_timed fuel name retries tmo attempts seen mt
      = (r, mt') /\
      agree mu' mt' /\ calm mu' /\ now mt <= now mt' /\
      exists evs, events mt' = events mt ++ evs.
Proof.
  induction fuel as [| fuel IH]; intros attempts e seen mu mt Hag Hcalm Hget Hb.
  - exists OutOfFuel, mu, mt. split; [reflexivity |]. split; [reflexivity |].
    split; [assumption |]. split; [assumption |].
    split; [lia |]. exists []. now rewrite app_nil_r.
  - cbn [initializeAttempts initializeAttempts_timed].
    destruct (attempts <? retries) eqn:Hcond.
    2:{ exists (Returns tt), mu, mt.
        split; [reflexivity |]. split; [reflexivity |].
        split; [assumption |]. split; [assumption |].
        split; [lia |]. exists []. now rewrite app_nil_r. }
    apply Z.ltb_lt in Hcond.
    assert (Hgett : JsMap.get (plugins mt) name = Some e)
      by (destruct Hag as (Hp & _); now rewrite Hp).
    rewrite (held_registered name seen e mt Hgett).
    set (e1 := set_plugin (called_initialize (plugin e)) e).
    rewrite (write_held_registered name e e1 mt Hgett).
    set (mu1 := emit (CalledInitialize name) (write_entry name e1 mu)).
    set (mt1 := emit (CalledInitialize name) (write_entry name e1 mt)).
    assert (Hag1 : agree mu1 mt1)
      by now apply agree_emit, agree_write_entry.
    assert (Hget1 : forall m, JsMap.get
              (plugins (emit (CalledInitialize name) (write_entry name e1 m)))
              name = Some e1)
      by (intros m; cbn; apply map_get_set_same).
    assert (Hcalm1 : calm mu1)
      by (apply (calm_set name e1 mu); [assumption | reflexivity |];
          specialize (Hcalm name e Hget); exact Hcalm).
    assert (Hnow1 : now mt1 = now mt) by reflexivity.
    assert (Hev1 : events mt1 = events mt ++ [CalledInitialize name])
      by reflexivity.
    destruct (race (initialize_behaviour (plugin e) (initialize_calls (plugin e))))
      as [error |] eqn:Hrace.
    + set (mt1' := race_timed _ tmo mt1).
      assert (Hrt : agree mu1 mt1' /\ now mt1 <= now mt1' /\
                    exists evs, events mt1' = events mt1 ++ evs).
      { unfold mt1', race_timed.
        destruct (initialize_behaviour (plugin e) (initialize_calls (plugin e))).
        - split; [assumption |]. split; [lia |]. exists [].
          now rewrite app_nil_r.
        - split; [assumption |]. split; [lia |]. exists [].
          now rewrite app_nil_r.
        - split; [now apply agree_sleep |].
          destruct (sleep_calm tmo mt1 (calm_agree mu1 mt1 Hag1 Hcalm1))
            as (_ & _ & Hn & evs & E & _).
          split; [lia |]. now exists evs. }
      clearbody mt1'. destruct Hrt as (Hag1' & Hnow1' & evs1' & Hev1').
      assert (Hgett1 : JsMap.get (plugins mt1') name = Some e1).
      { destruct Hag1' as (Hp & _). rewrite Hp. apply Hget1. }
      rewrite (held_registered name e1 e1 mt1' Hgett1).
      set (e2 := increment_errorCount e1).
      rewrite (write_held_registered name e1 e2 mt1' Hgett1).
      set (message := attemptFailedMessage (attempts + 1) retries name).
      set (mu2 := logger_error message (as_error error)
                    (write_entry name e2 mu1)).
      set (mt2 := logger_error message (as_error error)
                    (write_entry name e2 mt1')).
      assert (Hag2 : agree mu2 mt2)
        by now apply agree_log, agree_write_entry.
      assert (Hget2 : JsMap.get (plugins mu2) name = Some e2)
        by (cbn; apply map_get_set_same).
      assert (Hcalm2 : calm mu2).
      { apply (calm_set name e2 mu1); [assumption | reflexivity |].
        specialize (Hcalm name e Hget). cbn. cbn in Hb. lia. }
      assert (Hnow2 : now mt2 = now mt1') by reflexivity.
      assert (Hev2 : exists evs, events mt2 = events mt ++ evs).
      { exists ([CalledInitialize name] ++ evs1'
                ++ [Logged ERROR message (Some (as_error error))]).
        cbn. rewrite Hev1', Hev1, <- !app_assoc. reflexivity. }
      destruct (attempts + 1 =? retries) eqn:Hlast.
      * exists (Throws (initializationFailed name error (attempts + 1))),
          mu2, mt2.
        split; [reflexivity |]. split; [reflexivity |].
        split; [assumption |]. split; [assumption |].
        split; [lia | assumption].
      * apply Z.eqb_neq in Hlast.
        destruct (IH (attempts + 1) e2 e2
                    (emit (Waited (1000 * (attempts + 1))) mu2)
                    (sleep (1000 * (attempts + 1)) mt2))
          as (r & mu' & mt' & Hu & Ht & Hag' & Hcalm' & Hnow' & evs' & Hev').
        -- now apply agree_waited.
        -- intros x ex Hx. exact (Hcalm2 x ex Hx).
        -- exact Hget2.
        -- cbn. cbn in Hb. lia.
        -- exists r, mu', mt'. split; [exact Hu |]. split; [exact Ht |].
           split; [assumption |]. split; [assumption |].
           destruct (sleep_calm (1000 * (attempts + 1)) mt2
                       (calm_agree mu2 mt2 Hag2 Hcalm2))
             as (_ & _ & Hn & evs3 & E3 & _).
           destruct Hev2 as (evs2 & Hev2).
           split; [lia |]. exists (evs2 ++ evs3 ++ evs').
           rewrite Hev', E3, Hev2, <- !app_assoc. reflexivity.
    + set (e2 := set_isInitialized true e1).
      assert (Hgett1 : JsMap.get (plugins mt1) name = Some e1) by apply Hget1.
      rewrite (write_held_registered name e1 e2 mt1 Hgett1).
      exists (Returns tt), (logger_info ("Initialized plugin: " ++ name)
                              (write_entry name e2 mu1)),
        (logger_info ("Initialized plugin: " ++ name) (write_entry name e2 mt1)).
      split; [reflexivity |]. split; [reflexivity |].
      split; [now apply agree_log, agree_write_entry |].
      split.
      * apply (calm_set name e2 mu1); [assumption | reflexivity |].
        exact (Hcalm name e Hget).
      * split; [cbn; lia |]. eexists. cbn. rewrite <- app_assoc. reflexivity.
Qed.

Lemma initializePlugin_timed_refines (name : string) (mu mt : Manager) :
  agree mu mt -> calm mu ->
  (forall e, JsMap.get (plugins mu) name = Some e ->
     errorCount (metrics e)
     + Z.max 0 (retryAttempts (errorHandling (config e))) <= 10) ->
  exists r mu' mt',
    initializePlugin name mu = (r, mu') /\
    initializePlugin_timed name mt = (r, mt') /\
    agree mu' mt' /\ calm mu' /\ now mt <= now mt' /\
    exists evs, events mt' = events mt ++ evs.
Proof.
  intros Hag Hcalm Hb. unfold initializePlugin, initializePlugin_timed.
  destruct Hag as (Hp & Hd & He). rewrite Hp.
  destruct (JsMap.get (plugins mu) name) as [e |] eqn:Hget.
  - apply initializeAttempts_timed_refines;
      [now repeat split | assumption | assumption |].
    specialize (Hb e eq_refl). now rewrite Z.sub_0_r.
  - exists (Throws (pluginNotFound name)), mu, mt.
    split; [reflexivity |]. split; [reflexivity |].
    split; [now repeat split |]. split; [assumption |].
    split; [lia |]. exists []. now rewrite app_nil_r.
Qed.

Lemma initializeInOrder_timed_refines (names : list string) :
  forall mu mt,
    agree mu mt -> calm mu -> NoDup names ->
    (forall x e, In x names -> JsMap.get (plugins mu) x = Some e ->
       errorCount (metrics e)
       + Z.max 0 (retryAttempts (errorHandling (config e))) <= 10) ->
    exists r mu' mt',
      initializeInOrder names mu = (r, mu') /\
      initializeInOrder_timed names mt = (r, mt') /\
      agree mu' mt' /\ calm mu' /\ now mt <= now mt' /\
      exists evs, events mt' = events mt ++ evs.
Proof.
  induction names as [| name names IH]; intros mu mt Hag Hcalm Hnd Hb.
  - exists (Returns tt), mu, mt. split; [reflexivity |].
    split; [reflexivity |]. split; [assumption |]. split; [assumption |].
    split; [lia |]. exists []. now rewrite app_nil_r.
  - inversion Hnd as [| ? ? Hnotin Hnd']; subst.
    destruct (initializePlugin_timed_refines name mu mt Hag Hcalm)
      as (r1 & mu1 & mt1 & Hu1 & Ht1 & Hag1 & Hcalm1 & Hnow1 & evs1 & Hev1).
    { intros e Hget. apply (Hb name e); [now left | assumption]. }
    cbn [initializeInOrder initializeInOrder_timed]. rewrite Hu1, Ht1.
    destruct r1 as [u | error |].
    + destruct (IH mu1 mt1 Hag1 Hcalm1 Hnd')
        as (r & mu' & mt' & Hu & Ht & Hag' & Hcalm' & Hnow' & evs' & Hev').
      { intros x e Hin Hget. apply (Hb x e); [now right |].
        apply initializePlugin_run in Hu1.
        rewrite <- Hget. symmetry. apply (ir_frame _ _ _ Hu1).
        intros [<- | []]. contradiction. }
      exists r, mu', mt'. split; [assumption |]. split; [assumption |].
      split; [assumption |]. split; [assumption |]. split; [lia |].
      exists (evs1 ++ evs'). now rewrite Hev', Hev1, app_assoc.
    + exists (Throws error), mu1, mt1. split; [reflexivity |].
      split; [reflexivity |]. split; [assumption |]. split; [assumption |].
      split; [assumption |]. now exists evs1.
    + exists OutOfFuel, mu1, mt1. split; [reflexivity |].
      split; [reflexivity |]. split; [assumption |]. split; [assumption |].
      split; [assumption |]. now exists evs1.
Qed.

(** While no error count can exceed 10, [initializePlugins] with the clock
    running ends as it does followed by itself, in a state with the same
    maps and the same events apart from those of the passage of time. *)
Lemma initializePlugins_timed_refines (m : Manager) :
  within_budget m ->
  exists r mu' mt',
    initializePlugins m = (r, mu') /\
    initializePlugins_timed m = (r, mt') /\
    agree mu' mt' /\ now m <= now mt' /\
    exists evs, events mt' = events m ++ evs.
Proof.
  intros Hb. unfold initializePlugins, initializePlugins_timed.
  pose proof (resolve_cases m) as Hcases.
  destruct (resolveInitializationOrder m) as [order | error |].
  - destruct Hcases as (Hnd & _).
    destruct (initializeInOrder_timed_refines order m m (agree_refl m)
                (within_budget_calm m Hb) Hnd)
      as (r & mu' & mt' & Hu & Ht & Hag & _ & Hnow & Hev).
    { intros x e _ Hget. exact (Hb x e Hget). }
    now exists r, mu', mt'.
  - exists (Throws error), m, m. split; [reflexivity |].
    split; [reflexivity |]. split; [apply agree_refl |]. split; [lia |].
    exists []. now rewrite app_nil_r.
  - contradiction.
Qed.

Lemma initializeInOrder_timed_app (l1 l2 : list string) :
  forall m m1,
    initializeInOrder_timed l1 m = (Returns tt, m1) ->
    initializeInOrder_timed (l1 ++ l2) m = initializeInOrder_timed l2 m1.
Proof.
  induction l1 as [| name l1 IH]; intros m m1 Hrun.
  - simpl in Hrun. now injection Hrun as <-.
  - simpl in *.
    destruct (initializePlugin_timed name m) as [[u | error |] m0];
      try discriminate.
    now apply IH.
Qed.

(** Events that tell more than the passage of time are the same in states
    that agree. *)
Lemma agree_new_events (m mu mt : Manager) (evs_u evs_t : list Event) :
  agree mu mt -> events mu = events m ++ evs_u ->
  events mt = events m ++ evs_t ->
  forall ev, is_passage ev = false -> In ev evs_t <-> In ev evs_u.
Proof.
  intros (_ & _ & He) Eu Et ev Hev.
  rewrite Eu, Et, !without_passage_app in He. apply app_inv_head in He.
  pose proof (without_passage_In ev evs_t) as Ht.
  pose proof (without_passage_In ev evs_u) as Hu.
  rewrite He in Ht. tauto.
Qed.

(** C4, as amended: [initializePlugins] walks the resolved order one plugin
    at a time, with the clock running: retry waits and timeouts take their
    time and the monitor fires when due.  If the plugins of a prefix [l1] of
    the order are initialized without an exception and the next plugin,
    [name], makes [initializePlugin] throw, then the whole call throws that
    error in the state reached there.  If moreover no error count can
    exceed 10 during the call (for every registered plugin, [errorCount]
    plus [retryAttempts] is at most 10), then no call of [initialize] has
    been made for any id after [name] in the order and their entries are
    untouched; no entry was added or removed; every plugin of [l1] that is
    allowed at least one attempt is registered with [isInitialized = true],
    and so is every plugin whose success was logged during the call and
    every plugin that was initialized before the call. *)
Theorem initializePlugins_timed_first_failure (m : Manager)
    (order l1 l2 : list string) (name : string) (m1 m2 : Manager)
    (error : Thrown) :
  resolveInitializationOrder m = Returns order ->
  order = l1 ++ name :: l2 ->
  initializeInOrder_timed l1 m = (Returns tt, m1) ->
  initializePlugin_timed name m1 = (Throws error, m2) ->
  initializePlugins_timed m = (Throws error, m2) /\
  (within_budget m ->
   JsMap.keys (plugins m2) = JsMap.keys (plugins m) /\
   (forall x, In x l2 ->
      JsMap.get (plugins m2) x = JsMap.get (plugins m) x) /\
   (forall x e, In x l1 -> JsMap.get (plugins m) x = Some e ->
      1 <= retryAttempts (errorHandling (config e)) ->
      exists e', JsMap.get (plugins m2) x = Some e' /\
                 isInitialized e' = true) /\
   (forall x e, JsMap.get (plugins m) x = Some e -> isInitialized e = true ->
      exists e', JsMap.get (plugins m2) x = Some e' /\
                 isInitialized e' = true) /\
   exists evs,
     events m2 = events m ++ evs /\
     (forall x, In x l2 -> ~ In (CalledInitialize x) evs) /\
     (forall x, In (success_log x) evs ->
        exists e', JsMap.get (plugins m2) x = Some e' /\
                   isInitialized e' = true)).
Proof.
  intros Hres Horder Hprefix Hfail.
  split.
  { unfold initializePlugins_timed. rewrite Hres, Horder.
    rewrite (initializeInOrder_timed_app l1 (name :: l2) m m1 Hprefix).
    simpl. now rewrite Hfail. }
  intros Hb.
  pose proof (resolve_cases m) as Hc. rewrite Hres, Horder in Hc.
  destruct Hc as (Hnd & _).
  assert (Hlater : forall x, In x l2 -> ~ In x (l1 ++ [name])).
  { intros x Hx Hin.
    replace (l1 ++ name :: l2) with ((l1 ++ [name]) ++ l2) in Hnd
      by (now rewrite <- app_assoc).
    exact (NoDup_app_disjoint _ _ Hnd x Hin Hx). }
  assert (Hnd1 : NoDup l1) by (now apply NoDup_app_remove_r in Hnd).
  assert (Hfresh : ~ In name l1).
  { intros Hin. apply (NoDup_app_disjoint _ _ Hnd name Hin). now left. }
  destruct (initializeInOrder_timed_refines l1 m m (agree_refl m)
              (within_budget_calm m Hb) Hnd1)
    as (r1 & mu1 & mt1 & Hu1 & Ht1 & Hag1 & Hcalm1 & _ & evs1 & Hev1).
  { intros x e _ Hget. exact (Hb x e Hget). }
  rewrite Hprefix in Ht1. injection Ht1 as <- <-.
  pose proof (initializeInOrder_run l1 m _ mu1 Hu1) as Hir1.
  destruct (initializePlugin_timed_refines name mu1 m1 Hag1 Hcalm1)
    as (r2 & mu2 & mt2 & Hu2 & Ht2 & Hag2 & _ & _ & evs2 & Hev2).
  { intros e Hget. apply (Hb name e).
    rewrite <- Hget. symmetry. now apply (ir_frame _ _ _ Hir1). }
  rewrite Hfail in Ht2. injection Ht2 as <- <-.
  pose proof (initializePlugin_run name mu1 _ mu2 Hu2) as Hir2.
  pose proof (init_run_trans l1 [name] m mu1 mu2 Hir1 Hir2) as Hir.
  assert (Hp : plugins m2 = plugins mu2) by apply Hag2.
  rewrite Hp.
  destruct Hir as [_ _ _ A4 A5 A6 (evs_u & A7 & A8 & A9 & _)].
  split; [assumption |]. split; [| split; [| split]].
  - intros x Hx. apply A5. now apply Hlater.
  - intros x e Hin Hget Hretries.
    destruct (initializeInOrder_returns_initialized l1 m mu1 Hu1 x e Hin Hget
                Hretries) as (e1 & Hget1 & Hflag1).
    destruct (ir_keeps _ _ _ Hir2 x e1 Hget1) as (e' & Hget' & _ & Hkeep).
    exists e'. split; [assumption | now apply Hkeep].
  - intros x e Hx Hflag. destruct (A6 x e Hx) as (e' & He' & _ & Hf).
    exists e'. tauto.
  - exists (evs1 ++ evs2). rewrite Hev2, Hev1, <- app_assoc.
    split; [reflexivity |].
    assert (Et : events m2 = events m ++ evs1 ++ evs2)
      by now rewrite Hev2, Hev1, <- app_assoc.
    pose proof (agree_new_events m mu2 m2 evs_u (evs1 ++ evs2) Hag2 A7 Et)
      as Hsame.
    split.
    + intros x Hx Hin. apply (Hlater x Hx), A8.
      now apply (Hsame (CalledInitialize x) eq_refl).
    + intros x Hin. apply A9. now apply (Hsame (success_log x) eq_refl).
Qed.

Lemma initializePlugins_timed_first_failure_witness :
  initializePlugins_timed broken_chain_registry =
    (Throws (initializationFailed "plugin-b" (PlainError "Critical failure") 3),
     broken_chain_clocked_b) /\
  JsMap.keys (plugins broken_chain_clocked_b) =
    JsMap.keys (plugins broken_chain_registry) /\
  (forall x, In x ["plugin-a"] ->
     JsMap.get (plugins broken_chain_clocked_b) x =
     JsMap.get (plugins broken_chain_registry) x) /\
  (forall x e, In x ["plugin-c"] ->
     JsMap.get (plugins broken_chain_registry) x = Some e ->
     1 <= retryAttempts (errorHandling (config e)) ->
     exists e', JsMap.get (plugins broken_chain_clocked_b) x = Some e' /\
                isInitialized e' = true) /\
  (forall x e, JsMap.get (plugins broken_chain_registry) x = Some e ->
     isInitialized e = true ->
     exists e', JsMap.get (plugins broken_chain_clocked_b) x = Some e' /\
                isInitialized e' = true) /\
  exists evs,
    events broken_chain_clocked_b = events broken_chain_registry ++ evs /\
    (forall x, In x ["plugin-a"] -> ~ In (CalledInitialize x) evs) /\
    (forall x, In (success_log x) evs ->
       exists e', JsMap.get (plugins broken_chain_clocked_b) x = Some e' /\
                  isInitialized e' = true).
Proof.
  destruct (initializePlugins_timed_first_failure broken_chain_registry
              ["plugin-c"; "plugin-b"; "plugin-a"] ["plugin-c"] ["plugin-a"]
              "plugin-b" broken_chain_clocked_c broken_chain_clocked_b
              (initializationFailed "plugin-b" (PlainError "Critical failure")
                 3))
    as [Hthrows Hrest].
  - vm_compute. reflexivity.
  - reflexivity.
  - vm_compute. reflexivity.
  - vm_compute. reflexivity.
  - split; [exact Hthrows |]. apply Hrest.
    apply within_budget_check_sound. vm_compute. reflexivity.
Defined.

(** C4 as stated fails, in both of its last parts.

    In [worn_chain_registry] plugin-c has 11 errors and the [terminate]
    strategy, and the clock stands 2 s before the next firing of the
    monitor.  [initializePlugins] initializes plugin-c, then plugin-b fails
    three times; during its second backoff, of 2 s, the monitor fires and
    terminates plugin-c.  The call throws for plugin-b, and plugin-c,
    initialized during the call, is no longer registered.

    In [worn_tail_registry] plugin-d, which comes after plugin-b in the
    order, has 11 errors and the [restart] strategy.  The call fails on
    plugin-b; during the second backoff the monitor restarts plugin-d, so
    that [initialize] of plugin-d has been called once more when the call
    throws. *)
Lemma initializePlugins_timed_first_failure_counterexample :
  (resolveInitializationOrder worn_chain_registry
     = Returns ["plugin-c"; "plugin-b"] /\
   exists m1 e1,
     initializeInOrder_timed ["plugin-c"] worn_chain_registry
       = (Returns tt, m1) /\
     JsMap.get (plugins m1) "plugin-c" = Some e1 /\
     isInitialized e1 = true /\
     exists m2,
       initializePlugin_timed "plugin-b" m1
         = (Throws (initializationFailed "plugin-b"
                      (PlainError "Critical failure") 3), m2) /\
       initializePlugins_timed worn_chain_registry
         = (Throws (initializationFailed "plugin-b"
                      (PlainError "Critical failure") 3), m2) /\
       ~ registered m2 "plugin-c") /\
  (resolveInitializationOrder worn_tail_registry
     = Returns ["plugin-b"; "plugin-d"] /\
   exists m2,
     initializePlugins_timed worn_tail_registry
       = (Throws (initializationFailed "plugin-b"
                    (PlainError "Critical failure") 3), m2) /\
     length (filter (is_call "plugin-d") (events m2)) =
       S (length (filter (is_call "plugin-d") (events worn_tail_registry)))).
Proof.
  split.
  - split; [vm_compute; reflexivity |].
    eexists. eexists. split; [vm_compute; reflexivity |].
    split; [vm_compute; reflexivity |]. split; [reflexivity |].
    eexists. split; [vm_compute; reflexivity |].
    split; [vm_compute; reflexivity |].
    unfold registered. vm_compute. intros [H | []]. discriminate H.
  - split; [vm_compute; reflexivity |].
    eexists. split; [vm_compute; reflexivity |].
    vm_compute. reflexivity.
Qed.

(** X10: when [initializePlugins], with the clock running, returns in a
    registry where no error count can exceed 10 during the call, every
    registered plugin whose [retryAttempts], an integer, is at least 1 is
    marked initialized. *)
Theorem initializePlugins_timed_initializes_all (m m' : Manager) :
  within_budget m ->
  initializePlugins_timed m = (Returns tt, m') ->
  forall x e, JsMap.get (plugins m) x = Some e ->
  1 <= retryAttempts (errorHandling (config e)) ->
  exists e', JsMap.get (plugins m') x = Some e' /\ isInitialized e' = true.
Proof.
  intros Hb Hrun x e Hget Hretries.
  destruct (initializePlugins_timed_refines m Hb)
    as (r & mu' & mt' & Hu & Ht & Hag & _).
  rewrite Hrun in Ht. injection Ht as <- <-.
  destruct Hag as (Hp & _). rewrite Hp.
  unfold initializePlugins in Hu.
  pose proof (resolve_cases m) as Hcases.
  destruct (resolveInitializationOrder m) as [order | err |];
    try discriminate Hu.
  destruct Hcases as (_ & Hall & _).
  apply (initializeInOrder_returns_initialized order m mu' Hu x e);
    [| assumption | assumption].
  apply Hall. apply map_get_In. now exists e.
Qed.

Lemma initializePlugins_timed_initializes_all_witness :
  exists e',
    JsMap.get (plugins (snd (initializePlugins_timed chain_registry)))
      "plugin-a" = Some e' /\
    isInitialized e' = true.
Proof.
  eapply (initializePlugins_timed_initializes_all chain_registry).
  - apply within_budget_check_sound. vm_compute. reflexivity.
  - vm_compute. reflexivity.
  - reflexivity.
  - vm_compute. discriminate.
Defined.

(** X12: what [initializePlugins] never does while no error count can
    exceed 10 during the call.  Whatever its outcome, and with the clock
    running, it leaves the dependency map and the set and order of
    registered ids alone, and the clock does not go back; every entry keeps
    its configuration, heartbeat and warning count and never loses its
    initialization flag; [initialize] is called for registered ids only and
    [destroy] is never called. *)
Theorem initializePlugins_timed_footprint (m : Manager) :
  within_budget m ->
  let m' := snd (initializePlugins_timed m) in
  dependencies m' = dependencies m /\ now m <= now m' /\
  JsMap.keys (plugins m') = JsMap.keys (plugins m) /\
  (forall x e, JsMap.get (plugins m) x = Some e ->
     exists e', JsMap.get (plugins m') x = Some e' /\
       config e' = config e /\
       lastHeartbeat (metrics e') = lastHeartbeat (metrics e) /\
       warningCount (metrics e') = warningCount (metrics e) /\
       (isInitialized e = true -> isInitialized e' = true)) /\
  exists evs,
    events m' = events m ++ evs /\
    (forall x, In (CalledInitialize x) evs -> registered m x) /\
    (forall x, ~ In (CalledDestroy x) evs).
Proof.
  intros Hb. cbv zeta.
  destruct (initializePlugins_timed_refines m Hb)
    as (r & mu' & mt' & Hu & Ht & Hag & Hnow & evs_t & Et).
  rewrite Ht. cbn [snd].
  pose proof (initializePlugins_alone m) as Halone. cbv zeta in Halone.
  rewrite Hu in Halone. cbn [snd] in Halone.
  destruct Halone as (Hd & _ & _ & Hk & Hkeeps & evs_u & Eu & Hcalls & Hnone).
  pose proof (agree_new_events m mu' mt' evs_u evs_t Hag Eu Et) as Hsame.
  destruct Hag as (Hp & Hd' & _). rewrite Hp, Hd'.
  split; [assumption |]. split; [assumption |]. split; [assumption |].
  split; [assumption |]. exists evs_t. split; [assumption |]. split.
  - intros x Hin. apply Hcalls. now apply (Hsame (CalledInitialize x) eq_refl).
  - intros x Hin. apply (Hnone x). now apply (Hsame (CalledDestroy x) eq_refl).
Qed.

Lemma initializePlugins_timed_footprint_witness :
  dependencies (snd (initializePlugins_timed broken_chain_registry))
    = dependencies broken_chain_registry /\
  now broken_chain_registry
    <= now (snd (initializePlugins_timed broken_chain_registry)) /\
  JsMap.keys (plugins (snd (initializePlugins_timed broken_chain_registry)))
    = JsMap.keys (plugins broken_chain_registry) /\
  (forall x e, JsMap.get (plugins broken_chain_registry) x = Some e ->
     exists e',
       JsMap.get (plugins (snd (initializePlugins_timed broken_chain_registry)))
         x = Some e' /\
       config e' = config e /\
       lastHeartbeat (metrics e') = lastHeartbeat (metrics e) /\
       warningCount (metrics e') = warningCount (metrics e) /\
       (isInitialized e = true -> isInitialized e' = true)) /\
  exists evs,
    events (snd (initializePlugins_timed broken_chain_registry))
      = events broken_chain_registry ++ evs /\
    (forall x, In (CalledInitialize x) evs ->
       registered broken_chain_registry x) /\
    (forall x, ~ In (CalledDestroy x) evs).
Proof.
  apply (initializePlugins_timed_footprint broken_chain_registry).
  apply within_budget_check_sound. vm_compute. reflexivity.
Defined.

(** ** Health monitoring *)

Lemma heartbeat_check_stale (name : string) (e : PluginEntry) (m : Manager) :
  30000 < now m - lastHeartbeat (metrics e) ->
  heartbeat_check name e m = emit (heartbeat_warning name) m.
Proof.
  intros Hstale. unfold heartbeat_check.
  assert (Hgt : (now m - lastHeartbeat (metrics e) >? 30000) = true)
    by (rewrite Z.gtb_ltb; now apply Z.ltb_lt).
  rewrite Hgt. reflexivity.
Qed.

Lemma monitor_entries_warns (names : list string) :
  forall m x e,
    In x names -> JsMap.get (plugins m) x = Some e ->
    30000 < now m - lastHeartbeat (metrics e) ->
    exists evs,
      events (monitor_entries names m) = events m ++ evs /\
      In (heartbeat_warning x) evs.
Proof.
  induction names as [| name names IH]; intros m x e Hin Hget Hstale;
    [contradiction |].
  cbn [monitor_entries]. destruct (String.eqb_spec name x) as [-> | Hne].
  - rewrite Hget. rewrite (heartbeat_check_stale x e m Hstale).
    set (m1 := emit (heartbeat_warning x) m).
    assert (Hrest : forall m2, accounted m1 m2 ->
              exists evs, events (monitor_entries names m2) = events m ++ evs /\
                          In (heartbeat_warning x) evs).
    { intros m2 H2.
      pose proof (accounted_trans _ _ _ H2 (monitor_entries_accounted names m2))
        as H3.
      apply accounted_events in H3. destruct H3 as [evs3 E3].
      exists (heartbeat_warning x :: evs3). split; [| now left].
      rewrite E3. unfold m1. cbn [events emit]. now rewrite <- app_assoc. }
    destruct (errorCount (metrics e) >? 10).
    + apply Hrest. eapply recovery_effect_accounted.
      apply handlePluginFailure_effect.
    + apply Hrest. apply accounted_refl.
  - assert (Hin' : In x names) by (destruct Hin; [contradiction | assumption]).
    destruct (JsMap.get (plugins m) name) as [en |];
      [| now apply (IH m x e)].
    destruct (heartbeat_check_accounted name en m) as [P1 H1].
    destruct (heartbeat_check_keeps name en m) as (N1 & _ & _).
    apply accounted_events in H1. destruct H1 as [evs1 E1].
    set (m1 := heartbeat_check name en m) in *.
    assert (Hget1 : JsMap.get (plugins m1) x = Some e) by now rewrite P1.
    destruct (errorCount (metrics en) >? 10).
    + destruct (handlePluginFailure_effect name en m1)
        as [Hframe (evs2 & E2 & _)].
      destruct (handlePluginFailure_keeps name en m1) as (N2 & _ & _).
      set (m2 := snd (handlePluginFailure name en m1)) in *.
      assert (Hget2 : JsMap.get (plugins m2) x = Some e).
      { rewrite (Hframe x); [assumption |]. intros ->. now apply Hne. }
      destruct (IH m2 x e Hin' Hget2) as (evs3 & E3 & Hin3); [lia |].
      eexists. split.
      * rewrite E3, E2, E1, <- !app_assoc. reflexivity.
      * apply in_or_app. right. right. apply in_or_app. now right.
    + destruct (IH m1 x e Hin' Hget1) as (evs3 & E3 & Hin3); [lia |].
      eexists. split.
      * rewrite E3, E1, <- !app_assoc. reflexivity.
      * apply in_or_app. now right.
Qed.

Lemma fire_warns (m : Manager) (x : string) (e : PluginEntry) :
  JsMap.get (plugins m) x = Some e ->
  30000 < nextTick m - lastHeartbeat (metrics e) ->
  exists evs,
    events (fire m) = events m ++ evs /\ In (heartbeat_warning x) evs.
Proof.
  intros Hget Hstale. unfold fire, tick.
  set (m1 := mkManager (plugins m) (dependencies m) (nextTick m)
                       (nextTick m + monitor_period) (events m)).
  change (events m) with (events m1).
  apply (monitor_entries_warns _ m1 x e); [| exact Hget | exact Hstale].
  apply map_get_In. now exists e.
Qed.

Lemma run_due_nextTick (target : Z) (fuel : nat) :
  forall m, nextTick m <= nextTick (run_due fuel target m).
Proof.
  induction fuel as [| fuel IH]; intros m; cbn [run_due]; [lia |].
  destruct (nextTick m <=? target); [| lia].
  destruct (fire_clock m) as (_ & T & _). unfold monitor_period in T.
  specialize (IH (fire m)). lia.
Qed.

Lemma registerPlugin_clock (name : string) (p : Plugin) (cfg : PluginConfig)
    (m : Manager) :
  now (snd (registerPlugin name p cfg m)) = now m /\
  nextTick (snd (registerPlugin name p cfg m)) = nextTick m.
Proof.
  unfold registerPlugin. destruct (validatePluginConfig name cfg m);
    [| split; reflexivity | split; reflexivity].
  destruct (dependencies_of_config (normalizeConfig cfg)); split; reflexivity.
Qed.

Lemma run_nextTick (op : Operation) (m : Manager) :
  nextTick m <= nextTick (run op m).
Proof.
  assert (Hk : forall m', keeps m m' -> nextTick m <= nextTick m').
  { intros m' (_ & T & _). lia. }
  destruct op as [name p cfg | | name | | ms | name | name | name]; cbn [run].
  - destruct (registerPlugin_clock name p cfg m) as [_ T]. lia.
  - apply Hk, initializePlugins_keeps.
  - apply Hk, initializePlugin_keeps.
  - destruct (fire_clock m) as (_ & T & _). unfold monitor_period in T. lia.
  - unfold advanceTimersByTime. cbn [nextTick]. apply run_due_nextTick.
  - apply Hk, restartPlugin_keeps.
  - apply Hk, failoverPlugin_keeps.
  - apply Hk, terminatePlugin_keeps.
Qed.

Lemma run_all_grows (ops : list Operation) :
  forall (m : Manager) (x : string) (e : PluginEntry),
    JsMap.get (plugins m) x = Some e ->
    registered_along x ops m ->
    exists e', JsMap.get (plugins (run_all ops m)) x = Some e' /\
               entry_grows e e' /\ nextTick m <= nextTick (run_all ops m).
Proof.
  induction ops as [| op ops IH]; intros m x e Hget Halong.
  - exists e. split; [assumption |]. split; [apply entry_grows_refl |].
    simpl. lia.
  - destruct Halong as [Hreg Halong].
    apply map_get_In in Hreg. destruct Hreg as [e1 Hget1].
    destruct (run_tracks op m x e e1 Hget Hget1) as (_ & _ & Hg1 & _).
    destruct (IH (run op m) x e1 Hget1 Halong) as (e' & Hget' & Hg' & Ht).
    exists e'. split; [exact Hget' |].
    split; [exact (entry_grows_trans _ _ _ Hg1 Hg') |].
    pose proof (run_nextTick op m).
    change (run_all (op :: ops) m) with (run_all ops (run op m)). lia.
Qed.

(** X13: no operation of the manager refreshes [lastHeartbeat].  If a
    registered plugin's heartbeat will be more than 30000 ms old when the
    monitor fires next, then after any further operations that leave the
    plugin registered the monitor's next firing still logs the heartbeat
    warning for it. *)
Theorem stale_heartbeat_stays_stale (ops : list Operation) (m : Manager)
    (x : string) (e : PluginEntry) :
  JsMap.get (plugins m) x = Some e ->
  30000 < nextTick m - lastHeartbeat (metrics e) ->
  registered_along x ops m ->
  exists e' evs,
    JsMap.get (plugins (run_all ops m)) x = Some e' /\
    lastHeartbeat (metrics e') = lastHeartbeat (metrics e) /\
    events (fire (run_all ops m)) = events (run_all ops m) ++ evs /\
    In (heartbeat_warning x) evs.
Proof.
  intros Hget Hstale Halong.
  destruct (run_all_grows ops m x e Hget Halong) as (e' & Hget' & Hg & Ht).
  destruct Hg as (_ & Hh & _).
  destruct (fire_warns (run_all ops m) x e' Hget') as (evs & E & Hin); [lia |].
  exists e', evs. auto.
Qed.

Lemma stale_heartbeat_stays_stale_witness :
  exists e' evs,
    JsMap.get
      (plugins (run_all [InitializeAll; Advance 20000] stale_registry))
      "test-plugin" = Some e' /\
    lastHeartbeat (metrics e') = lastHeartbeat (metrics stale_entry) /\
    events (fire (run_all [InitializeAll; Advance 20000] stale_registry)) =
      events (run_all [InitializeAll; Advance 20000] stale_registry) ++ evs /\
    In (heartbeat_warning "test-plugin") evs.
Proof.
  apply stale_heartbeat_stays_stale.
  - reflexivity.
  - vm_compute. reflexivity.
  - apply registered_along_check_sound. vm_compute. reflexivity.
Defined.

(** ** Termination *)

Lemma map_delete_set {V} (m : JsMap.t V) (k : string) (v : V) :
  JsMap.delete (JsMap.set m k v) k = JsMap.delete m k.
Proof.
  induction m as [| [k' v'] rest IH]; simpl.
  - now rewrite String.eqb_refl.
  - destruct (String.eqb k' k) eqn:Hk; simpl.
    + now rewrite String.eqb_refl.
    + rewrite Hk. now f_equal.
Qed.

Lemma attempt_destroy_removable (name : string) (e : PluginEntry)
    (m : Manager) :
  exists e' m',
    attempt_destroy name e m = (destroy_outcome e, e', m') /\
    JsMap.delete (plugins m') name = JsMap.delete (plugins m) name /\
    dependencies m' = dependencies m /\ now m' = now m /\
    nextTick m' = nextTick m.
Proof.
  unfold attempt_destroy, destroy_outcome.
  destruct (destroy_behaviour (plugin e)) as [behaviour |].
  - destruct (behaviour (destroy_calls (plugin e))); eexists; eexists;
      (split; [reflexivity |]); cbn [plugins dependencies now nextTick emit
        write_entry with_plugins]; rewrite map_delete_set; auto.
  - exists e, m. auto.
Qed.

Lemma terminatePlugin_removed (name : string) (m : Manager) (e : PluginEntry) :
  JsMap.get (plugins m) name = Some e -> destroy_outcome e = None ->
  exists m',
    terminatePlugin name m = (Returns tt, m') /\
    plugins m' = JsMap.delete (plugins m) name /\
    dependencies m' = JsMap.delete (dependencies m) name /\
    now m' = now m /\ nextTick m' = nextTick m.
Proof.
  intros Hget Hout. unfold terminatePlugin.
  set (m1 := logger_info ("Terminating plugin: " ++ name)%string m).
  assert (Hget1 : JsMap.get (plugins m1) name = Some e) by exact Hget.
  rewrite Hget1.
  destruct (attempt_destroy_removable name e m1)
    as (e' & m2 & -> & Hp & Hd & Hn & Ht).
  rewrite Hout. eexists. split; [reflexivity |].
  cbn [plugins dependencies now nextTick with_plugins with_dependencies].
  rewrite Hp, Hd, Hn, Ht. auto.
Qed.

(** X14: termination does not look at who depends on the plugin.  When a
    plugin that another registered plugin depends on is terminated (its
    [destroy] being absent or resolving), the dependent keeps the dependency
    in its set, the registry is left with a missing dependency, and the next
    [initializePlugins] throws without initializing anything. *)
Theorem terminatePlugin_strands_dependents (m : Manager) (a b : string)
    (e : PluginEntry) :
  JsMap.get (plugins m) a = Some e -> destroy_outcome e = None ->
  registered m b -> b <> a -> depends m b a ->
  exists m',
    terminatePlugin a m = (Returns tt, m') /\
    registered m' b /\ depends m' b a /\ ~ registered m' a /\
    exists err, initializePlugins m' = (Throws err, m') /\
                (cycle_report m' err \/ missing_report m' err).
Proof.
  intros Hget Hout Hb Hne Hdep.
  destruct (terminatePlugin_removed a m e Hget Hout)
    as (m' & Hrun & Hp & Hd & _).
  exists m'. split; [exact Hrun |].
  assert (Hb' : registered m' b).
  { unfold registered. rewrite Hp. apply map_keys_delete_In. now split. }
  assert (Hdep' : depends m' b a).
  { unfold depends, deps_of. rewrite Hd.
    rewrite map_get_delete_other by assumption. exact Hdep. }
  assert (Ha' : ~ registered m' a).
  { unfold registered. rewrite Hp. intros Hin.
    apply map_keys_delete_In in Hin. now destruct Hin. }
  repeat (split; [assumption |]).
  apply initializePlugins_unresolved. right. now exists b, a.
Qed.

Lemma terminatePlugin_strands_dependents_witness :
  exists m',
    terminatePlugin "a" dependent_registry = (Returns tt, m') /\
    registered m' "b" /\ depends m' "b" "a" /\ ~ registered m' "a" /\
    exists err, initializePlugins m' = (Throws err, m') /\
                (cycle_report m' err \/ missing_report m' err).
Proof.
  apply (terminatePlugin_strands_dependents dependent_registry "a" "b"
           dependent_entry_a).
  - reflexivity.
  - reflexivity.
  - unfold registered. simpl. right. now left.
  - discriminate.
  - unfold depends. simpl. now left.
Defined.

(** X15: registering a new id and then terminating it (its [destroy] being
    absent or resolving) undoes the registration: both maps, the clock and
    the timer of a reachable manager are exactly what they were; only the
    log has grown. *)
Theorem register_terminate_round_trip (m : Manager) (name : string)
    (p : Plugin) (cfg : PluginConfig) :
  reachable m -> ~ registered m name ->
  ~ In ""%string (dependencies_of_config (normalizeConfig cfg)) ->
  destroy_outcome
    (mkEntry p (normalizeConfig cfg) false (mkMetrics (now m) 0 0)) = None ->
  exists m1 m2,
    registerPlugin name p cfg m = (Returns tt, m1) /\
    terminatePlugin name m1 = (Returns tt, m2) /\
    plugins m2 = plugins m /\ dependencies m2 = dependencies m /\
    now m2 = now m /\ nextTick m2 = nextTick m.
Proof.
  intros Hreach Hfresh Hdeps Hout.
  pose proof (wf_owner m (reachable_well_formed m Hreach) name) as Howner.
  assert (Hnodep : ~ In name (JsMap.keys (dependencies m))) by tauto.
  eexists. 
  set (entry := mkEntry p (normalizeConfig cfg) false (mkMetrics (now m) 0 0))
    in *.
  destruct (terminatePlugin_removed name
              (mkManager
                 (plugins m ++ [(name, entry)])
                 (match dependencies_of_config (normalizeConfig cfg) with
                  | [] => dependencies m
                  | deps => JsMap.set (dependencies m) name (JsSet.from_list deps)
                  end)
                 (now m) (nextTick m)
                 (events m ++
                  [Logged INFO ("Registered plugin: " ++ name)%string None]))
              entry)
    as (m2 & Hrun & Hp & Hd & Hn & Ht).
  - cbn [plugins]. rewrite <- (map_set_fresh _ _ _ Hfresh).
    apply map_get_set_same.
  - exact Hout.
  - exists m2. split; [now apply registerPlugin_fresh |].
    split; [exact Hrun |].
    cbn [plugins dependencies now nextTick] in Hp, Hd, Hn, Ht.
    repeat split; try assumption.
    + rewrite Hp, <- (map_set_fresh _ _ _ Hfresh).
      now apply map_delete_set_fresh.
    + rewrite Hd. destruct (dependencies_of_config (normalizeConfig cfg)).
      * now apply map_delete_absent.
      * now apply map_delete_set_fresh.
Qed.

Lemma register_terminate_round_trip_witness :
  exists m1 m2,
    registerPlugin "plugin-d" steady_plugin (requiring ["plugin-a"])
      chain_registry = (Returns tt, m1) /\
    terminatePlugin "plugin-d" m1 = (Returns tt, m2) /\
    plugins m2 = plugins chain_registry /\
    dependencies m2 = dependencies chain_registry /\
    now m2 = now chain_registry /\ nextTick m2 = nextTick chain_registry.
Proof.
  apply register_terminate_round_trip.
  - apply chain_registry_reachable.
  - unfold registered. simpl. intros [H | [H | [H | []]]]; discriminate H.
  - simpl. intros [H | []]. discriminate H.
  - reflexivity.
Defined.

(** ** The error classes *)

Lemma spread_fresh (source : Errors.Obj) :
  forall target,
    NoDup (JsMap.keys (target ++ source)) ->
    Errors.spread target source = target ++ source.
Proof.
  induction source as [| [k v] rest IH]; intros target Hnd.
  - now rewrite app_nil_r.
  - unfold Errors.spread. cbn [fold_left fst snd].
    assert (Hfresh : ~ In k (JsMap.keys target)).
    { unfold JsMap.keys in *. rewrite map_app in Hnd. simpl in Hnd.
      apply NoDup_remove_2 in Hnd. intros Hin. apply Hnd.
      apply in_or_app. now left. }
    rewrite (map_set_fresh _ _ _ Hfresh).
    change (fold_left _ rest (target ++ [(k, v)]))
      with (Errors.spread (target ++ [(k, v)]) rest).
    rewrite IH; rewrite <- app_assoc; [reflexivity | exact Hnd].
Qed.

Lemma spread_copy (source : Errors.Obj) :
  NoDup (JsMap.keys source) -> Errors.spread [] source = source.
Proof. intros Hnd. now apply (spread_fresh source []). Qed.

Lemma spread_get (source : Errors.Obj) :
  forall target k,
    NoDup (JsMap.keys source) ->
    JsMap.get (Errors.spread target source) k =
      match JsMap.get source k with
      | Some v => Some v
      | None => JsMap.get target k
      end.
Proof.
  induction source as [| [k0 v0] rest IH]; intros target k Hnd.
  - reflexivity.
  - unfold Errors.spread. cbn [fold_left fst snd].
    change (fold_left _ rest (JsMap.set target k0 v0))
      with (Errors.spread (JsMap.set target k0 v0) rest).
    simpl in Hnd. inversion Hnd as [| ? ? Hk0 Hrest]; subst.
    rewrite IH by assumption. cbn [JsMap.get].
    destruct (String.eqb_spec k0 k) as [-> | Hne].
    + rewrite (proj2 (map_get_None rest k) Hk0). apply map_get_set_same.
    + destruct (JsMap.get rest k); [reflexivity |].
      apply map_get_set_other. congruence.
Qed.

(** X16: [withErrorHandling] passes a result through, and whatever the
    operation rejects with, the caller gets an [ElizaError]: an
    [ElizaError] (of any subclass) is rethrown as it is, anything else is
    wrapped.  Hence wrapping twice is the same as wrapping once: the outer
    context is never used. *)
Theorem withErrorHandling_idempotent {T : Type} (rt1 rt2 : Errors.Runtime)
    (operation : unit -> Errors.Settled T) (c1 c2 : option Errors.Obj) :
  Errors.withErrorHandling rt2
    (fun _ => Errors.withErrorHandling rt1 operation c1) c2 =
  Errors.withErrorHandling rt1 operation c1 /\
  (forall v, operation tt = Errors.Fulfilled v ->
     Errors.withErrorHandling rt1 operation c1 = Errors.Fulfilled v) /\
  (forall reason,
     Errors.withErrorHandling rt1 operation c1 = Errors.Rejected reason ->
     exists e, reason = Errors.CaughtError (Errors.Eliza e) /\
       (forall e0,
          operation tt = Errors.Rejected (Errors.CaughtError (Errors.Eliza e0))
          -> e = e0)).
Proof.
  unfold Errors.withErrorHandling.
  destruct (operation tt) as [v | [[n m s c | e] | v]];
    (split; [reflexivity |]); split.
  - intros v' H. exact H.
  - intros reason H. discriminate H.
  - intros v' H. discriminate H.
  - intros reason H. injection H as <-. eexists. split; [reflexivity |].
    intros e0 H0. discriminate H0.
  - intros v' H. discriminate H.
  - intros reason H. injection H as <-. exists e. split; [reflexivity |].
    intros e0 H0. now injection H0.
  - intros v' H. discriminate H.
  - intros reason H. injection H as <-. eexists. split; [reflexivity |].
    intros e0 H0. discriminate H0.
Qed.

(** X17: enriching an [ElizaError] keeps its message, code and cause, but
    the result is a plain [ElizaError] with a new timestamp, also for a
    [BlockchainError] or [TradingError]; in its context the additional
    entries win over the entries of the original context, which are
    otherwise kept. *)
Theorem enrichError_merges_context (rt : Errors.Runtime)
    (e : Errors.ElizaError) (additionalContext : Errors.Obj) :
  NoDup (JsMap.keys additionalContext) ->
  (forall c, Errors.context e = Some c -> NoDup (JsMap.keys c)) ->
  let enriched := Errors.enrichError rt (Errors.Eliza e) additionalContext in
  Errors.message enriched = Errors.message e /\
  Errors.code enriched = Errors.code e /\
  Errors.cause enriched = Errors.cause e /\
  Errors.name enriched = "ElizaError"%string /\
  Errors.timestamp enriched = Errors.date_now rt /\
  exists ctx,
    Errors.context enriched = Some ctx /\
    forall k,
      JsMap.get ctx k =
        match JsMap.get additionalContext k with
        | Some v => Some v
        | None =>
            match Errors.context e with
            | Some c => JsMap.get c k
            | None => None
            end
        end.
Proof.
  intros Hadd Hctx. cbv zeta. unfold Errors.enrichError, Errors.new_ElizaError.
  cbn [Errors.message Errors.code Errors.cause Errors.name Errors.timestamp
       Errors.context Errors.optional Errors.opt_code Errors.opt_cause
       Errors.opt_context or_default].
  repeat (split; [reflexivity |]).
  eexists. split; [reflexivity |]. intros k.
  rewrite spread_get by assumption.
  destruct (JsMap.get additionalContext k); [reflexivity |].
  destruct (Errors.context e) as [c |]; [| reflexivity].
  cbn [Errors.spread_optional]. now rewrite spread_copy by now apply Hctx.
Qed.

Lemma enrichError_merges_context_witness :
  let enriched :=
    Errors.enrichError Errors.sample_runtime (Errors.Eliza Errors.rpc_error)
      [("attempt"%string, Errors.VNumber 2);
       ("endpoint"%string, Errors.VString "backup")] in
  Errors.message enriched = Errors.message Errors.rpc_error /\
  Errors.code enriched = Errors.code Errors.rpc_error /\
  Errors.cause enriched = Errors.cause Errors.rpc_error /\
  Errors.name enriched = "ElizaError"%string /\
  Errors.timestamp enriched = Errors.date_now Errors.sample_runtime /\
  exists ctx,
    Errors.context enriched = Some ctx /\
    forall k,
      JsMap.get ctx k =
        match JsMap.get [("attempt"%string, Errors.VNumber 2);
                         ("endpoint"%string, Errors.VString "backup")] k with
        | Some v => Some v
        | None =>
            match Errors.context Errors.rpc_error with
            | Some c => JsMap.get c k
            | None => None
            end
        end.
Proof.
  apply (enrichError_merges_context Errors.sample_runtime Errors.rpc_error).
  - apply distinct_NoDup. reflexivity.
  - intros c Hc. injection Hc as <-. apply distinct_NoDup. reflexivity.
Defined.

Lemma chain_from_head (e : Errors.JsError) :
  exists tl, Errors.chain_from e = e :: tl.
Proof.
  destruct e as [n m s [c |] | [n m c [ca |] ctx t sa st]]; simpl; eauto.
Qed.

Lemma chain_from_cause (e : Errors.JsError) :
  Errors.chain_from e =
    e :: match Errors.cause_of e with
         | Some next => Errors.chain_from next
         | None => []
         end.
Proof.
  destruct e as [n m s [c |] | [n m c [ca |] ctx t sa st]]; reflexivity.
Qed.

Lemma last_nonempty {A} (l : list A) (a d d' : A) :
  last (a :: l) d = last (a :: l) d'.
Proof.
  revert a. induction l as [| b l IH]; intros a; [reflexivity |].
  change (last (b :: l) d = last (b :: l) d'). apply IH.
Qed.

Lemma chain_from_linked :
  forall e,
    Errors.linked (Errors.chain_from e) /\
    Errors.cause_of (last (Errors.chain_from e) e) = None.
Proof.
  fix IH 1.
  assert (Hstep : forall e next,
            Errors.cause_of e = Some next ->
            Errors.linked (Errors.chain_from next) /\
            Errors.cause_of (last (Errors.chain_from next) next) = None ->
            Errors.linked (e :: Errors.chain_from next) /\
            Errors.cause_of (last (e :: Errors.chain_from next) e) = None).
  { intros e next Hc [Hl Hlast].
    destruct (chain_from_head next) as [tl Htl]. rewrite Htl in *.
    split.
    - cbn [Errors.linked]. split; assumption.
    - change (last (e :: next :: tl) e) with (last (next :: tl) e).
      now rewrite (last_nonempty tl next e next). }
  intros [n m s [c |] | [n m c [ca |] ctx t sa st]].
  - change (Errors.chain_from (Errors.Plain n m s (Some c)))
      with (Errors.Plain n m s (Some c) :: Errors.chain_from c).
    apply Hstep; [reflexivity | apply IH].
  - simpl. split; [exact I | reflexivity].
  - change (Errors.chain_from
              (Errors.Eliza (Errors.mkElizaError n m c (Some ca) ctx t sa st)))
      with (Errors.Eliza (Errors.mkElizaError n m c (Some ca) ctx t sa st)
            :: Errors.chain_from ca).
    apply Hstep; [reflexivity | apply IH].
  - simpl. split; [exact I | reflexivity].
Qed.

Lemma getErrorChain_chain_from (this : Errors.ElizaError) :
  Errors.getErrorChain this = Errors.chain_from (Errors.Eliza this).
Proof. now rewrite chain_from_cause. Qed.

(** X18: the error chain starts with the error itself, each further member
    is the cause of the one before it, and the last member has no cause. *)
Theorem getErrorChain_follows_causes (this : Errors.ElizaError) :
  (exists rest, Errors.getErrorChain this = Errors.Eliza this :: rest) /\
  Errors.linked (Errors.getErrorChain this) /\
  Errors.cause_of (last (Errors.getErrorChain this) (Errors.Eliza this)) = None.
Proof.
  rewrite getErrorChain_chain_from. split.
  - apply chain_from_head.
  - apply chain_from_linked.
Qed.

(** X19: enriching an [ElizaError] puts the new error in its place at the
    head of the chain (the original is not a cause of the new one, so the
    chain keeps its length), while enriching any other error puts the new
    error in front of the whole chain of the original. *)
Theorem enrichError_chain (rt : Errors.Runtime) (error : Errors.JsError)
    (additionalContext : Errors.Obj) :
  Errors.getErrorChain (Errors.enrichError rt error additionalContext) =
    Errors.Eliza (Errors.enrichError rt error additionalContext) ::
    match error with
    | Errors.Eliza e => tl (Errors.getErrorChain e)
    | Errors.Plain _ _ _ _ => Errors.chain_from error
    end.
Proof.
  destruct error as [n m s c | e]; reflexivity.
Qed.



(** ** The logger *)

Lemma fold_apply_formatter_None (fmts : JsMap.t (Errors.Value -> string)) :
  fold_left Logging.apply_formatter fmts None = None.
Proof. induction fmts as [| kf rest IH]; [reflexivity | exact IH]. Qed.

Lemma apply_formatter_is_some (ctx : option Errors.Obj)
    (kf : string * (Errors.Value -> string)) :
  Logging.is_some (Logging.apply_formatter ctx kf) = Logging.is_some ctx.
Proof.
  destruct ctx as [o |]; [| reflexivity]. unfold Logging.apply_formatter.
  destruct (JsMap.get o (fst kf)) as [v |].
  - now destruct (Logging.truthy v).
  - now destruct (Logging.inherits (fst kf)).
Qed.

Lemma apply_formatter_lookup (ctx : option Errors.Obj) (k0 : string)
    (f0 : Errors.Value -> string) (k : string) :
  Logging.lookup (Logging.apply_formatter ctx (k0, f0)) k =
    if String.eqb k0 k
    then match Logging.lookup ctx k with
         | Some v => Some (if Logging.truthy v then Errors.VString (f0 v) else v)
         | None =>
             if Logging.is_some ctx && Logging.inherits k
             then Some (Errors.VString (f0 (Errors.VFunction k)))
             else None
         end
    else Logging.lookup ctx k.
Proof.
  destruct ctx as [o |];
    [| cbn; now destruct (String.eqb k0 k)].
  unfold Logging.apply_formatter.
  cbn [fst snd Logging.lookup Logging.is_some andb].
  destruct (String.eqb_spec k0 k) as [-> | Hne].
  - destruct (JsMap.get o k) as [v |] eqn:Hget; cbn [Logging.lookup].
    + destruct (Logging.truthy v); cbn [Logging.lookup].
      * apply map_get_set_same.
      * exact Hget.
    + destruct (Logging.inherits k); cbn [Logging.lookup].
      * apply map_get_set_same.
      * exact Hget.
  - destruct (JsMap.get o k0) as [v0 |] eqn:Hget0; cbn [Logging.lookup].
    + destruct (Logging.truthy v0); cbn [Logging.lookup].
      * now rewrite map_get_set_other by congruence.
      * reflexivity.
    + destruct (Logging.inherits k0); cbn [Logging.lookup].
      * now rewrite map_get_set_other by congruence.
      * reflexivity.
Qed.

Lemma fold_apply_formatter_lookup (fmts : JsMap.t (Errors.Value -> string)) :
  forall ctx k,
    NoDup (JsMap.keys fmts) ->
    Logging.lookup (fold_left Logging.apply_formatter fmts ctx) k =
      Logging.formatted_lookup fmts k (Logging.is_some ctx)
        (Logging.lookup ctx k).
Proof.
  induction fmts as [| [k0 f0] rest IH]; intros ctx k Hnd.
  - cbn [fold_left].
    unfold Logging.formatted_lookup, Logging.formatted_value,
      Logging.inherited_value.
    simpl. destruct (Logging.lookup ctx k); [reflexivity |].
    now destruct (Logging.is_some ctx).
  - cbn [fold_left]. simpl in Hnd.
    inversion Hnd as [| ? ? Hk0 Hrest]; subst.
    rewrite IH by assumption.
    rewrite apply_formatter_lookup, apply_formatter_is_some.
    unfold Logging.formatted_lookup, Logging.formatted_value,
      Logging.inherited_value.
    cbn [JsMap.get].
    destruct (String.eqb_spec k0 k) as [-> | Hne]; [| reflexivity].
    rewrite (proj2 (map_get_None rest k) Hk0).
    destruct (Logging.lookup ctx k) as [v |]; [reflexivity |].
    destruct (Logging.is_some ctx), (Logging.inherits k); reflexivity.
Qed.

(** A key the context owns is formatted in place. *)
Lemma fold_apply_formatter_own (fmts : JsMap.t (Errors.Value -> string))
    (c : Errors.Obj) (k : string) :
  NoDup (JsMap.keys fmts) ->
  Logging.lookup (fold_left Logging.apply_formatter fmts (Some c)) k =
    match JsMap.get c k with
    | Some v => Some (Logging.formatted_value fmts k v)
    | None => Logging.inherited_value fmts k
    end.
Proof. intros Hnd. now rewrite fold_apply_formatter_lookup. Qed.

Lemma toJSON_keys (e : Errors.ElizaError) :
  JsMap.keys (Errors.toJSON e) =
    ["name"; "message"; "code"; "context"; "timestamp"; "stackAnalysis";
     "cause"]%string.
Proof. destruct e. reflexivity. Qed.

Lemma formatEntry_cases (this : Logging.Logger) (entry : Logging.LogEntry) :
  exists ctx,
    fst (Logging.formatEntry this entry) = Logging.with_context ctx entry /\
    snd (Logging.formatEntry this entry) =
      (if Logging.is_eliza (Logging.error entry)
       then Logging.context entry else ctx) /\
    ((exists c, ctx = Some c) <->
     Logging.is_eliza (Logging.error entry) = true \/
     exists c, Logging.context entry = Some c).
Proof.
  unfold Logging.formatEntry.
  assert (Hsome : forall fmts c, exists c',
            fold_left Logging.apply_formatter fmts (Some c) = Some c').
  { induction fmts as [| [k f] rest IH]; intros c; [now exists c |].
    cbn [fold_left]. unfold Logging.apply_formatter at 2. cbn [fst snd].
    destruct (JsMap.get c k) as [v |].
    - destruct (Logging.truthy v); apply IH.
    - destruct (Logging.inherits k); apply IH. }
  assert (Hplain :
    exists ctx,
      Logging.with_context
        (fold_left Logging.apply_formatter
           (Logging.formatters (Logging.config this)) (Logging.context entry))
        entry = Logging.with_context ctx entry /\
      fold_left Logging.apply_formatter
        (Logging.formatters (Logging.config this)) (Logging.context entry) = ctx
      /\ ((exists c, ctx = Some c) <->
          false = true \/ exists c, Logging.context entry = Some c)).
  { eexists. split; [reflexivity |]. split; [reflexivity |].
    destruct (Logging.context entry) as [c |].
    - destruct (Hsome (Logging.formatters (Logging.config this)) c) as [c' ->].
      split; eauto.
    - rewrite fold_apply_formatter_None. split.
      + intros [c Hc]. discriminate Hc.
      + intros [H | [c Hc]]; discriminate. }
  destruct (Logging.error entry) as [[n m s c | e] |]; cbn [fst snd Logging.is_eliza];
    try exact Hplain.
  destruct (Hsome (Logging.formatters (Logging.config this))
              (Errors.spread
                 (Errors.spread_optional [] (Logging.context entry))
                 (Errors.toJSON e))) as [c' Hc'].
  exists (Some c'). rewrite Hc'. split; [reflexivity |].
  split; [reflexivity |]. split; eauto.
Qed.

Lemma write_console (entry : Logging.LogEntry) :
  exists rest,
    Logging.write Logging.ConsoleTransport entry =
      Logging.Header (Logging.LEVEL_STYLES (Logging.level entry))
        (Logging.timestamp entry)
        (Logging.padEnd (Logging.level_name (Logging.level entry)) 5)
        (Logging.message entry) :: rest /\
    Forall (fun line => Logging.is_header line = false) rest.
Proof.
  unfold Logging.write. eexists. split; [reflexivity |].
  apply Forall_app. split.
  - destruct (Logging.context entry); repeat constructor.
  - destruct (Logging.error entry) as [e |]; [| constructor].
    constructor; [reflexivity |].
    destruct (Errors.stack_of e) as [s |]; [| constructor].
    destruct (String.eqb s ""); repeat constructor.
Qed.

Lemma existsb_rejects {A} (fs : list (string * (A -> bool))) (a : A) :
  existsb (fun filter => negb (snd filter a)) fs = false <->
  forall filter, In filter fs -> snd filter a = true.
Proof.
  split.
  - intros H filter Hin. destruct (snd filter a) eqn:Hf; [reflexivity |].
    assert (Hex : existsb (fun filter => negb (snd filter a)) fs = true).
    { apply existsb_exists. exists filter. split; [assumption |].
      now rewrite Hf. }
    congruence.
  - intros H. destruct (existsb _ fs) eqn:Hex; [| reflexivity].
    apply existsb_exists in Hex. destruct Hex as (filter & Hin & Hf).
    rewrite (H filter Hin) in Hf. discriminate Hf.
Qed.

Lemma log_cases (this : Logging.Logger) (now : Z) (level : LogLevel)
    (message : string) (options : Logging.LogOptions) :
  let entry := Logging.entry_of now level message options in
  if (level_value level <? level_value (Logging.minLevel (Logging.config this)))
     || Logging.shouldFilter this entry
  then Logging.log this now level message options =
         ([], Logging.o_context options)
  else Logging.log this now level message options =
         (flat_map (fun transport =>
                      Logging.write transport
                        (fst (Logging.formatEntry this entry)))
                   (Logging.transports this),
          snd (Logging.formatEntry this entry)).
Proof.
  cbv zeta. unfold Logging.log.
  change (Logging.mkLogEntry now level message (Logging.o_context options)
            (Logging.o_error options) (Logging.o_tags options)
            (Logging.o_metadata options))
    with (Logging.entry_of now level message options).
  destruct (level_value level <?
            level_value (Logging.minLevel (Logging.config this)));
    [reflexivity |].
  cbn [orb].
  destruct (Logging.shouldFilter this
              (Logging.entry_of now level message options)); [reflexivity |].
  now destruct (Logging.formatEntry this
                  (Logging.entry_of now level message options)).
Qed.

Lemma initializeTransports_writes (c : Logging.Config)
    (entry : Logging.LogEntry) :
  flat_map (fun transport => Logging.write transport entry)
           (Logging.initializeTransports c) =
    if Logging.enableConsole c
    then Logging.write Logging.ConsoleTransport entry
    else [].
Proof.
  unfold Logging.initializeTransports.
  destruct (Logging.enableConsole c); destruct (Logging.enableFile c);
    cbn [app flat_map Logging.write]; now rewrite ?app_nil_r.
Qed.

Lemma stored_config_log_writes (c : Logging.Config) (now : Z)
    (level : LogLevel) (message : string) (options : Logging.LogOptions) :
  let this := Logging.mkLogger c (Logging.initializeTransports c) in
  let written := fst (Logging.log this now level message options) in
  (written <> [] <->
   Logging.enableConsole (Logging.config this) = true /\
   level_value (Logging.minLevel (Logging.config this)) <= level_value level /\
   forall filter, In filter (Logging.filters (Logging.config this)) ->
     snd filter (Logging.entry_of now level message options) = true) /\
  (written <> [] ->
   exists rest,
     written =
       Logging.Header (Logging.LEVEL_STYLES level) now
         (Logging.padEnd (Logging.level_name level) 5) message :: rest /\
     Forall (fun line => Logging.is_header line = false) rest).
Proof.
  cbv zeta.
  set (this := Logging.mkLogger c (Logging.initializeTransports c)).
  set (entry := Logging.entry_of now level message options).
  pose proof (log_cases this now level message options) as Hlog.
  cbv zeta in Hlog. fold entry in Hlog.
  pose proof (existsb_rejects (Logging.filters (Logging.config this)) entry)
    as Hfilters.
  fold (Logging.shouldFilter this entry) in Hfilters.
  destruct (Z.ltb_spec (level_value level)
              (level_value (Logging.minLevel (Logging.config this))))
    as [Hlow | Hhigh]; cbn [orb] in Hlog.
  { rewrite Hlog. cbn [fst]. split; [| intros H; now contradiction H].
    split; [intros H; now contradiction H | intros (_ & H & _); lia]. }
  destruct (Logging.shouldFilter this entry) eqn:Hf.
  { rewrite Hlog. cbn [fst]. split; [| intros H; now contradiction H].
    split; [intros H; now contradiction H |].
    intros (_ & _ & H). apply Hfilters in H. discriminate H. }
  rewrite Hlog. cbn [fst].
  cbn [Logging.transports this].
  rewrite (initializeTransports_writes c (fst (Logging.formatEntry this entry))).
  change (Logging.enableConsole c)
    with (Logging.enableConsole (Logging.config this)).
  destruct (Logging.enableConsole (Logging.config this)) eqn:Hc.
  - destruct (formatEntry_cases this entry) as (ctx & -> & _).
    destruct (write_console (Logging.with_context ctx entry))
      as (rest & -> & Hrest).
    split.
    + split; [| intros _; discriminate].
      intros _. split; [reflexivity |]. split; [lia |].
      now apply Hfilters.
    + intros _. exists rest. split; [reflexivity | assumption].
  - split; [| intros H; now contradiction H].
    split; [intros H; now contradiction H |]. intros (H & _).
    discriminate H.
Qed.

(** X21: take a logger whose stored configuration [this.config] has every
    field defined, with the transports the constructor sets up for it.  It
    writes something for a call of [log] exactly when its console transport
    is enabled, the level is not below [minLevel], and every filter accepts
    the entry; enabling the file transport makes no difference, since it
    writes nothing.  What is written starts with the one header line of the
    entry, carrying the clock value, the padded level name and the
    message. *)
Theorem log_writes_iff (c : Logging.Config) (now : Z)
    (level : LogLevel) (message : string) (options : Logging.LogOptions) :
  let this := Logging.mkLogger c (Logging.initializeTransports c) in
  let written := fst (Logging.log this now level message options) in
  (written <> [] <->
   Logging.enableConsole (Logging.config this) = true /\
   level_value (Logging.minLevel (Logging.config this)) <= level_value level /\
   forall filter, In filter (Logging.filters (Logging.config this)) ->
     snd filter (Logging.entry_of now level message options) = true) /\
  (written <> [] ->
   exists rest,
     written =
       Logging.Header (Logging.LEVEL_STYLES level) now
         (Logging.padEnd (Logging.level_name level) 5) message :: rest /\
     Forall (fun line => Logging.is_header line = false) rest).
Proof. apply stored_config_log_writes. Qed.

(** X22: the logger a [PluginManager] creates, [new Logger()], writes a
    header line for every message that is not at DEBUG level, and nothing
    for a DEBUG message: exactly the messages the event trace of the
    manager records as logged. *)
Theorem default_logger_matches_manager (now : Z) (level : LogLevel)
    (message : string) (options : Logging.LogOptions) (err : option Thrown)
    (m : Manager) :
  (level <> DEBUG /\
   fst (Logging.log (Logging.new_Logger None) now level message options)
     <> [] /\
   events (log level message err m) =
     events m ++ [Logged level message err]) \/
  (level = DEBUG /\
   fst (Logging.log (Logging.new_Logger None) now level message options)
     = [] /\
   log level message err m = m).
Proof.
  destruct (stored_config_log_writes (Logging.merge_config None) now level
              message options)
    as [[_ Hwrites] _].
  cbv zeta in Hwrites.
  destruct level.
  - right. split; [reflexivity |]. split; [| reflexivity].
    pose proof (log_cases (Logging.new_Logger None) now DEBUG message options)
      as Hlog.
    cbv zeta in Hlog. cbn [orb] in Hlog.
    change (level_value DEBUG <?
            level_value (Logging.minLevel
                           (Logging.config (Logging.new_Logger None))))
      with true in Hlog.
    cbn [orb] in Hlog. now rewrite Hlog.
  - left. split; [discriminate |]. split; [| reflexivity].
    apply Hwrites. split; [reflexivity |]. split; [simpl; lia |].
    intros filter [].
  - left. split; [discriminate |]. split; [| reflexivity].
    apply Hwrites. split; [reflexivity |]. split; [simpl; lia |].
    intros filter [].
  - left. split; [discriminate |]. split; [| reflexivity].
    apply Hwrites. split; [reflexivity |]. split; [simpl; lia |].
    intros filter [].
Qed.

Lemma formatEntry_lookup_law (this : Logging.Logger)
    (entry : Logging.LogEntry) :
  NoDup (JsMap.keys (Logging.formatters (Logging.config this))) ->
  (forall c, Logging.context entry = Some c -> NoDup (JsMap.keys c)) ->
  forall k,
    Logging.lookup (Logging.context (fst (Logging.formatEntry this entry))) k =
      Logging.formatted_lookup (Logging.formatters (Logging.config this)) k
        (Logging.has_context entry) (Logging.base_lookup entry k).
Proof.
  intros Hfmts Hctx k.
  unfold Logging.formatEntry, Logging.base_lookup, Logging.has_context.
  destruct (Logging.error entry) as [[n m s c | e] |];
    cbn [fst Logging.context Logging.with_context];
    rewrite fold_apply_formatter_lookup by assumption;
    try reflexivity.
  cbn [Logging.is_some Logging.is_eliza orb]. f_equal. cbn [Logging.lookup].
  rewrite spread_get
    by (rewrite toJSON_keys; apply distinct_NoDup; reflexivity).
  destruct (JsMap.get (Errors.toJSON e) k); [reflexivity |].
  destruct (Logging.context entry) as [c |]; [| reflexivity].
  cbn [Errors.spread_optional Logging.lookup].
  now rewrite spread_copy by now apply Hctx.
Qed.

(** X23: [formatEntry] changes nothing of an entry but its context.  Under
    a key the context owned before (for an [ElizaError]: the field of that
    name of its JSON form, and otherwise the caller's entry) the formatted
    context holds that value, passed through the formatter registered for
    the key when the value is truthy.  A key the context did not own is
    added in one case only: a formatter is registered under the name of a
    method that every object inherits from [Object.prototype], such as
    [toString] or [constructor]; the context, when there is one, then owns
    that key with the formatter's rendering of the method.  No key is
    dropped. *)
Theorem formatEntry_law (this : Logging.Logger) (entry : Logging.LogEntry) :
  NoDup (JsMap.keys (Logging.formatters (Logging.config this))) ->
  (forall c, Logging.context entry = Some c -> NoDup (JsMap.keys c)) ->
  let formatted := fst (Logging.formatEntry this entry) in
  Logging.timestamp formatted = Logging.timestamp entry /\
  Logging.level formatted = Logging.level entry /\
  Logging.message formatted = Logging.message entry /\
  Logging.error formatted = Logging.error entry /\
  Logging.tags formatted = Logging.tags entry /\
  Logging.metadata formatted = Logging.metadata entry /\
  forall k,
    Logging.lookup (Logging.context formatted) k =
      Logging.formatted_lookup (Logging.formatters (Logging.config this)) k
        (Logging.has_context entry) (Logging.base_lookup entry k).
Proof.
  intros Hfmts Hctx. cbv zeta.
  destruct (formatEntry_cases this entry) as (ctx & Hf & _).
  rewrite Hf at 1 2 3 4 5 6. cbn [Logging.with_context Logging.timestamp
    Logging.level Logging.message Logging.error Logging.tags Logging.metadata].
  repeat (split; [reflexivity |]).
  now apply formatEntry_lookup_law.
Qed.

Lemma formatEntry_law_witness :
  let this := Logging.new_Logger (Some Logging.masking_config) in
  let entry :=
    Logging.mkLogEntry 5 ERROR "request failed"
      (Some Logging.request_context)
      (Some (Errors.Eliza Errors.rpc_error)) None None in
  let formatted := fst (Logging.formatEntry this entry) in
  Logging.timestamp formatted = Logging.timestamp entry /\
  Logging.level formatted = Logging.level entry /\
  Logging.message formatted = Logging.message entry /\
  Logging.error formatted = Logging.error entry /\
  Logging.tags formatted = Logging.tags entry /\
  Logging.metadata formatted = Logging.metadata entry /\
  forall k,
    Logging.lookup (Logging.context formatted) k =
      Logging.formatted_lookup (Logging.formatters (Logging.config this)) k
        (Logging.has_context entry) (Logging.base_lookup entry k).
Proof.
  cbv zeta. apply formatEntry_law.
  - apply distinct_NoDup. reflexivity.
  - intros c Hc. injection Hc as <-. apply distinct_NoDup. reflexivity.
Defined.

Lemma info_caller_context (this : Logging.Logger) (now : Z) (message : string)
    (ctx : option Errors.Obj) :
  Logging.filters (Logging.config this) = [] ->
  level_value (Logging.minLevel (Logging.config this)) <= 1 ->
  snd (Logging.info this now message ctx) =
    fold_left Logging.apply_formatter
      (Logging.formatters (Logging.config this)) ctx.
Proof.
  intros Hfilters Hlevel. unfold Logging.info.
  pose proof (log_cases this now INFO message
                (Logging.mkLogOptions None ctx None None)) as Hlog.
  cbv zeta in Hlog. unfold Logging.shouldFilter in Hlog.
  rewrite Hfilters in Hlog. cbn [existsb orb] in Hlog.
  destruct (Z.ltb_spec (level_value INFO)
              (level_value (Logging.minLevel (Logging.config this))))
    as [Hlow | _]; [simpl in Hlow; lia |].
  cbn [orb] in Hlog. rewrite Hlog. reflexivity.
Qed.

(** X24: the formatters write into the context object the caller passed
    in.  After [info] the caller's object holds the formatted value, and
    logging the same object again formats that value once more; the
    entries without a formatter are as the caller left them.  Only when the
    logged error is an [ElizaError] is the caller's object left alone. *)
Theorem log_formats_caller_context (this : Logging.Logger) (now1 now2 : Z)
    (message1 message2 : string) (c : Errors.Obj) (k : string)
    (f : Errors.Value -> string) (v : Errors.Value) :
  NoDup (JsMap.keys (Logging.formatters (Logging.config this))) ->
  Logging.filters (Logging.config this) = [] ->
  level_value (Logging.minLevel (Logging.config this)) <= 1 ->
  JsMap.get (Logging.formatters (Logging.config this)) k = Some f ->
  JsMap.get c k = Some v -> Logging.truthy v = true -> f v <> ""%string ->
  let after1 := snd (Logging.info this now1 message1 (Some c)) in
  let after2 := snd (Logging.info this now2 message2 after1) in
  Logging.lookup after1 k = Some (Errors.VString (f v)) /\
  Logging.lookup after2 k =
    Some (Errors.VString (f (Errors.VString (f v)))) /\
  (forall k', JsMap.get (Logging.formatters (Logging.config this)) k' = None ->
     Logging.lookup after2 k' = JsMap.get c k') /\
  (forall e ctx,
     snd (Logging.error_ this now1 message1 (Some (Errors.Eliza e)) ctx) = ctx).
Proof.
  intros Hnd Hfilters Hlevel Hf Hget Htruthy Hnonempty. cbv zeta.
  rewrite !info_caller_context by assumption.
  pose proof (fun k' =>
                fold_apply_formatter_own
                  (Logging.formatters (Logging.config this)) c k' Hnd) as H1.
  split; [| split; [| split]].
  - rewrite H1, Hget. unfold Logging.formatted_value.
    now rewrite Hf, Htruthy.
  - rewrite fold_apply_formatter_lookup by assumption.
    rewrite H1, Hget. unfold Logging.formatted_lookup, Logging.formatted_value.
    rewrite Hf, Htruthy. cbn [Logging.truthy].
    destruct (String.eqb_spec (f v) "") as [Heq | _]; [contradiction |].
    reflexivity.
  - intros k' Hnone. rewrite fold_apply_formatter_lookup by assumption.
    rewrite H1.
    unfold Logging.formatted_lookup, Logging.formatted_value,
      Logging.inherited_value.
    rewrite Hnone. destruct (JsMap.get c k'); [reflexivity |].
    now destruct (Logging.is_some _).
  - intros e ctx. unfold Logging.error_.
    pose proof (log_cases this now1 ERROR message1
                  (Logging.mkLogOptions (Some (Errors.Eliza e)) ctx None None))
      as Hlog.
    cbv zeta in Hlog.
    destruct (_ || _); rewrite Hlog; [reflexivity |].
    destruct (formatEntry_cases this
                (Logging.entry_of now1 ERROR message1
                   (Logging.mkLogOptions (Some (Errors.Eliza e)) ctx None None)))
      as (ctx' & _ & Hsnd & _).
    exact Hsnd.
Qed.

Lemma log_formats_caller_context_witness :
  let this := Logging.new_Logger (Some Logging.bracketing_config) in
  let after1 :=
    snd (Logging.info this 1 "login" (Some Logging.request_context)) in
  let after2 := snd (Logging.info this 2 "retry" after1) in
  Logging.lookup after1 "secret" =
    Some (Errors.VString (Logging.bracket (Errors.VString "hunter2"))) /\
  Logging.lookup after2 "secret" =
    Some (Errors.VString
            (Logging.bracket
               (Errors.VString (Logging.bracket (Errors.VString "hunter2")))))
  /\
  (forall k', JsMap.get (Logging.formatters (Logging.config this)) k' = None ->
     Logging.lookup after2 k' = JsMap.get Logging.request_context k') /\
  (forall e ctx,
     snd (Logging.error_ this 1 "login" (Some (Errors.Eliza e)) ctx) = ctx).
Proof.
  cbv zeta.
  apply (log_formats_caller_context
           (Logging.new_Logger (Some Logging.bracketing_config)) 1 2
           "login" "retry" Logging.request_context "secret" Logging.bracket
           (Errors.VString "hunter2")).
  - apply distinct_NoDup. reflexivity.
  - reflexivity.
  - simpl. lia.
  - reflexivity.
  - reflexivity.
  - reflexivity.
  - simpl. discriminate.
Defined.

(** ** Plugin implementations *)

Lemma made_call (kind : Plugins.Call -> bool) (c : Plugins.Call)
    (s : Plugins.SolanaPlugin) :
  Plugins.made kind (Plugins.call c s) =
    (Plugins.made kind s + (if kind c then 1 else 0))%nat.
Proof.
  unfold Plugins.made, Plugins.call. cbn [Plugins.calls].
  rewrite filter_app, length_app. simpl. now destruct (kind c).
Qed.

Lemma made_calls (kind : Plugins.Call -> bool) (s s' : Plugins.SolanaPlugin)
    (new : list Plugins.Call) :
  Plugins.calls s' = Plugins.calls s ++ new ->
  Plugins.made kind s' = (Plugins.made kind s + length (filter kind new))%nat.
Proof.
  intros H. unfold Plugins.made. now rewrite H, filter_app, length_app.
Qed.

Lemma initialize_cases (s : Plugins.SolanaPlugin) :
  exists s',
    Plugins.connection s' = Plugins.connection s /\
    Plugins.subscriptions s' = Plugins.subscriptions s /\
    Plugins.has_context s' = true /\
    match Plugins.getVersion_behaviour (Plugins.connection s)
            (Plugins.made Plugins.is_getVersion s) with
    | Some reason =>
        Plugins.initialize Plugins.onInitialize s = (Plugins.Rejects reason, s')
        /\ Plugins.isInitialized s' = Plugins.isInitialized s /\
        Plugins.calls s' =
          Plugins.calls s ++ Plugins.handler_registrations
            ++ [Plugins.GetVersion]
    | None =>
        Plugins.initialize Plugins.onInitialize s = (Plugins.Resolves tt, s') /\
        Plugins.isInitialized s' = true /\
        Plugins.calls s' =
          Plugins.calls s ++ Plugins.handler_registrations
            ++ [Plugins.GetVersion] ++ Plugins.capability_registrations
    end.
Proof.
  unfold Plugins.initialize, Plugins.onInitialize.
  set (s1 := Plugins.registerEventHandlers (Plugins.set_context s)).
  assert (Hmade : Plugins.made Plugins.is_getVersion s1 =
                  Plugins.made Plugins.is_getVersion s).
  { unfold s1, Plugins.registerEventHandlers.
    rewrite !made_call. cbn [Plugins.is_getVersion].
    unfold Plugins.made, Plugins.set_context. cbn [Plugins.calls]. lia. }
  change (Plugins.connection s1) with (Plugins.connection s).
  rewrite Hmade.
  destruct (Plugins.getVersion_behaviour (Plugins.connection s)
              (Plugins.made Plugins.is_getVersion s)) as [reason |].
  - exists (Plugins.call Plugins.GetVersion s1).
    repeat (split; [reflexivity |]).
    unfold s1, Plugins.registerEventHandlers, Plugins.call,
      Plugins.set_context; cbn [Plugins.calls].
    now rewrite <- !app_assoc.
  - exists (Plugins.set_isInitialized true
              (Plugins.call
                 (Plugins.RegisterCapability "subscribeAccount"
                    "subscribeAccount")
                 (Plugins.call
                    (Plugins.RegisterCapability "sendTransaction"
                       "sendTransaction")
                    (Plugins.call
                       (Plugins.RegisterCapability "getBalance" "getBalance")
                       (Plugins.call Plugins.GetVersion s1))))).
    repeat (split; [reflexivity |]).
    unfold s1, Plugins.registerEventHandlers, Plugins.call,
      Plugins.set_context, Plugins.set_isInitialized; cbn [Plugins.calls].
    now rewrite <- !app_assoc.
Qed.

Lemma remove_listeners_resolve (entries : list (string * Z)) :
  forall s,
    (forall j, (j < length entries)%nat ->
       Plugins.removeListener_behaviour (Plugins.connection s)
         (Plugins.made Plugins.is_removeListener s + j) = None) ->
    exists s',
      Plugins.remove_listeners entries s = (Plugins.Resolves tt, s') /\
      Plugins.connection s' = Plugins.connection s /\
      Plugins.has_context s' = Plugins.has_context s /\
      Plugins.isInitialized s' = Plugins.isInitialized s /\
      Plugins.subscriptions s' = Plugins.subscriptions s /\
      Plugins.calls s' =
        Plugins.calls s ++ Plugins.removals (Plugins.stored_ids entries).
Proof.
  induction entries as [| [a id] rest IH]; intros s Hall.
  - exists s. cbn [Plugins.remove_listeners]. repeat (split; [reflexivity |]).
    simpl. now rewrite app_nil_r.
  - cbn [Plugins.remove_listeners].
    rewrite <- (Nat.add_0_r (Plugins.made Plugins.is_removeListener s)).
    rewrite (Hall 0%nat) by (simpl; lia).
    destruct (IH (Plugins.call (Plugins.RemoveAccountChangeListener id) s))
      as (s' & Hrun & Hc & Hh & Hi & Hs & Hcalls).
    + intros j Hj. rewrite made_call. cbn [Plugins.is_removeListener].
      change (Plugins.connection (Plugins.call _ s))
        with (Plugins.connection s).
      rewrite <- Nat.add_assoc. apply Hall. simpl. lia.
    + exists s'. split; [exact Hrun |].
      repeat (split; [assumption |]).
      rewrite Hcalls. cbn [Plugins.calls Plugins.call].
      now rewrite <- app_assoc.
Qed.

Lemma remove_listeners_reject (pre : list (string * Z)) :
  forall s a id post reason,
    (forall j, (j < length pre)%nat ->
       Plugins.removeListener_behaviour (Plugins.connection s)
         (Plugins.made Plugins.is_removeListener s + j) = None) ->
    Plugins.removeListener_behaviour (Plugins.connection s)
      (Plugins.made Plugins.is_removeListener s + length pre) = Some reason ->
    exists s',
      Plugins.remove_listeners (pre ++ (a, id) :: post) s =
        (Plugins.Rejects reason, s') /\
      Plugins.connection s' = Plugins.connection s /\
      Plugins.has_context s' = Plugins.has_context s /\
      Plugins.isInitialized s' = Plugins.isInitialized s /\
      Plugins.subscriptions s' = Plugins.subscriptions s /\
      Plugins.calls s' =
        Plugins.calls s
        ++ Plugins.removals (Plugins.stored_ids pre ++ [id]).
Proof.
  induction pre as [| [b idb] rest IH]; intros s a id post reason Hall Hrej.
  - cbn [app Plugins.remove_listeners]. simpl in Hrej.
    rewrite Nat.add_0_r in Hrej. rewrite Hrej.
    eexists. split; [reflexivity |]. repeat (split; [reflexivity |]).
    reflexivity.
  - cbn [app Plugins.remove_listeners].
    rewrite <- (Nat.add_0_r (Plugins.made Plugins.is_removeListener s)).
    rewrite (Hall 0%nat) by (simpl; lia).
    destruct (IH (Plugins.call (Plugins.RemoveAccountChangeListener idb) s)
                a id post reason)
      as (s' & Hrun & Hc & Hh & Hi & Hs & Hcalls).
    + intros j Hj. rewrite made_call. cbn [Plugins.is_removeListener].
      change (Plugins.connection (Plugins.call _ s))
        with (Plugins.connection s).
      rewrite <- Nat.add_assoc. apply Hall. simpl. lia.
    + rewrite made_call. cbn [Plugins.is_removeListener].
      change (Plugins.connection (Plugins.call _ s))
        with (Plugins.connection s).
      rewrite <- Nat.add_assoc. exact Hrej.
    + exists s'. split; [exact Hrun |].
      repeat (split; [assumption |]).
      rewrite Hcalls. cbn [Plugins.calls Plugins.call].
      now rewrite <- app_assoc.
Qed.

Lemma destroy_resolves (s : Plugins.SolanaPlugin) :
  (forall j, (j < length (Plugins.subscriptions s))%nat ->
     Plugins.removeListener_behaviour (Plugins.connection s)
       (Plugins.made Plugins.is_removeListener s + j) = None) ->
  exists s',
    Plugins.destroy Plugins.onDestroy s = (Plugins.Resolves tt, s') /\
    Plugins.connection s' = Plugins.connection s /\
    Plugins.subscriptions s' = [] /\
    Plugins.isInitialized s' = false /\
    Plugins.calls s' =
      Plugins.calls s
      ++ Plugins.removals (Plugins.stored_ids (Plugins.subscriptions s)).
Proof.
  intros Hall.
  destruct (remove_listeners_resolve (Plugins.subscriptions s) s Hall)
    as (s1 & Hrun & Hc & _ & _ & _ & Hcalls).
  unfold Plugins.destroy, Plugins.onDestroy. rewrite Hrun.
  eexists. split; [reflexivity |]. cbn. auto.
Qed.

Lemma destroy_rejects (s : Plugins.SolanaPlugin) (pre : list (string * Z))
    (a : string) (id : Z) (post : list (string * Z)) (reason : string) :
  Plugins.subscriptions s = pre ++ (a, id) :: post ->
  (forall j, (j < length pre)%nat ->
     Plugins.removeListener_behaviour (Plugins.connection s)
       (Plugins.made Plugins.is_removeListener s + j) = None) ->
  Plugins.removeListener_behaviour (Plugins.connection s)
    (Plugins.made Plugins.is_removeListener s + length pre) = Some reason ->
  exists s',
    Plugins.destroy Plugins.onDestroy s = (Plugins.Rejects reason, s') /\
    Plugins.connection s' = Plugins.connection s /\
    Plugins.subscriptions s' = Plugins.subscriptions s /\
    Plugins.isInitialized s' = Plugins.isInitialized s /\
    Plugins.calls s' =
      Plugins.calls s ++ Plugins.removals (Plugins.stored_ids pre ++ [id]).
Proof.
  intros Hsubs Hall Hrej.
  destruct (remove_listeners_reject pre s a id post reason Hall Hrej)
    as (s1 & Hrun & Hc & _ & Hi & Hs & Hcalls).
  unfold Plugins.destroy, Plugins.onDestroy. rewrite Hsubs, Hrun.
  exists s1. split; [reflexivity |]. rewrite <- Hsubs. auto.
Qed.

Lemma destroy_call_trace (s : Plugins.SolanaPlugin) :
  exists ids,
    Plugins.calls (snd (Plugins.destroy Plugins.onDestroy s)) =
      Plugins.calls s ++ Plugins.removals ids.
Proof.
  assert (Hloop : forall entries s0, exists ids,
            Plugins.calls (snd (Plugins.remove_listeners entries s0)) =
              Plugins.calls s0 ++ Plugins.removals ids /\
            Plugins.calls
              (snd (let (r, s1) := Plugins.remove_listeners entries s0 in
                    match r with
                    | Plugins.Resolves _ =>
                        (Plugins.Resolves tt, Plugins.set_subscriptions [] s1)
                    | Plugins.Rejects reason => (Plugins.Rejects reason, s1)
                    end)) =
              Plugins.calls (snd (Plugins.remove_listeners entries s0))).
  { induction entries as [| [a id] rest IH]; intros s0.
    - exists []. simpl. now rewrite app_nil_r.
    - cbn [Plugins.remove_listeners].
      destruct (Plugins.removeListener_behaviour _ _) as [reason |].
      + exists [id]. split; reflexivity.
      + destruct (IH (Plugins.call (Plugins.RemoveAccountChangeListener id) s0))
          as (ids & H1 & H2).
        exists (id :: ids). split; [| exact H2].
        rewrite H1. cbn [Plugins.calls Plugins.call].
        now rewrite <- app_assoc. }
  destruct (Hloop (Plugins.subscriptions s) s) as (ids & H1 & H2).
  exists ids. unfold Plugins.destroy, Plugins.onDestroy.
  destruct (Plugins.remove_listeners (Plugins.subscriptions s) s)
    as [[[] | reason] s1]; exact H1.
Qed.

Lemma filter_removals (kind : Plugins.Call -> bool) (ids : list Z) :
  (forall id, kind (Plugins.RemoveAccountChangeListener id) = false) ->
  filter kind (Plugins.removals ids) = [].
Proof.
  intros Hk. induction ids as [| id rest IH]; [reflexivity |].
  simpl. now rewrite Hk.
Qed.

Lemma run_eventsOn (op : Plugins.Operation) (s : Plugins.SolanaPlugin) :
  Plugins.made Plugins.is_eventsOn (Plugins.run op s) =
    (Plugins.made Plugins.is_eventsOn s
     + (if Plugins.is_initialize op then 3 else 0))%nat.
Proof.
  destruct op as [| | address | address | tx];
    cbn [Plugins.run Plugins.is_initialize].
  - destruct (initialize_cases s) as (s' & _ & _ & _ & H).
    destruct (Plugins.getVersion_behaviour _ _);
      destruct H as (-> & _ & Hcalls); cbn [snd];
      now rewrite (made_calls _ s s' _ Hcalls).
  - destruct (destroy_call_trace s) as (ids & Hcalls).
    rewrite (made_calls _ s _ _ Hcalls).
    now rewrite filter_removals.
  - unfold Plugins.subscribeAccount.
    destruct (Plugins.publicKey_error _ _); cbn [snd]; [lia |].
    unfold Plugins.made, Plugins.set_subscriptions, Plugins.call.
    cbn [Plugins.calls]. rewrite filter_app, length_app. simpl. lia.
  - unfold Plugins.getBalance.
    destruct (Plugins.publicKey_error _ _); cbn [snd]; [lia |].
    rewrite made_call. reflexivity.
  - cbn [Plugins.sendTransaction snd]. lia.
Qed.

(** X25: every call of [initialize] registers the three event handlers
    again, whether it succeeds or not, and no operation of the plugin ever
    unregisters one: after any sequence of operations the number of
    handlers registered on the event system has grown by three times the
    number of [initialize] calls in it. *)
Theorem handlers_accumulate (ops : list Plugins.Operation)
    (s : Plugins.SolanaPlugin) :
  Plugins.made Plugins.is_eventsOn (Plugins.run_all ops s) =
    (Plugins.made Plugins.is_eventsOn s
     + 3 * length (filter Plugins.is_initialize ops))%nat.
Proof.
  revert s. induction ops as [| op ops IH]; intros s.
  - simpl. lia.
  - change (Plugins.run_all (op :: ops) s)
      with (Plugins.run_all ops (Plugins.run op s)).
    rewrite IH, run_eventsOn. simpl.
    destruct (Plugins.is_initialize op); simpl; lia.
Qed.

(** X26: when [getVersion] rejects, [initialize] rejects with the same
    reason after the three handlers have been registered; no capability is
    registered and [isInitialized] is left as it was, so a plugin that was
    initialized before still counts as initialized. *)
Theorem initialize_failure (s : Plugins.SolanaPlugin) (reason : string) :
  Plugins.getVersion_behaviour (Plugins.connection s)
    (Plugins.made Plugins.is_getVersion s) = Some reason ->
  exists s',
    Plugins.initialize Plugins.onInitialize s = (Plugins.Rejects reason, s') /\
    Plugins.isInitialized s' = Plugins.isInitialized s /\
    Plugins.subscriptions s' = Plugins.subscriptions s /\
    Plugins.calls s' =
      Plugins.calls s ++ Plugins.handler_registrations ++ [Plugins.GetVersion].
Proof.
  intros Hrej. destruct (initialize_cases s) as (s' & _ & Hs & _ & H).
  rewrite Hrej in H. destruct H as (Hrun & Hi & Hcalls).
  exists s'. auto.
Qed.

Lemma initialize_failure_witness :
  exists s',
    Plugins.initialize Plugins.onInitialize Plugins.one_subscription =
      (Plugins.Rejects "ECONNREFUSED", s') /\
    Plugins.isInitialized s' = Plugins.isInitialized Plugins.one_subscription /\
    Plugins.subscriptions s' = Plugins.subscriptions Plugins.one_subscription /\
    Plugins.calls s' =
      Plugins.calls Plugins.one_subscription
      ++ Plugins.handler_registrations ++ [Plugins.GetVersion].
Proof.
  apply initialize_failure. reflexivity.
Defined.

(** X27: when every removal succeeds, [destroy] removes the listeners
    whose ids are stored in the subscription map, one call each in the
    order of the map, then empties the map and clears [isInitialized]. *)
Theorem destroy_removes_stored_listeners (s : Plugins.SolanaPlugin) :
  (forall j, (j < length (Plugins.subscriptions s))%nat ->
     Plugins.removeListener_behaviour (Plugins.connection s)
       (Plugins.made Plugins.is_removeListener s + j) = None) ->
  exists s',
    Plugins.destroy Plugins.onDestroy s = (Plugins.Resolves tt, s') /\
    Plugins.subscriptions s' = [] /\
    Plugins.isInitialized s' = false /\
    Plugins.calls s' =
      Plugins.calls s
      ++ Plugins.removals (Plugins.stored_ids (Plugins.subscriptions s)).
Proof.
  intros Hall.
  destruct (destroy_resolves s Hall) as (s' & Hrun & _ & Hs & Hi & Hcalls).
  exists s'. auto.
Qed.

Lemma destroy_removes_stored_listeners_witness :
  exists s',
    Plugins.destroy Plugins.onDestroy Plugins.one_subscription =
      (Plugins.Resolves tt, s') /\
    Plugins.subscriptions s' = [] /\
    Plugins.isInitialized s' = false /\
    Plugins.calls s' =
      Plugins.calls Plugins.one_subscription
      ++ Plugins.removals
           (Plugins.stored_ids (Plugins.subscriptions Plugins.one_subscription)).
Proof.
  apply destroy_removes_stored_listeners. intros j Hj. reflexivity.
Defined.

(** X28: when the removal of a listener fails, [destroy] rejects with
    that reason and stops: the listeners before it have been removed, the
    ones after it have not, the subscription map still holds every entry
    (also those of the listeners already removed) and [isInitialized] is
    not cleared. *)
Theorem destroy_stops_at_failure (s : Plugins.SolanaPlugin)
    (pre : list (string * Z)) (a : string) (id : Z)
    (post : list (string * Z)) (reason : string) :
  Plugins.subscriptions s = pre ++ (a, id) :: post ->
  (forall j, (j < length pre)%nat ->
     Plugins.removeListener_behaviour (Plugins.connection s)
       (Plugins.made Plugins.is_removeListener s + j) = None) ->
  Plugins.removeListener_behaviour (Plugins.connection s)
    (Plugins.made Plugins.is_removeListener s + length pre) = Some reason ->
  exists s',
    Plugins.destroy Plugins.onDestroy s = (Plugins.Rejects reason, s') /\
    Plugins.subscriptions s' = Plugins.subscriptions s /\
    Plugins.isInitialized s' = Plugins.isInitialized s /\
    Plugins.calls s' =
      Plugins.calls s ++ Plugins.removals (Plugins.stored_ids pre ++ [id]).
Proof.
  intros Hsubs Hall Hrej.
  destruct (destroy_rejects s pre a id post reason Hsubs Hall Hrej)
    as (s' & Hrun & _ & Hs & Hi & Hcalls).
  exists s'. auto.
Qed.

Lemma destroy_stops_at_failure_witness :
  exists s',
    Plugins.destroy Plugins.onDestroy Plugins.two_subscriptions =
      (Plugins.Rejects "socket closed", s') /\
    Plugins.subscriptions s' = Plugins.subscriptions Plugins.two_subscriptions
    /\
    Plugins.isInitialized s' = Plugins.isInitialized Plugins.two_subscriptions
    /\
    Plugins.calls s' =
      Plugins.calls Plugins.two_subscriptions
      ++ Plugins.removals (Plugins.stored_ids [("alice"%string, 1)] ++ [2]).
Proof.
  apply (destroy_stops_at_failure Plugins.two_subscriptions
           [("alice"%string, 1)] "bob" 2 []).
  - reflexivity.
  - intros j Hj. simpl in Hj.
    assert (j = 0%nat) as -> by lia. reflexivity.
  - reflexivity.
Defined.

Lemma map_set_In_pair {V} (m : JsMap.t V) (k x : string) (v v' : V) :
  NoDup (JsMap.keys m) ->
  In (x, v) (JsMap.set m k v') ->
  (x = k /\ v = v') \/ (x <> k /\ In (x, v) m).
Proof.
  induction m as [| [k0 v0] rest IH]; simpl; intros Hnd.
  - intros [H | []]. injection H as <- <-. now left.
  - inversion Hnd as [| ? ? Hk0 Hrest]; subst.
    destruct (String.eqb_spec k0 k) as [-> | Hne]; simpl.
    + intros [H | H].
      * injection H as <- <-. now left.
      * right. split; [| now right].
        intros ->. apply Hk0. apply (in_map fst) in H. exact H.
    + intros [H | H].
      * injection H as <- <-. right. split; [congruence | now left].
      * destruct (IH Hrest H) as [Hl | [Hx Hin]]; [now left |].
        right. split; [assumption | now right].
Qed.

Lemma map_set_NoDup {V} (m : JsMap.t V) (k : string) (v : V) :
  NoDup (JsMap.keys m) -> NoDup (JsMap.keys (JsMap.set m k v)).
Proof.
  intros Hnd. destruct (in_dec string_dec k (JsMap.keys m)) as [Hin | Hout].
  - now rewrite map_keys_set_present.
  - rewrite map_keys_set_fresh by assumption.
    apply NoDup_app; [assumption | repeat constructor; intros [] |].
    intros x Hx [<- | []]. contradiction.
Qed.

Lemma remove_listeners_subscriptions (entries : list (string * Z)) :
  forall s,
    Plugins.subscriptions (snd (Plugins.remove_listeners entries s)) =
    Plugins.subscriptions s.
Proof.
  induction entries as [| [a id] rest IH]; intros s; [reflexivity |].
  cbn [Plugins.remove_listeners].
  destruct (Plugins.removeListener_behaviour _ _); [reflexivity |].
  now rewrite IH.
Qed.

(** What one operation does to the subscription map: nothing, or it clears
    it, or it stores one id. *)
Lemma run_subscriptions (op : Plugins.Operation) (s : Plugins.SolanaPlugin) :
  Plugins.subscriptions (Plugins.run op s) = Plugins.subscriptions s \/
  Plugins.subscriptions (Plugins.run op s) = [] \/
  exists a id,
    Plugins.subscriptions (Plugins.run op s) =
    JsMap.set (Plugins.subscriptions s) a id.
Proof.
  destruct op as [| | a | a | tx]; cbn [Plugins.run].
  - left. unfold Plugins.initialize, Plugins.onInitialize.
    destruct (Plugins.getVersion_behaviour _ _); reflexivity.
  - unfold Plugins.destroy, Plugins.onDestroy.
    pose proof (remove_listeners_subscriptions (Plugins.subscriptions s) s)
      as Hsame.
    destruct (Plugins.remove_listeners (Plugins.subscriptions s) s)
      as [[u | reason] s1]; cbn [snd] in *.
    + right. left. reflexivity.
    + left. exact Hsame.
  - unfold Plugins.subscribeAccount.
    destruct (Plugins.publicKey_error _ a); [now left |].
    right. right. eexists. eexists. reflexivity.
  - left. unfold Plugins.getBalance.
    destruct (Plugins.publicKey_error _ a); reflexivity.
  - now left.
Qed.

(** The subscription map of a plugin holds one id per address. *)
Lemma run_all_subscriptions_NoDup (ops : list Plugins.Operation) :
  forall s,
    NoDup (JsMap.keys (Plugins.subscriptions s)) ->
    NoDup (JsMap.keys (Plugins.subscriptions (Plugins.run_all ops s))).
Proof.
  induction ops as [| op ops IH]; intros s Hnd; [exact Hnd |].
  cbn [Plugins.run_all fold_left]. apply IH.
  destruct (run_subscriptions op s) as [-> | [-> | (a & id & ->)]].
  - exact Hnd.
  - constructor.
  - now apply map_set_NoDup.
Qed.

(** X29: subscribing to a valid address that is already subscribed registers
    a second listener on the connection and stores its id in place of the
    first: the first id is no longer stored (unless the connection handed
    out the same id again, or it is stored under another address), so the
    removals of [destroy], which go by the stored ids, never reach the
    first listener.  This holds in every state a plugin reaches from
    [new SolanaPlugin] by its public operations. *)
Theorem subscribeAccount_overwrites (c : Plugins.Connection)
    (ops : list Plugins.Operation) (a : string) (old : Z) :
  let s := Plugins.run_all ops (Plugins.new_SolanaPlugin c) in
  Plugins.publicKey_error (Plugins.connection s) a = None ->
  JsMap.get (Plugins.subscriptions s) a = Some old ->
  let id :=
    Plugins.onAccountChange_behaviour (Plugins.connection s)
      (Plugins.made Plugins.is_onAccountChange s) in
  exists s',
    Plugins.subscribeAccount a s = (Plugins.Resolves id, s') /\
    Plugins.calls s' = Plugins.calls s ++ [Plugins.OnAccountChange a] /\
    JsMap.get (Plugins.subscriptions s') a = Some id /\
    JsMap.keys (Plugins.subscriptions s') = JsMap.keys (Plugins.subscriptions s)
    /\
    (forall b, b <> a ->
       JsMap.get (Plugins.subscriptions s') b =
       JsMap.get (Plugins.subscriptions s) b) /\
    (In old (Plugins.stored_ids (Plugins.subscriptions s')) ->
     old = id \/ exists b, b <> a /\ In (b, old) (Plugins.subscriptions s)).
Proof.
  cbv zeta.
  assert (Hnd : NoDup (JsMap.keys
                         (Plugins.subscriptions
                            (Plugins.run_all ops (Plugins.new_SolanaPlugin c)))))
    by (apply run_all_subscriptions_NoDup; constructor).
  set (s := Plugins.run_all ops (Plugins.new_SolanaPlugin c)) in *.
  intros Hvalid Hget. unfold Plugins.subscribeAccount.
  rewrite Hvalid. eexists. split; [reflexivity |].
  cbn [Plugins.calls Plugins.subscriptions Plugins.set_subscriptions
       Plugins.call].
  split; [reflexivity |]. split; [apply map_get_set_same |].
  split; [| split].
  - apply map_keys_set_present. apply map_get_In. now exists old.
  - intros b Hb. now apply map_get_set_other.
  - intros Hin. unfold Plugins.stored_ids in Hin.
    apply in_map_iff in Hin. destruct Hin as ([b v] & Hv & Hin).
    simpl in Hv. subst v.
    apply (map_set_In_pair _ _ _ _ _ Hnd) in Hin.
    destruct Hin as [[_ Heq] | [Hb Hin]]; [now left |].
    right. now exists b.
Qed.

Lemma subscribeAccount_overwrites_witness :
  let s :=
    Plugins.run_all [Plugins.SubscribeAccount "alice"]
      (Plugins.new_SolanaPlugin Plugins.slow_connection) in
  let id :=
    Plugins.onAccountChange_behaviour (Plugins.connection s)
      (Plugins.made Plugins.is_onAccountChange s) in
  exists s',
    Plugins.subscribeAccount "alice" s = (Plugins.Resolves id, s') /\
    Plugins.calls s' = Plugins.calls s ++ [Plugins.OnAccountChange "alice"] /\
    JsMap.get (Plugins.subscriptions s') "alice" = Some id /\
    JsMap.keys (Plugins.subscriptions s') = JsMap.keys (Plugins.subscriptions s)
    /\
    (forall b, b <> "alice"%string ->
       JsMap.get (Plugins.subscriptions s') b =
       JsMap.get (Plugins.subscriptions s) b) /\
    (In 1 (Plugins.stored_ids (Plugins.subscriptions s')) ->
     1 = id \/
     exists b, b <> "alice"%string /\ In (b, 1) (Plugins.subscriptions s)).
Proof.
  apply (subscribeAccount_overwrites Plugins.slow_connection
           [Plugins.SubscribeAccount "alice"] "alice" 1).
  - reflexivity.
  - reflexivity.
Defined.

(** ** The monitor and termination *)

Lemma accounted_registered (m m' : Manager) (x : string) :
  accounted m m' -> registered m' x -> registered m x.
Proof.
  intros (evs & _ & H) Hreg. apply map_get_In in Hreg.
  destruct Hreg as [e' Hget']. destruct (H x e' Hget') as (e & Hget & _).
  apply map_get_In. now exists e.
Qed.

Lemma monitor_entries_terminates (names : list string) :
  forall m x e,
    In x names -> JsMap.get (plugins m) x = Some e ->
    10 < errorCount (metrics e) ->
    recoveryStrategy (errorHandling (config e)) = terminate ->
    destroy_outcome e = None ->
    ~ registered (monitor_entries names m) x.
Proof.
  induction names as [| name names IH]; intros m x e Hin Hget Hec Hs Hout;
    [contradiction |].
  cbn [monitor_entries]. destruct (String.eqb_spec name x) as [-> | Hne].
  - rewrite Hget.
    assert (Hgt : (errorCount (metrics e) >? 10) = true)
      by (rewrite Z.gtb_ltb; now apply Z.ltb_lt).
    rewrite Hgt. unfold handlePluginFailure. rewrite Hs.
    destruct (heartbeat_check_accounted x e m) as [P1 _].
    set (m1 := heartbeat_check x e m) in *.
    assert (Hget1 : JsMap.get (plugins m1) x = Some e) by now rewrite P1.
    destruct (terminatePlugin_removed x m1 e Hget1 Hout)
      as (m2 & -> & Hp & _).
    cbn [snd]. intros Hreg.
    apply (accounted_registered m2 _ x (monitor_entries_accounted names m2))
      in Hreg.
    unfold registered in Hreg. rewrite Hp in Hreg.
    apply map_keys_delete_In in Hreg. now destruct Hreg.
  - assert (Hin' : In x names) by (destruct Hin; [contradiction | assumption]).
    destruct (JsMap.get (plugins m) name) as [en |];
      [| now apply (IH m x e)].
    destruct (heartbeat_check_accounted name en m) as [P1 _].
    set (m1 := heartbeat_check name en m) in *.
    assert (Hget1 : JsMap.get (plugins m1) x = Some e) by now rewrite P1.
    destruct (errorCount (metrics en) >? 10).
    + destruct (handlePluginFailure_effect name en m1) as [Hframe _].
      apply (IH _ x e); try assumption.
      rewrite (Hframe x); [assumption |]. intros ->. now apply Hne.
    + now apply (IH m1 x e).
Qed.

(** X30: a plugin whose error count exceeds 10 and whose recovery
    strategy is terminate is gone after the next firing of the monitor,
    provided its [destroy] is absent or resolves: the firing logs the
    termination and, the recovery action having run to completion, the id
    is no longer registered. *)
Theorem monitor_terminates_worn_plugin (m : Manager) (x : string)
    (e : PluginEntry) :
  JsMap.get (plugins m) x = Some e ->
  10 < errorCount (metrics e) ->
  recoveryStrategy (errorHandling (config e)) = terminate ->
  destroy_outcome e = None ->
  ~ registered (fire m) x /\
  exists evs,
    events (fire m) = events m ++ evs /\
    In (Logged INFO ("Terminating plugin: " ++ x)%string None) evs.
Proof.
  intros Hget Hec Hs Hout. split.
  - unfold fire, tick.
    apply (monitor_entries_terminates _ _ x e); try assumption.
    apply map_get_In. now exists e.
  - destruct (fire_dispatch m x e Hget Hec) as (evs & E & Hin).
    rewrite Hs in Hin. now exists evs.
Qed.

Lemma monitor_terminates_worn_plugin_witness :
  ~ registered (fire doomed_registry) "p" /\
  exists evs,
    events (fire doomed_registry) = events doomed_registry ++ evs /\
    In (Logged INFO ("Terminating plugin: " ++ "p")%string None) evs.
Proof.
  apply (monitor_terminates_worn_plugin doomed_registry "p" doomed_entry).
  - vm_compute. reflexivity.
  - vm_compute. reflexivity.
  - reflexivity.
  - reflexivity.
Defined.
